(** * Solar-Demo: interaction state machine, camera transition engine and
      adaptive quality loop

    A shallow embedding of
    - [FPSMonitor] and [QualityManager] (performance/QualityManager.js),
    - [PerturbationEffect] (effects/PerturbationEffect.js),
    - [CameraController] and [InteractionController]
      (interaction/CameraController.js),
    together with the properties stated about them.

    Conventions.
    - The quality loop only adds, divides and compares numbers, so its JS
      numbers are exact rationals extended with [+Infinity], [-Infinity]
      and [NaN] ([JsNum.num]); rounding of IEEE doubles is not modelled and
      zero is unsigned.  Sums and quotients are kept in lowest terms
      ([Qred]), which does not change their value, so that everything
      there computes.
    - Geometry, pointer tracking and shader uniforms use square roots and
      tangents, so their JS numbers are real numbers ([R]).
    - Objects with identity (celestial bodies, tweens) live in stores and
      are named by references; [null]/[undefined] is [None].
    - A JS exception keeps the mutations made before it was thrown:
      methods that can throw return the state together with an outcome.
    - [setTimeout] and the GSAP ticker are driven by one logical clock in
      milliseconds. *)

From Stdlib Require Import ZArith QArith Qminmax Qabs Reals Lra Lia List.
From stdpp Require Import gmap strings sorting.
Import ListNotations.

Local Open Scope Z_scope.

(* ===================================================================== *)
(** * JS numbers of the quality loop *)
(* ===================================================================== *)

Module JsNum.

Inductive num : Type :=
| Fin (q : Q)
| PInf
| NInf
| NaN.

Definition of_nat (n : nat) : num := Fin (inject_Z (Z.of_nat n)).

(** [a + b] *)
Definition add (a b : num) : num :=
  match a, b with
  | NaN, _ | _, NaN => NaN
  | Fin x, Fin y => Fin (Qred (x + y))
  | PInf, NInf | NInf, PInf => NaN
  | PInf, _ | _, PInf => PInf
  | NInf, _ | _, NInf => NInf
  end.

Definition Qsgn (q : Q) : comparison := (q ?= 0)%Q.

(** [a / b]; a zero divisor is [+0]. *)
Definition div (a b : num) : num :=
  match a, b with
  | NaN, _ | _, NaN => NaN
  | Fin x, Fin y =>
      match Qsgn y with
      | Eq => match Qsgn x with Eq => NaN | Gt => PInf | Lt => NInf end
      | _ => Fin (Qred (x / y))
      end
  | Fin _, (PInf | NInf) => Fin 0
  | PInf, Fin y => match Qsgn y with Lt => NInf | _ => PInf end
  | NInf, Fin y => match Qsgn y with Lt => PInf | _ => NInf end
  | (PInf | NInf), (PInf | NInf) => NaN
  end.

(** [a < b]; every comparison with [NaN] is false. *)
Definition ltb (a b : num) : bool :=
  match a, b with
  | NaN, _ | _, NaN => false
  | Fin x, Fin y => negb (Qle_bool y x)
  | NInf, NInf => false
  | NInf, _ => true
  | _, NInf => false
  | PInf, _ => false
  | Fin _, PInf => true
  end.

(** [a >= b] *)
Definition geb (a b : num) : bool :=
  match a, b with
  | NaN, _ | _, NaN => false
  | Fin x, Fin y => Qle_bool y x
  | _, NInf => true
  | NInf, _ => false
  | PInf, _ => true
  | Fin _, PInf => false
  end.

(** [array.reduce((a, b) => a + b, 0)] *)
Definition sum (l : list num) : num := fold_left add l (Fin 0).

(** Equality of numbers up to the representation of rationals. *)
Definition eqv (a b : num) : Prop :=
  match a, b with
  | Fin x, Fin y => (x == y)%Q
  | PInf, PInf | NInf, NInf | NaN, NaN => True
  | _, _ => False
  end.

End JsNum.

(* ===================================================================== *)
(** * Quality control loop *)
(* ===================================================================== *)

Module Quality.
Import JsNum.

(** ** FPSMonitor *)

Record FPSMonitor : Type := mkFPSMonitor {
  sampleSize : nat;
  samples : list num;
  lastTime : Q;
  fps : num;
  avgFps : num;
  frameTime : Q;
  highQualityThreshold : num;
  lowQualityThreshold : num;
  (** [onQualityChange] is [null] or a callback *)
  onQualityChange : bool;
  currentQuality : string;
  qualityChangeDelay : Z;
  framesSinceQualityChange : Z
}.

(** [new FPSMonitor(sampleSize)], created when [performance.now()] reads
    [t0]. *)
Definition new_FPSMonitor (sampleSize : nat) (t0 : Q) : FPSMonitor :=
  {| sampleSize := sampleSize;
     samples := [];
     lastTime := t0;
     fps := Fin 60;
     avgFps := Fin 60;
     frameTime := 16.67;
     highQualityThreshold := Fin 55;
     lowQualityThreshold := Fin 30;
     onQualityChange := false;
     currentQuality := "high";
     qualityChangeDelay := 60;
     framesSinceQualityChange := 0 |}.

Definition default_sampleSize : nat := 60.

Definition str_neq (a b : string) : bool := negb (String.eqb a b).

(** The level picked by the three-way [if] of [checkQuality]. *)
Definition pick_quality (m : FPSMonitor) : string :=
  if geb (avgFps m) (highQualityThreshold m)
     && str_neq (currentQuality m) "high" then "high"
  else if ltb (avgFps m) (lowQualityThreshold m)
          && str_neq (currentQuality m) "low" then "low"
  else if geb (avgFps m) (lowQualityThreshold m)
          && ltb (avgFps m) (highQualityThreshold m)
          && str_neq (currentQuality m) "medium" then "medium"
  else currentQuality m.

(** [checkQuality()]: the new monitor and the argument of the
    [onQualityChange] call, if one is made. *)
Definition checkQuality (m : FPSMonitor) : FPSMonitor * option string :=
  if framesSinceQualityChange m <? qualityChangeDelay m then (m, None)
  else
    let newQuality := pick_quality m in
    if str_neq newQuality (currentQuality m) then
      (mkFPSMonitor (sampleSize m) (samples m) (lastTime m) (fps m)
         (avgFps m) (frameTime m) (highQualityThreshold m)
         (lowQualityThreshold m) (onQualityChange m)
         newQuality (qualityChangeDelay m) 0,
       if onQualityChange m then Some newQuality else None)
    else (m, None).

(** [samples.push(x); if (samples.length > sampleSize) samples.shift()] *)
Definition push_sample (size : nat) (l : list num) (x : num) : list num :=
  let l' := l ++ [x] in
  if (size <? length l')%nat then tl l' else l'.

(** The assignments of [update()] up to the call of [checkQuality];
    [currentTime] is the reading of [performance.now()]. *)
Definition measure (currentTime : Q) (m : FPSMonitor) : FPSMonitor :=
  let frameTime' := (currentTime - lastTime m)%Q in
  let fps' := div (Fin 1000) (Fin frameTime') in
  let samples' := push_sample (sampleSize m) (samples m) fps' in
  let avg' := div (sum samples') (of_nat (length samples')) in
  mkFPSMonitor (sampleSize m) samples' currentTime fps' avg' frameTime'
    (highQualityThreshold m) (lowQualityThreshold m) (onQualityChange m)
    (currentQuality m) (qualityChangeDelay m)
    (framesSinceQualityChange m + 1).

(** [update()] *)
Definition update (currentTime : Q) (m : FPSMonitor)
  : FPSMonitor * option string :=
  checkQuality (measure currentTime m).

(** Frames given by their durations: each [update] happens [d]
    milliseconds after the previous one.  The result carries the
    callback arguments in call order. *)
Fixpoint feed (ds : list Q) (m : FPSMonitor) : FPSMonitor * list string :=
  match ds with
  | [] => (m, [])
  | d :: ds' =>
      let '(m1, ev) := update (lastTime m + d)%Q m in
      let '(m2, evs) := feed ds' m1 in
      (m2, match ev with Some q => q :: evs | None => evs end)
  end.

(** ** Collaborators of the QualityManager *)

Record BloomPass : Type := mkBloomPass {
  pass_enabled : bool;
  pass_strength : Q;
  pass_radius : Q;
  pass_threshold : Q
}.

Record PostProcessing : Type := mkPostProcessing {
  bloomPass : option BloomPass;
  bloomStrength : Q;
  bloomRadius : Q;
  bloomThreshold : Q
}.

Definition setBloom (strength radius threshold : Q) (p : PostProcessing)
  : PostProcessing :=
  {| bloomPass :=
       match bloomPass p with
       | Some bp => Some (mkBloomPass (pass_enabled bp) strength radius threshold)
       | None => None
       end;
     bloomStrength := strength;
     bloomRadius := radius;
     bloomThreshold := threshold |}.

Definition setBloomEnabled (enabled : bool) (p : PostProcessing)
  : PostProcessing :=
  {| bloomPass :=
       match bloomPass p with
       | Some bp => Some (mkBloomPass enabled (pass_strength bp)
                            (pass_radius bp) (pass_threshold bp))
       | None => None
       end;
     bloomStrength := bloomStrength p;
     bloomRadius := bloomRadius p;
     bloomThreshold := bloomThreshold p |}.

(** [Engine.setQualityScale]: the stored scale (the renderer resize is
    outside the model). *)
Definition setQualityScale (scale : Q) : Q := Qmax 0.5 (Qmin 1.0 scale).

Record Preset : Type := mkPreset {
  resolutionScale : Q;
  bloomEnabled : bool;
  preset_bloomStrength : Q;
  sphereSegments : Z
}.

(** [this.presets]; a key other than the three levels has no preset
    (properties inherited from [Object.prototype] are not modelled). *)
Definition presets : gmap string Preset :=
  <["high" := mkPreset 1.0 true 0.5 128]>
    (<["medium" := mkPreset 0.75 true 0.3 64]>
       (<["low" := mkPreset 0.5 false 0 32]> ∅)).

(** ** QualityManager *)

Record QualityManager : Type := mkQualityManager {
  engine_qualityScale : Q;
  postProcessing : option PostProcessing;
  fpsMonitor : FPSMonitor;
  currentPreset : string;
  autoQuality : bool;
  (** levels reported by [console.log], oldest first *)
  console : list string
}.

Definition new_PostProcessing : PostProcessing :=
  {| bloomPass := Some (mkBloomPass true 0.5 0.4 0.85);
     bloomStrength := 0.5; bloomRadius := 0.4; bloomThreshold := 0.85 |}.

Definition new_QualityManager (post : option PostProcessing) (t0 : Q)
  : QualityManager :=
  let m := new_FPSMonitor default_sampleSize t0 in
  {| engine_qualityScale := 1.0;
     postProcessing := post;
     fpsMonitor :=
       mkFPSMonitor (sampleSize m) (samples m) (lastTime m) (fps m)
         (avgFps m) (frameTime m) (highQualityThreshold m)
         (lowQualityThreshold m) true (currentQuality m)
         (qualityChangeDelay m) (framesSinceQualityChange m);
     currentPreset := "high";
     autoQuality := true;
     console := [] |}.

Definition applyQuality (quality : string) (qm : QualityManager)
  : QualityManager :=
  match presets !! quality with
  | None => qm
  | Some preset =>
      {| engine_qualityScale := setQualityScale (resolutionScale preset);
         postProcessing :=
           match postProcessing qm with
           | Some p =>
               let p1 := setBloomEnabled (bloomEnabled preset) p in
               Some (if bloomEnabled preset
                     then setBloom (preset_bloomStrength preset) 0.4 0.85 p1
                     else p1)
           | None => None
           end;
         fpsMonitor := fpsMonitor qm;
         currentPreset := quality;
         autoQuality := autoQuality qm;
         console := console qm ++ [quality] |}
  end.

Definition with_autoQuality (b : bool) (qm : QualityManager)
  : QualityManager :=
  {| engine_qualityScale := engine_qualityScale qm;
     postProcessing := postProcessing qm;
     fpsMonitor := fpsMonitor qm;
     currentPreset := currentPreset qm;
     autoQuality := b;
     console := console qm |}.

Definition setQuality (quality : string) (qm : QualityManager)
  : QualityManager :=
  applyQuality quality (with_autoQuality false qm).

Definition enableAutoQuality (qm : QualityManager) : QualityManager :=
  with_autoQuality true qm.

Definition with_fpsMonitor (m : FPSMonitor) (qm : QualityManager)
  : QualityManager :=
  {| engine_qualityScale := engine_qualityScale qm;
     postProcessing := postProcessing qm;
     fpsMonitor := m;
     currentPreset := currentPreset qm;
     autoQuality := autoQuality qm;
     console := console qm |}.

(** [QualityManager.update()]: runs the monitor; the monitor's callback
    is [applyQuality]. *)
Definition qm_update (currentTime : Q) (qm : QualityManager)
  : QualityManager :=
  let '(m', ev) := update currentTime (fpsMonitor qm) in
  let qm' := with_fpsMonitor m' qm in
  match ev with
  | Some q => applyQuality q qm'
  | None => qm'
  end.

(** Frames given by their durations, as for [feed]. *)
Fixpoint qm_feed (ds : list Q) (qm : QualityManager) : QualityManager :=
  match ds with
  | [] => qm
  | d :: ds' => qm_feed ds' (qm_update (lastTime (fpsMonitor qm) + d)%Q qm)
  end.

(** ** Notions used to state the properties *)

(** The thresholds and the dwell period that the constructor sets (no
    method changes them). *)
Definition constructed (m : FPSMonitor) : Prop :=
  highQualityThreshold m = Fin 55 /\
  lowQualityThreshold m = Fin 30 /\
  qualityChangeDelay m = 60.

(** The level of an average frame rate: [>= 55] high, [< 30] low,
    otherwise medium. *)
Definition level_of (a : num) : string :=
  if geb a (Fin 55) then "high"
  else if ltb a (Fin 30) then "low"
  else "medium".

(** The frame rate of one frame of [d] milliseconds. *)
Definition fps_of (d : Q) : num := div (Fin 1000) (Fin d).

(** The arithmetic mean of a list of numbers. *)
Definition mean (l : list num) : num := div (sum l) (of_nat (length l)).

(** The sum of a list of rationals. *)
Definition Qsum (l : list Q) : Q := fold_right Qplus 0%Q l.

(** The average as the specification words it: the arithmetic mean of
    the frame durations of the window, converted to frames per
    second. *)
Definition spec_avgFps (durations : list Q) : num :=
  div (Fin 1000) (mean (map Fin durations)).

(** [|a - c| <= eps] for a finite [a]. *)
Definition within (a : num) (c eps : Q) : Prop :=
  match a with
  | Fin q => (Qabs (q - c) <= eps)%Q
  | _ => False
  end.

End Quality.

(* ===================================================================== *)
(** * Vectors (three.js [Vector2], [Vector3]) *)
(* ===================================================================== *)

Module Geometry.
Local Open Scope R_scope.

Record Vec2 : Type := mkVec2 { v2x : R; v2y : R }.
Record Vec3 : Type := mkVec3 { v3x : R; v3y : R; v3z : R }.

Definition v2_multiplyScalar (s : R) (v : Vec2) : Vec2 :=
  mkVec2 (v2x v * s) (v2y v * s).

Definition v3_add (a b : Vec3) : Vec3 :=
  mkVec3 (v3x a + v3x b) (v3y a + v3y b) (v3z a + v3z b).

Definition v3_multiplyScalar (s : R) (v : Vec3) : Vec3 :=
  mkVec3 (v3x v * s) (v3y v * s) (v3z v * s).

Definition v3_length (v : Vec3) : R :=
  sqrt (v3x v * v3x v + v3y v * v3y v + v3z v * v3z v).

(** [normalize()] is [divideScalar(length() || 1)], and
    [divideScalar(s)] is [multiplyScalar(1 / s)]. *)
Definition v3_normalize (v : Vec3) : Vec3 :=
  let l := v3_length v in
  v3_multiplyScalar (1 / (if Req_dec_T l 0 then 1 else l)) v.

(** [THREE.MathUtils.degToRad] *)
Definition DEG2RAD : R := PI / 180.
Definition degToRad (degrees : R) : R := degrees * DEG2RAD.

End Geometry.

(* ===================================================================== *)
(** * PerturbationEffect *)
(* ===================================================================== *)

Module Perturbation.
Import Geometry.
Local Open Scope R_scope.

(** [uniforms.uMousePosition.value] is the very object stored in
    [mousePosition], so the two are one field here. *)
Record PerturbationEffect : Type := mkPerturbationEffect {
  enabled : bool;
  strength : R;
  mousePosition : Vec2;
  mouseSpeed : R;
  uTime : R;
  uPerturbStrength : R;
  uMouseSpeed : R
}.

Definition new_PerturbationEffect : PerturbationEffect :=
  {| enabled := false;
     strength := 0.02;
     mousePosition := mkVec2 0.5 0.5;
     mouseSpeed := 0;
     uTime := 0;
     uPerturbStrength := 0.02;
     uMouseSpeed := 0 |}.

Definition setMouseInfo (position : Vec2) (speed : R)
  (e : PerturbationEffect) : PerturbationEffect :=
  mkPerturbationEffect (enabled e) (strength e) position speed
    (uTime e) (uPerturbStrength e) speed.

Definition setStrength (s : R) (e : PerturbationEffect)
  : PerturbationEffect :=
  mkPerturbationEffect (enabled e) s (mousePosition e) (mouseSpeed e)
    (uTime e) s (uMouseSpeed e).

Definition setEnabled (en : bool) (e : PerturbationEffect)
  : PerturbationEffect :=
  mkPerturbationEffect en (strength e) (mousePosition e) (mouseSpeed e)
    (uTime e) (if en then strength e else 0) (uMouseSpeed e).

Definition update (elapsedTime : R) (e : PerturbationEffect)
  : PerturbationEffect :=
  mkPerturbationEffect (enabled e) (strength e) (mousePosition e)
    (mouseSpeed e) elapsedTime (uPerturbStrength e) (uMouseSpeed e).

(** The calls a client can make on an effect. *)
Inductive call : Type :=
| CSetMouseInfo (position : Vec2) (speed : R)
| CSetStrength (s : R)
| CSetEnabled (en : bool)
| CUpdate (elapsedTime : R).

Definition perform (c : call) (e : PerturbationEffect)
  : PerturbationEffect :=
  match c with
  | CSetMouseInfo p s => setMouseInfo p s e
  | CSetStrength s => setStrength s e
  | CSetEnabled en => setEnabled en e
  | CUpdate t => update t e
  end.

(** Effects obtained from [new PerturbationEffect()] by method calls. *)
Inductive reachable : PerturbationEffect -> Prop :=
| reach_new : reachable new_PerturbationEffect
| reach_call c e : reachable e -> reachable (perform c e).

End Perturbation.

(* ===================================================================== *)
(** * The scene, GSAP, the camera transition engine and the interaction
      state machine *)
(* ===================================================================== *)

Module Interaction.
Import Geometry.
Local Open Scope R_scope.

(** ** Celestial bodies *)

(** A reference to a body object; [===] on bodies is equality of
    references. *)
Abbreviation ref := nat (only parsing).

(** The perturbation state of a [Planet] whose mesh has been built
    ([SolarSystem.create] builds every mesh before it registers the
    body). *)
Record PlanetFx : Type := mkPlanetFx {
  perturbStrength : R;
  fx_uPerturbStrength : R
}.

(** [planet] is [None] for the bodies that have no [setPerturbation]
    method (plain [CelestialBody], [Sun], [Earth]). *)
Record Body : Type := mkBody {
  name : string;
  radius : R;
  worldPosition : Vec3;
  planet : option PlanetFx
}.

(** [Planet.setPerturbation(enabled, strength)] *)
Definition setPerturbation (enabled : bool) (strength : R) (fx : PlanetFx)
  : PlanetFx :=
  let s := if enabled then strength else 0 in
  mkPlanetFx s s.

Definition default_perturbation_strength : R := 0.1.

Definition body_setPerturbation (enabled : bool) (strength : R) (b : Body)
  : Body :=
  mkBody (name b) (radius b) (worldPosition b)
    (option_map (setPerturbation enabled strength) (planet b)).

(** ** GSAP tweens *)

Inductive TweenTarget : Type :=
| CameraPosition
| ControlsTarget
| OtherTarget (n : nat).

Definition target_eqb (a b : TweenTarget) : bool :=
  match a, b with
  | CameraPosition, CameraPosition | ControlsTarget, ControlsTarget => true
  | OtherTarget n, OtherTarget m => Nat.eqb n m
  | _, _ => false
  end.

(** The [onComplete] closures of the two transitions. *)
Inductive Completion : Type :=
| FocusComplete (body : ref)
| OverviewComplete.

(** A running tween.  The values between start and end are not
    modelled: the animated vector is written when the tween completes.
    Durations are in milliseconds (GSAP's [1.2] is [1200]). *)
Record Tween : Type := mkTween {
  tw_id : nat;
  tw_target : TweenTarget;
  tw_to : Vec3;
  tw_end : Z;
  tw_onComplete : option Completion
}.

(** GSAP's registry of running tweens, oldest first. *)
Record Gsap : Type := mkGsap {
  tweens : list Tween;
  next_id : nat
}.

(** ** The camera transition engine *)

Record PerspectiveCamera : Type := mkPerspectiveCamera {
  position : Vec3;
  fov : R
}.

Record OrbitControls : Type := mkOrbitControls {
  ctl_enabled : bool;
  enableDamping : bool;
  dampingFactor : R;
  enablePan : bool;
  minDistance : R;
  maxDistance : R;
  autoRotate : bool;
  autoRotateSpeed : R;
  target : Vec3
}.

Record CameraController : Type := mkCameraController {
  camera : PerspectiveCamera;
  controls : OrbitControls;
  isTransitioning : bool;
  focusedBody : option ref;
  defaultPosition : Vec3;
  defaultTarget : Vec3;
  focusBaseDistance : R;
  focusPosition : Vec3;
  focusTarget : Vec3;
  mouseInfluence : Vec2;
  targetMouseInfluence : Vec2;
  mouseViewEnabled : bool;
  minDistanceMultiplier : R;
  maxDistanceMultiplier : R;
  (** the tween objects held in [activeTweens] *)
  activeTweens : list nat
}.

(** [new CameraController(camera, domElement)] *)
Definition new_CameraController (cam : PerspectiveCamera)
  : CameraController :=
  {| camera := mkPerspectiveCamera (mkVec3 0 80 200) (fov cam);
     controls := mkOrbitControls true true 0.05 false 5 500 false 0.5
                   (mkVec3 0 0 0);
     isTransitioning := false;
     focusedBody := None;
     defaultPosition := mkVec3 0 80 200;
     defaultTarget := mkVec3 0 0 0;
     focusBaseDistance := 0;
     focusPosition := mkVec3 0 0 0;
     focusTarget := mkVec3 0 0 0;
     mouseInfluence := mkVec2 0 0;
     targetMouseInfluence := mkVec2 0 0;
     mouseViewEnabled := false;
     minDistanceMultiplier := 0.7;
     maxDistanceMultiplier := 1.5;
     activeTweens := [] |}.

(** [calculateFocusDistance(planetRadius, targetScreenRatio)] *)
Definition calculateFocusDistance (c : CameraController)
  (planetRadius targetScreenRatio : R) : R :=
  let fovRadians := degToRad (fov (camera c)) in
  let desiredAngularSize := fovRadians * targetScreenRatio in
  let distance := planetRadius / tan (desiredAngularSize / 2) in
  distance * 1.3.

Definition default_targetScreenRatio : R := 0.6.

(** ** The interaction state machine *)

Inductive InteractionState : Type := GLOBAL | TRANSITION | FOCUS.

Definition state_eqb (a b : InteractionState) : bool :=
  match a, b with
  | GLOBAL, GLOBAL | TRANSITION, TRANSITION | FOCUS, FOCUS => true
  | _, _ => false
  end.

Record InteractionController : Type := mkInteractionController {
  state : InteractionState;
  selectedBody : option ref;
  hoveredBody : option ref;
  mouse : Vec2;
  mousePosition : Vec2;
  mouseVelocity : Vec2;
  prevMousePosition : Vec2;
  mouseNormalized : Vec2;
  lastHitUV : Vec2;
  mouseSpeed : R;
  (** the three callbacks: [null] or installed *)
  onStateChange : bool;
  onBodySelect : bool;
  onBodyHover : bool
}.

Definition new_InteractionController : InteractionController :=
  {| state := GLOBAL;
     selectedBody := None;
     hoveredBody := None;
     mouse := mkVec2 0 0;
     mousePosition := mkVec2 0 0;
     mouseVelocity := mkVec2 0 0;
     prevMousePosition := mkVec2 0 0;
     mouseNormalized := mkVec2 0 0;
     lastHitUV := mkVec2 0.5 0.5;
     mouseSpeed := 0;
     onStateChange := false;
     onBodySelect := false;
     onBodyHover := false |}.



(** What the host is told through the callbacks. *)
Inductive Notification : Type :=
| StateChange (s : InteractionState) (body : option ref)
| BodySelect (body : ref)
| BodyHover (body : option ref).

(** The closures handed to [setTimeout]. *)
Inductive Timer : Type :=
| FocusDone (body : ref)
| ReturnDone.

(** ** The whole state *)

Record World : Type := mkWorld {
  now : Z;
  bodies : gmap ref Body;
  gsap : Gsap;
  cam : CameraController;
  ic : InteractionController;
  (** pending [setTimeout] callbacks with their due times, in the order
      of registration *)
  timers : list (Z * Timer);
  (** callback invocations, oldest first *)
  notifications : list Notification
}.

Definition set_now (t : Z) (w : World) : World :=
  mkWorld t (bodies w) (gsap w) (cam w) (ic w) (timers w) (notifications w).
Definition set_bodies (h : gmap ref Body) (w : World) : World :=
  mkWorld (now w) h (gsap w) (cam w) (ic w) (timers w) (notifications w).
Definition set_gsap (g : Gsap) (w : World) : World :=
  mkWorld (now w) (bodies w) g (cam w) (ic w) (timers w) (notifications w).
Definition set_cam (c : CameraController) (w : World) : World :=
  mkWorld (now w) (bodies w) (gsap w) c (ic w) (timers w) (notifications w).
Definition set_ic (i : InteractionController) (w : World) : World :=
  mkWorld (now w) (bodies w) (gsap w) (cam w) i (timers w) (notifications w).
Definition set_timers (l : list (Z * Timer)) (w : World) : World :=
  mkWorld (now w) (bodies w) (gsap w) (cam w) (ic w) l (notifications w).
Definition set_notifications (l : list Notification) (w : World) : World :=
  mkWorld (now w) (bodies w) (gsap w) (cam w) (ic w) (timers w) l.

(** ** Methods that may throw *)

Inductive exn : Type :=
| TypeError
(** a reference that names no object of the store; JS has none *)
| Dangling.

Inductive outcome (A : Type) : Type :=
| Returned (a : A)
| Threw (e : exn).
Arguments Returned {A} a.
Arguments Threw {A} e.

Definition M (A : Type) : Type := World -> World * outcome A.

Definition ret {A} (a : A) : M A := fun w => (w, Returned a).
Definition bind {A B} (c : M A) (k : A -> M B) : M B :=
  fun w =>
    match c w with
    | (w', Returned a) => k a w'
    | (w', Threw e) => (w', Threw e)
    end.
Definition throw {A} (e : exn) : M A := fun w => (w, Threw e).
Definition modify (f : World -> World) : M unit :=
  fun w => (f w, Returned tt).
Definition when (b : bool) (c : M unit) : M unit :=
  if b then c else ret tt.

Declare Scope js_scope.
Delimit Scope js_scope with js.
Notation "x <- c1 ;; c2" := (bind c1 (fun x => c2))
  (at level 100, c1 at next level, right associativity) : js_scope.
Notation "c1 ;; c2" := (bind c1 (fun _ => c2))
  (at level 100, right associativity) : js_scope.
Local Open Scope js_scope.

Definition gets {A} (f : World -> A) : M A := fun w => (w, Returned (f w)).

(** Reading a property of [body]: a [TypeError] when [body] is [null]
    or [undefined]. *)
Definition deref (body : option ref) : M (ref * Body) :=
  match body with
  | None => throw TypeError
  | Some r =>
      fun w =>
        match bodies w !! r with
        | Some b => ret (r, b) w
        | None => throw Dangling w
        end
  end.

Definition upd_cam (f : CameraController -> CameraController) (w : World)
  : World := set_cam (f (cam w)) w.
Definition upd_ic (f : InteractionController -> InteractionController)
  (w : World) : World := set_ic (f (ic w)) w.

(** ** GSAP *)

(** [tween.kill()] *)
Definition tween_kill (id : nat) (g : Gsap) : Gsap :=
  mkGsap (List.filter (fun t => negb (Nat.eqb (tw_id t) id)) (tweens g))
    (next_id g).

(** [gsap.killTweensOf(target)] *)
Definition killTweensOf (tg : TweenTarget) (g : Gsap) : Gsap :=
  mkGsap (List.filter (fun t => negb (target_eqb (tw_target t) tg)) (tweens g))
    (next_id g).

(** [gsap.to(target, {x, y, z, duration, onComplete})]: registers a
    tween and returns it. *)
Definition gsap_to (tg : TweenTarget) (dest : Vec3) (duration : Z)
  (onComplete : option Completion) : M nat :=
  fun w =>
    let g := gsap w in
    let t := mkTween (next_id g) tg dest (now w + duration)%Z onComplete in
    (set_gsap (mkGsap (tweens g ++ [t]) (S (next_id g))) w,
     Returned (next_id g)).

(** ** CameraController methods *)

Definition set_activeTweens (l : list nat) (c : CameraController)
  : CameraController :=
  mkCameraController (camera c) (controls c) (isTransitioning c)
    (focusedBody c) (defaultPosition c) (defaultTarget c)
    (focusBaseDistance c) (focusPosition c) (focusTarget c)
    (mouseInfluence c) (targetMouseInfluence c) (mouseViewEnabled c)
    (minDistanceMultiplier c) (maxDistanceMultiplier c) l.

Definition killAllTweens : M unit :=
  modify (fun w =>
    let g1 := fold_left (fun g id => tween_kill id g)
                (activeTweens (cam w)) (gsap w) in
    let g2 := killTweensOf CameraPosition g1 in
    let g3 := killTweensOf ControlsTarget g2 in
    set_gsap g3 (upd_cam (set_activeTweens []) w)).

(** [isTransitioning = true; focusedBody = body;
     mouseViewEnabled = false] *)
Definition begin_transition (body : option ref) (c : CameraController)
  : CameraController :=
  mkCameraController (camera c) (controls c) true body
    (defaultPosition c) (defaultTarget c)
    (focusBaseDistance c) (focusPosition c) (focusTarget c)
    (mouseInfluence c) (targetMouseInfluence c) false
    (minDistanceMultiplier c) (maxDistanceMultiplier c) (activeTweens c).

Definition set_ctl_enabled (b : bool) (o : OrbitControls) : OrbitControls :=
  mkOrbitControls b (enableDamping o) (dampingFactor o) (enablePan o)
    (minDistance o) (maxDistance o) (autoRotate o) (autoRotateSpeed o)
    (target o).

Definition set_controls (o : OrbitControls) (c : CameraController)
  : CameraController :=
  mkCameraController (camera c) o (isTransitioning c)
    (focusedBody c) (defaultPosition c) (defaultTarget c)
    (focusBaseDistance c) (focusPosition c) (focusTarget c)
    (mouseInfluence c) (targetMouseInfluence c) (mouseViewEnabled c)
    (minDistanceMultiplier c) (maxDistanceMultiplier c) (activeTweens c).

(** [focusBaseDistance = d; focusPosition.copy(p); focusTarget.copy(t);
     controls.enabled = false] *)
Definition store_focus (d : R) (p t : Vec3) (c : CameraController)
  : CameraController :=
  mkCameraController (camera c) (set_ctl_enabled false (controls c))
    (isTransitioning c) (focusedBody c) (defaultPosition c)
    (defaultTarget c) d p t
    (mouseInfluence c) (targetMouseInfluence c) (mouseViewEnabled c)
    (minDistanceMultiplier c) (maxDistanceMultiplier c) (activeTweens c).

(** [activeTweens.push(tween)] *)
Definition push_tween (id : nat) (c : CameraController) : CameraController :=
  set_activeTweens (activeTweens c ++ [id]) c.

(** The default of the [duration] parameter of both transitions. *)
Definition default_duration : Z := 1200.

(** [CameraController.focusOnBody(body, duration)] *)
Definition cam_focusOnBody (body : option ref) (duration : Z) : M unit :=
  killAllTweens ;;
  modify (upd_cam (begin_transition body)) ;;
  rb <- deref body ;;
  c <- gets cam ;;
  let targetPosition := worldPosition (snd rb) in
  let dist :=
    calculateFocusDistance c (radius (snd rb)) default_targetScreenRatio in
  let direction := v3_normalize (mkVec3 0.5 0.3 1) in
  let cameraTarget :=
    v3_add targetPosition (v3_multiplyScalar dist direction) in
  modify (upd_cam (store_focus dist cameraTarget targetPosition)) ;;
  posTween <- gsap_to CameraPosition cameraTarget duration None ;;
  modify (upd_cam (push_tween posTween)) ;;
  targetTween <- gsap_to ControlsTarget targetPosition duration
                   (Some (FocusComplete (fst rb))) ;;
  modify (upd_cam (push_tween targetTween)).

(** [CameraController.returnToOverview(duration)] *)
Definition cam_returnToOverview (duration : Z) : M unit :=
  killAllTweens ;;
  modify (upd_cam (begin_transition None)) ;;
  modify (upd_cam (fun c =>
    set_controls (set_ctl_enabled false (controls c)) c)) ;;
  c <- gets cam ;;
  posTween <- gsap_to CameraPosition (defaultPosition c) duration None ;;
  modify (upd_cam (push_tween posTween)) ;;
  targetTween <- gsap_to ControlsTarget (defaultTarget c) duration
                   (Some OverviewComplete) ;;
  modify (upd_cam (push_tween targetTween)).

(** The two [onComplete] closures. *)
Definition run_completion (k : Completion) (w : World) : World :=
  let c := cam w in
  let o := controls c in
  match k with
  | FocusComplete body =>
      match bodies w !! body with
      | Some b =>
          let o' := mkOrbitControls true (enableDamping o) (dampingFactor o)
                      (enablePan o) (radius b * 1.5) (radius b * 15)
                      (autoRotate o) (autoRotateSpeed o) (target o) in
          set_cam (mkCameraController (camera c) o' false (focusedBody c)
                     (defaultPosition c) (defaultTarget c)
                     (focusBaseDistance c) (focusPosition c) (focusTarget c)
                     (mouseInfluence c) (targetMouseInfluence c) true
                     (minDistanceMultiplier c) (maxDistanceMultiplier c)
                     (activeTweens c)) w
      | None => w
      end
  | OverviewComplete =>
      let o' := mkOrbitControls true (enableDamping o) (dampingFactor o)
                  (enablePan o) 5 500
                  (autoRotate o) (autoRotateSpeed o) (target o) in
      set_cam (mkCameraController (camera c) o' false (focusedBody c)
                 (defaultPosition c) (defaultTarget c)
                 (focusBaseDistance c) (focusPosition c) (focusTarget c)
                 (mouseInfluence c) (targetMouseInfluence c)
                 (mouseViewEnabled c)
                 (minDistanceMultiplier c) (maxDistanceMultiplier c)
                 (activeTweens c)) w
  end.

(** A tween reaches its end: the animated vector takes its final value
    and [onComplete] runs.  (GSAP rounds each number it writes to six
    decimals; the model, over the reals like all of the geometry, writes
    the end value itself, and no property below depends on the digits of
    a written coordinate.) *)
Definition write_target (tg : TweenTarget) (v : Vec3) (c : CameraController)
  : CameraController :=
  match tg with
  | CameraPosition =>
      mkCameraController (mkPerspectiveCamera v (fov (camera c)))
        (controls c) (isTransitioning c)
        (focusedBody c) (defaultPosition c) (defaultTarget c)
        (focusBaseDistance c) (focusPosition c) (focusTarget c)
        (mouseInfluence c) (targetMouseInfluence c) (mouseViewEnabled c)
        (minDistanceMultiplier c) (maxDistanceMultiplier c) (activeTweens c)
  | ControlsTarget =>
      let o := controls c in
      set_controls
        (mkOrbitControls (ctl_enabled o) (enableDamping o) (dampingFactor o)
           (enablePan o) (minDistance o) (maxDistance o) (autoRotate o)
           (autoRotateSpeed o) v) c
  | OtherTarget _ => c
  end.

Definition complete_tween (t : Tween) (w : World) : World :=
  let w1 := upd_cam (write_target (tw_target t) (tw_to t)) w in
  match tw_onComplete t with
  | Some k => run_completion k w1
  | None => w1
  end.

(** ** InteractionController methods *)

Definition set_state_selected (s : InteractionState) (sel : option ref)
  (i : InteractionController) : InteractionController :=
  mkInteractionController s sel (hoveredBody i)
    (mouse i) (mousePosition i) (mouseVelocity i)
    (prevMousePosition i) (mouseNormalized i) (lastHitUV i) (mouseSpeed i)
    (onStateChange i) (onBodySelect i) (onBodyHover i).

Definition set_state (s : InteractionState) (i : InteractionController)
  : InteractionController := set_state_selected s (selectedBody i) i.

Definition log (n : Notification) (w : World) : World :=
  set_notifications (notifications w ++ [n]) w.

(** [if (this.onStateChange) this.onStateChange(s, body)] *)
Definition notify_StateChange (s : InteractionState) (body : option ref)
  (w : World) : World :=
  if onStateChange (ic w) then log (StateChange s body) w else w.

(** [if (this.onBodySelect) this.onBodySelect(body)] *)
Definition notify_BodySelect (body : ref) (w : World) : World :=
  if onBodySelect (ic w) then log (BodySelect body) w else w.

(** [setTimeout(cb, delay)] *)
Definition setTimeout (cb : Timer) (delay : Z) : M unit :=
  modify (fun w => set_timers (timers w ++ [((now w + delay)%Z, cb)]) w).

(** [body.setPerturbation(enabled, strength)] on the object [r] *)
Definition call_setPerturbation (r : ref) (enabled : bool) (strength : R)
  : M unit :=
  modify (fun w =>
    set_bodies (alter (body_setPerturbation enabled strength) r (bodies w)) w).

Definition has_setPerturbation (b : Body) : bool :=
  match planet b with Some _ => true | None => false end.

(** [InteractionController.focusOnBody(body)] *)
Definition focusOnBody (body : option ref) : M unit :=
  modify (upd_ic (set_state_selected TRANSITION body)) ;;
  rb <- deref body ;;
  when (has_setPerturbation (snd rb))
    (call_setPerturbation (fst rb) true 0.15) ;;
  modify (notify_StateChange TRANSITION body) ;;
  cam_focusOnBody body 1200 ;;
  setTimeout (FocusDone (fst rb)) 1200.

(** [InteractionController.returnToGlobal()] *)
Definition returnToGlobal : M unit :=
  sel <- gets (fun w => selectedBody (ic w)) ;;
  match sel with
  | Some r =>
      rb <- deref (Some r) ;;
      when (has_setPerturbation (snd rb))
        (call_setPerturbation r false default_perturbation_strength)
  | None => ret tt
  end ;;
  modify (upd_ic (set_state TRANSITION)) ;;
  modify (notify_StateChange TRANSITION None) ;;
  cam_returnToOverview 1200 ;;
  setTimeout ReturnDone 1200.

(** The callbacks of the two [setTimeout] calls. *)
Definition fire_timer (cb : Timer) (w : World) : World :=
  match cb with
  | FocusDone body =>
      if decide (selectedBody (ic w) = Some body) then
        notify_BodySelect body
          (notify_StateChange FOCUS (Some body)
             (upd_ic (set_state FOCUS) w))
      else w
  | ReturnDone =>
      notify_StateChange GLOBAL None
        (upd_ic (set_state_selected GLOBAL None) w)
  end.

(** The [contextmenu] listener. *)
Definition onContextMenu : M unit :=
  s <- gets (fun w => state (ic w)) ;;
  if state_eqb s FOCUS then returnToGlobal else ret tt.

(** [onKeyDown(event)] with [event.key = key] *)
Definition onKeyDown (key : string) : M unit :=
  if String.eqb key "Escape" then
    s <- gets (fun w => state (ic w)) ;;
    if state_eqb s FOCUS || state_eqb s TRANSITION
    then returnToGlobal else ret tt
  else ret tt.

(** A ray-cast hit: [object.userData.celestialBody] of the mesh. *)
Record Hit : Type := mkHit { celestialBody : option ref }.

(** [onClick(event)]; [intersects] is what
    [raycaster.intersectObjects(clickables)] returns. *)
Definition onClick (intersects : list Hit) : M unit :=
  s <- gets (fun w => state (ic w)) ;;
  if state_eqb s GLOBAL then
    match intersects with
    | hit :: _ =>
        match celestialBody hit with
        | Some r => focusOnBody (Some r)
        | None => ret tt
        end
    | [] => ret tt
    end
  else ret tt.

(** ** The passage of time *)

Definition tween_due (t : Z) (tw : Tween) : bool := (tw_end tw <=? t)%Z.
Definition timer_due (t : Z) (tm : Z * Timer) : bool := (fst tm <=? t)%Z.

(** Tweens completing, and timers firing, in the order given. *)
Definition complete_all (l : list Tween) (w : World) : World :=
  fold_left (fun w' tw => complete_tween tw w') l w.

Definition fire_all (l : list (Z * Timer)) (w : World) : World :=
  fold_left (fun w' tm => fire_timer (snd tm) w') l w.

(** The clock moves on by [dt] milliseconds with no input event: the
    tweens that have reached their end complete and leave the registry,
    then the timers that are due fire, each group in the order of
    registration. *)
Definition advance (dt : Z) (w : World) : World :=
  let t := (now w + dt)%Z in
  let w0 := set_now t w in
  let g := gsap w0 in
  let w1 := set_gsap
              (mkGsap (List.filter (fun tw => negb (tween_due t tw)) (tweens g))
                 (next_id g)) w0 in
  let w2 := complete_all (List.filter (tween_due t) (tweens g)) w1 in
  let w3 := set_timers
              (List.filter (fun tm => negb (timer_due t tm)) (timers w2)) w2 in
  fire_all (List.filter (timer_due t) (timers w2)) w3.

(** [new CameraController] and [new InteractionController] over a scene
    with the bodies [h]. *)
Definition new_World (h : gmap ref Body) (camera_fov : R) : World :=
  {| now := 0;
     bodies := h;
     gsap := mkGsap [] 0;
     cam := new_CameraController
              (mkPerspectiveCamera (mkVec3 0 50 150) camera_fov);
     ic := new_InteractionController;
     timers := [];
     notifications := [] |}.

(** The host installs its callbacks. *)
Definition install_callbacks (sc bs bh : bool) (w : World) : World :=
  upd_ic (fun i =>
    mkInteractionController (state i) (selectedBody i) (hoveredBody i)
      (mouse i) (mousePosition i) (mouseVelocity i)
      (prevMousePosition i) (mouseNormalized i) (lastHitUV i) (mouseSpeed i)
      sc bs bh) w.

(** ** Runs *)

(** What can happen to the controller: the three input events, direct
    calls of its two transitions, and time passing. *)
Inductive Event : Type :=
| Click (intersects : list Hit)
| ContextMenu
| KeyDown (key : string)
| CallFocusOnBody (body : option ref)
| CallReturnToGlobal
| Elapse (dt : Z).

Definition handle (e : Event) (w : World) : World :=
  match e with
  | Click intersects => fst (onClick intersects w)
  | ContextMenu => fst (onContextMenu w)
  | KeyDown key => fst (onKeyDown key w)
  | CallFocusOnBody body => fst (focusOnBody body w)
  | CallReturnToGlobal => fst (returnToGlobal w)
  | Elapse dt => advance dt w
  end.

Definition run_events (es : list Event) (w : World) : World :=
  fold_left (fun w' e => handle e w') es w.

(** Time does not run backwards. *)
Definition forward (e : Event) : Prop :=
  match e with Elapse dt => (0 <= dt)%Z | _ => True end.

(** ** Notions used to state the properties *)

(** The pending timers are listed in the order in which they fall due,
    none later than 1.2 s from now: firing the due ones in list order, as
    [advance] does, is firing them in the order of their due times. *)
Definition due_le (a b : Z * Timer) : Prop := (fst a <= fst b)%Z.

Definition timers_in_order (w : World) : Prop :=
  StronglySorted due_le (timers w) /\
  Forall (fun tm => (fst tm <= now w + 1200)%Z) (timers w).

(** The tweens that animate the camera position or the controls
    target. *)
Definition on_camera (t : Tween) : bool :=
  target_eqb (tw_target t) CameraPosition
  || target_eqb (tw_target t) ControlsTarget.

Definition camera_tweens (w : World) : list Tween :=
  List.filter on_camera (tweens (gsap w)).

(** Time passing in several steps. *)
Definition advances (dts : list Z) (w : World) : World :=
  fold_left (fun w' dt => advance dt w') dts w.

(** What a step leaves alone: everything but the camera controller,
    or everything but the interaction controller and the
    notifications. *)
Definition same_but_cam (w w' : World) : Prop :=
  now w' = now w /\ bodies w' = bodies w /\ gsap w' = gsap w /\
  ic w' = ic w /\ timers w' = timers w /\
  notifications w' = notifications w.

Definition same_but_ic (w w' : World) : Prop :=
  now w' = now w /\ bodies w' = bodies w /\ gsap w' = gsap w /\
  cam w' = cam w /\ timers w' = timers w.

(** The total of several time steps. *)
Definition Zsum (l : list Z) : Z := fold_right Z.add 0%Z l.

(** The overview at rest: state [GLOBAL], nothing selected and, when the
    host listens, the state change to [GLOBAL] as the last notification. *)
Definition idle (w : World) : Prop :=
  state (ic w) = GLOBAL /\ selectedBody (ic w) = None /\
  (onStateChange (ic w) = true ->
   List.last (notifications w) (BodyHover None) = StateChange GLOBAL None).





End Interaction.

(* ===================================================================== *)
(** * Runs of the quality loop: notions *)
(* ===================================================================== *)

Module QualityRuns.
Import JsNum Quality.

(** The last [n] elements of a list. *)
Definition lastn {A : Type} (n : nat) (l : list A) : list A :=
  skipn (length l - n) l.

(** The rate of a frame that took no negative time: finite or
    [+Infinity]. *)
Definition rate_ok (x : num) : Prop :=
  match x with
  | Fin _ | PInf => True
  | NInf | NaN => False
  end.

(** A rate in the high band. *)
Definition fast (x : num) : Prop := geb x (Fin 55) = true.

(** The keys of [presets]. *)
Definition levels : list string := ["high"; "medium"; "low"].

(** The bloom pass is set as the preset [p] asks: switched as
    [bloomEnabled] says and, when switched on, with the preset's strength
    and the fixed radius and threshold. *)
Definition bloom_as (p : Preset) (pp : PostProcessing) : Prop :=
  match bloomPass pp with
  | Some bp =>
      pass_enabled bp = bloomEnabled p /\
      (bloomEnabled p = true ->
       pass_strength bp = preset_bloomStrength p /\
       pass_radius bp = 0.4%Q /\ pass_threshold bp = 0.85%Q)
  | None => True
  end.

(** The manager shows the preset of level [q]: it is the current preset,
    the engine renders at its resolution scale and the bloom pass is set
    as it asks. *)
Definition applied (q : string) (qm : QualityManager) : Prop :=
  currentPreset qm = q /\
  exists p, presets !! q = Some p /\
    (engine_qualityScale qm == resolutionScale p)%Q /\
    match postProcessing qm with
    | Some pp => bloom_as p pp
    | None => True
    end.

End QualityRuns.

(* ===================================================================== *)
(** * The mouse-driven view of the focus mode *)
(* ===================================================================== *)

Module MouseView.
Import Geometry Interaction.
Local Open Scope R_scope.

(** ** More of three.js *)

Definition v2_length (v : Vec2) : R := sqrt (v2x v * v2x v + v2y v * v2y v).

(** [v.lerp(w, alpha)] *)
Definition v2_lerp (v w : Vec2) (alpha : R) : Vec2 :=
  mkVec2 (v2x v + (v2x w - v2x v) * alpha) (v2y v + (v2y w - v2y v) * alpha).

Definition v3_lerp (v w : Vec3) (alpha : R) : Vec3 :=
  mkVec3 (v3x v + (v3x w - v3x v) * alpha)
         (v3y v + (v3y w - v3y v) * alpha)
         (v3z v + (v3z w - v3z v) * alpha).

(** [THREE.MathUtils.lerp] *)
Definition lerp (x y t : R) : R := (1 - t) * x + t * y.

Record Quaternion : Type := mkQuaternion { qx : R; qy : R; qz : R; qw : R }.

(** [Quaternion.setFromAxisAngle]; the axis is assumed normalised, as
    three.js does. *)
Definition setFromAxisAngle (axis : Vec3) (angle : R) : Quaternion :=
  let halfAngle := angle / 2 in
  let s := sin halfAngle in
  mkQuaternion (v3x axis * s) (v3y axis * s) (v3z axis * s) (cos halfAngle).

(** [Vector3.applyQuaternion] *)
Definition applyQuaternion (q : Quaternion) (v : Vec3) : Vec3 :=
  let tx := 2 * (qy q * v3z v - qz q * v3y v) in
  let ty := 2 * (qz q * v3x v - qx q * v3z v) in
  let tz := 2 * (qx q * v3y v - qy q * v3x v) in
  mkVec3 (v3x v + qw q * tx + qy q * tz - qz q * ty)
         (v3y v + qw q * ty + qz q * tx - qx q * tz)
         (v3z v + qw q * tz + qx q * ty - qy q * tx).

(** [Vector3.applyAxisAngle] *)
Definition applyAxisAngle (axis : Vec3) (angle : R) (v : Vec3) : Vec3 :=
  applyQuaternion (setFromAxisAngle axis angle) v.

(** ** CameraController *)

(** [updateMouseView(mouseX, mouseY)] *)
Definition updateMouseView (mouseX mouseY : R) (c : CameraController)
  : CameraController :=
  if negb (mouseViewEnabled c)
     || negb (bool_decide (is_Some (focusedBody c)))
     || isTransitioning c
  then c
  else
    mkCameraController (camera c) (controls c) (isTransitioning c)
      (focusedBody c) (defaultPosition c) (defaultTarget c)
      (focusBaseDistance c) (focusPosition c) (focusTarget c)
      (mouseInfluence c) (mkVec2 mouseX mouseY) (mouseViewEnabled c)
      (minDistanceMultiplier c) (maxDistanceMultiplier c) (activeTweens c).

(** [isFocused()] *)
Definition isFocused (c : CameraController) : bool :=
  bool_decide (is_Some (focusedBody c)).

(** The condition of the second [if] of [update()]:
    [mouseViewEnabled && focusedBody && !isTransitioning]. *)
Definition view_active (c : CameraController) : bool :=
  mouseViewEnabled c && bool_decide (is_Some (focusedBody c))
  && negb (isTransitioning c).

(** The mouse influence after its interpolation step. *)
Definition next_influence (c : CameraController) : Vec2 :=
  v2_lerp (mouseInfluence c) (targetMouseInfluence c) 0.05.

(** [distanceMultiplier] for the mouse influence [mi] *)
Definition distanceMultiplier (c : CameraController) (mi : Vec2) : R :=
  let mouseDistance := sqrt (v2x mi * v2x mi + v2y mi * v2y mi) in
  lerp (minDistanceMultiplier c) (maxDistanceMultiplier c)
    (Rmin mouseDistance 1).

(** [baseDirection] after the two rotations *)
Definition viewDirection (mi : Vec2) : Vec3 :=
  let horizontalAngle := v2x mi * 0.5 in
  let verticalAngle := v2y mi * 0.4 in
  let baseDirection := v3_normalize (mkVec3 0.5 0.3 1) in
  applyAxisAngle (mkVec3 1 0 0) verticalAngle
    (applyAxisAngle (mkVec3 0 1 0) horizontalAngle baseDirection).

(** The body of the second [if] of [update()].  [q] is
    [camera.quaternion] and [bodyPos] the world position of the focused
    body.  [multiplyScalar] scales the vector it is called on, so the
    second scaling of [cameraRight] and of [cameraUp] acts on the
    vectors that the first has scaled. *)
Definition mouse_view (q : Quaternion) (bodyPos : Vec3)
  (c : CameraController) : CameraController :=
  let mi := next_influence c in
  let targetDistance := focusBaseDistance c * distanceMultiplier c mi in
  let targetCameraPos0 :=
    v3_add bodyPos (v3_multiplyScalar targetDistance (viewDirection mi)) in
  let cameraRight0 := applyQuaternion q (mkVec3 1 0 0) in
  let cameraUp0 := applyQuaternion q (mkVec3 0 1 0) in
  let screenOffsetX := v2x mi * focusBaseDistance c * 0.4 in
  let screenOffsetY := v2y mi * focusBaseDistance c * 0.3 in
  let cameraRight1 := v3_multiplyScalar (- screenOffsetX) cameraRight0 in
  let targetCameraPos1 := v3_add targetCameraPos0 cameraRight1 in
  let cameraUp1 := v3_multiplyScalar (- screenOffsetY) cameraUp0 in
  let targetCameraPos := v3_add targetCameraPos1 cameraUp1 in
  let position' := v3_lerp (position (camera c)) targetCameraPos 0.08 in
  let cameraRight2 := v3_multiplyScalar (- screenOffsetX * 0.2) cameraRight1 in
  let cameraUp2 := v3_multiplyScalar (- screenOffsetY * 0.2) cameraUp1 in
  let targetOffset :=
    v3_add (v3_add (mkVec3 0 0 0) cameraRight2) cameraUp2 in
  let target' :=
    v3_lerp (target (controls c)) (v3_add bodyPos targetOffset) 0.1 in
  let o := controls c in
  mkCameraController
    (mkPerspectiveCamera position' (fov (camera c)))
    (mkOrbitControls (ctl_enabled o) (enableDamping o) (dampingFactor o)
       (enablePan o) (minDistance o) (maxDistance o) (autoRotate o)
       (autoRotateSpeed o) target')
    (isTransitioning c) (focusedBody c) (defaultPosition c) (defaultTarget c)
    (focusBaseDistance c) (focusPosition c) (focusTarget c)
    mi (targetMouseInfluence c) (mouseViewEnabled c)
    (minDistanceMultiplier c) (maxDistanceMultiplier c) (activeTweens c).

(** The camera moved by [controls.update()]. *)
Definition set_position (v : Vec3) (c : CameraController)
  : CameraController :=
  mkCameraController (mkPerspectiveCamera v (fov (camera c)))
    (controls c) (isTransitioning c)
    (focusedBody c) (defaultPosition c) (defaultTarget c)
    (focusBaseDistance c) (focusPosition c) (focusTarget c)
    (mouseInfluence c) (targetMouseInfluence c) (mouseViewEnabled c)
    (minDistanceMultiplier c) (maxDistanceMultiplier c) (activeTweens c).

(** [CameraController.update()].  [controls.update()] is code of
    OrbitControls: where it puts the camera is the parameter [orbit], and
    the orientation it leaves, [camera.quaternion], is [q]. *)
Definition cam_update
  (orbit : PerspectiveCamera -> OrbitControls -> Vec3) (q : Quaternion)
  (w : World) : World :=
  let c := cam w in
  let c1 := if ctl_enabled (controls c) && negb (isTransitioning c)
            then set_position (orbit (camera c) (controls c)) c
            else c in
  if view_active c1 then
    match focusedBody c1 with
    | Some r =>
        match bodies w !! r with
        | Some b => set_cam (mouse_view q (worldPosition b) c1) w
        | None => set_cam c1 w
        end
    | None => set_cam c1 w
    end
  else set_cam c1 w.

(** Frames of the render loop in which nothing but the camera
    controller's [update] runs, one camera orientation per frame. *)
Definition cam_updates
  (orbit : PerspectiveCamera -> OrbitControls -> Vec3)
  (qs : list Quaternion) (w : World) : World :=
  fold_left (fun w' q => cam_update orbit q w') qs w.

(** ** Notions used to state the properties *)

Definition v3_sub (a b : Vec3) : Vec3 :=
  mkVec3 (v3x a - v3x b) (v3y a - v3y b) (v3z a - v3z b).

Definition v2_sub (a b : Vec2) : Vec2 :=
  mkVec2 (v2x a - v2x b) (v2y a - v2y b).

(** The controller with the pointer, and the influence it has had so
    far, mirrored at the centre of the screen. *)
Definition mirrored (c : CameraController) : CameraController :=
  mkCameraController (camera c) (controls c) (isTransitioning c)
    (focusedBody c) (defaultPosition c) (defaultTarget c)
    (focusBaseDistance c) (focusPosition c) (focusTarget c)
    (v2_multiplyScalar (-1) (mouseInfluence c))
    (v2_multiplyScalar (-1) (targetMouseInfluence c)) (mouseViewEnabled c)
    (minDistanceMultiplier c) (maxDistanceMultiplier c) (activeTweens c).

End MouseView.

(* ===================================================================== *)
(** * Pointer moves *)
(* ===================================================================== *)

Module Pointer.
Import Geometry Interaction MouseView.
Local Open Scope R_scope.

(** The pointer fields of a [Planet] whose mesh has been built:
    [uniforms.uMouseUV.value] is the very object stored in [mouseUV], so
    the two are one field here. *)
Record PlanetMouse : Type := mkPlanetMouse {
  mouseUV : Vec2;
  planet_mouseSpeed : R;
  uMouseSpeed : R
}.

(** As the constructor and [createMesh] leave them. *)
Definition new_PlanetMouse : PlanetMouse := mkPlanetMouse (mkVec2 0.5 0.5) 0 0.

(** [Planet.setMouseInfo(uv, speed)] *)
Definition setMouseInfo (uv : Vec2) (speed : R) (p : PlanetMouse)
  : PlanetMouse := mkPlanetMouse uv speed speed.

(** The world together with what pointer moves write besides: the
    pointer fields of the planets (a planet that is not listed has those
    of a new planet) and [domElement.style.cursor]. *)
Record Stage : Type := mkStage {
  world : World;
  planetMouse : gmap nat PlanetMouse;
  cursor : string
}.

Definition new_Stage (w : World) : Stage := mkStage w ∅ "".

Definition upd_world (f : World -> World) (s : Stage) : Stage :=
  mkStage (f (world s)) (planetMouse s) (cursor s).

(** The pointer fields of the planet [r]. *)
Definition mouse_of (s : Stage) (r : nat) : PlanetMouse :=
  default new_PlanetMouse (planetMouse s !! r).

(** A hit of the ray on the mesh of the selected body: [hit.uv]. *)
Record SurfaceHit : Type := mkSurfaceHit { uv : option Vec2 }.

(** A [mousemove] event with what the page and the ray caster answer
    while it is handled: the size of the window, the meshes under the
    pointer ([intersectObjects(clickables)]) and the hits on the mesh of
    the selected body ([intersectObject(selectedBody.mesh)]).  The window
    has a positive size (the reals have no infinities). *)
Record MouseMove : Type := mkMouseMove {
  clientX : R;
  clientY : R;
  innerWidth : R;
  innerHeight : R;
  hover_hits : list Hit;
  body_hits : list SurfaceHit
}.

(** The assignments of [onMouseMove] to the pointer fields. *)
Definition track (e : MouseMove) (i : InteractionController)
  : InteractionController :=
  let prev := mousePosition i in
  let mouse' := mkVec2 (clientX e / innerWidth e * 2 - 1)
                       (- (clientY e / innerHeight e) * 2 + 1) in
  let mousePosition' := mkVec2 (clientX e / innerWidth e)
                               (clientY e / innerHeight e) in
  let mouseVelocity' := mkVec2 (v2x mousePosition' - v2x prev)
                               (v2y mousePosition' - v2y prev) in
  mkInteractionController (state i) (selectedBody i) (hoveredBody i)
    mouse' mousePosition' mouseVelocity' prev mouse' (lastHitUV i)
    (v2_length mouseVelocity' * 10)
    (onStateChange i) (onBodySelect i) (onBodyHover i).

Definition set_hoveredBody (h : option nat) (i : InteractionController)
  : InteractionController :=
  mkInteractionController (state i) (selectedBody i) h
    (mouse i) (mousePosition i) (mouseVelocity i)
    (prevMousePosition i) (mouseNormalized i) (lastHitUV i) (mouseSpeed i)
    (onStateChange i) (onBodySelect i) (onBodyHover i).

Definition set_lastHitUV (v : Vec2) (i : InteractionController)
  : InteractionController :=
  mkInteractionController (state i) (selectedBody i) (hoveredBody i)
    (mouse i) (mousePosition i) (mouseVelocity i)
    (prevMousePosition i) (mouseNormalized i) v (mouseSpeed i)
    (onStateChange i) (onBodySelect i) (onBodyHover i).

(** [updateHover()].  Every clickable mesh carries its body
    ([createMesh] sets [userData.celestialBody]); a hit without one is
    treated as a hit on no body. *)
Definition updateHover (intersects : list Hit) (s : Stage) : Stage :=
  let prevHovered := hoveredBody (ic (world s)) in
  let hovered := match intersects with
                 | hit :: _ => celestialBody hit
                 | [] => None
                 end in
  let cursor' := match intersects with
                 | _ :: _ => "pointer"
                 | [] => "default"
                 end in
  let w1 := upd_ic (set_hoveredBody hovered) (world s) in
  let w2 := if negb (bool_decide (prevHovered = hovered))
               && onBodyHover (ic w1)
            then log (BodyHover hovered) w1
            else w1 in
  mkStage w2 (planetMouse s) cursor'.

(** [updatePerturbation()] *)
Definition updatePerturbation (intersects : list SurfaceHit) (s : Stage)
  : Stage :=
  match selectedBody (ic (world s)) with
  | None => s
  | Some r =>
      match intersects with
      | [] => s
      | hit :: _ =>
          let s1 := match uv hit with
                    | Some v => upd_world (upd_ic (set_lastHitUV v)) s
                    | None => s
                    end in
          match bodies (world s1) !! r with
          | Some b =>
              if has_setPerturbation b then
                let i := ic (world s1) in
                mkStage
                  (set_bodies
                     (alter (body_setPerturbation true 0.15) r
                        (bodies (world s1))) (world s1))
                  (<[r := setMouseInfo (lastHitUV i) (mouseSpeed i)
                            (mouse_of s1 r)]> (planetMouse s1))
                  (cursor s1)
              else s1
          | None => s1
          end
      end
  end.

(** [onMouseMove(event)] *)
Definition onMouseMove (e : MouseMove) (s : Stage) : Stage :=
  let s1 := upd_world (upd_ic (track e)) s in
  let i := ic (world s1) in
  let s2 := if state_eqb (state i) FOCUS then
              updatePerturbation (body_hits e)
                (upd_world
                   (upd_cam (updateMouseView (v2x (mouseNormalized i))
                                             (v2y (mouseNormalized i))))
                   s1)
            else s1 in
  if state_eqb (state (ic (world s2))) GLOBAL
  then updateHover (hover_hits e) s2
  else s2.

(** [getMouseInfo()] *)
Record MouseInfo : Type := mkMouseInfo {
  info_position : Vec2;
  info_velocity : Vec2;
  info_speed : R;
  info_uv : Vec2
}.

Definition getMouseInfo (i : InteractionController) : MouseInfo :=
  mkMouseInfo (mousePosition i) (mouseVelocity i) (mouseSpeed i)
    (lastHitUV i).

(** ** Notions used to state the properties *)

(** The event happens inside a window of positive size. *)
Definition inside (e : MouseMove) : Prop :=
  0 < innerWidth e /\ 0 < innerHeight e /\
  0 <= clientX e <= innerWidth e /\ 0 <= clientY e <= innerHeight e.

(** Everything of the interaction controller but the pointer fields. *)
Definition same_control (i i' : InteractionController) : Prop :=
  state i' = state i /\ selectedBody i' = selectedBody i /\
  hoveredBody i' = hoveredBody i /\ lastHitUV i' = lastHitUV i /\
  onStateChange i' = onStateChange i /\ onBodySelect i' = onBodySelect i /\
  onBodyHover i' = onBodyHover i.

End Pointer.

(* ===================================================================== *)
(** * Runs of the interaction: notions *)
(* ===================================================================== *)

Module InteractionRuns.
Import Geometry Interaction MouseView.

(** Nothing is selected in the overview, and something is in the focus
    state. *)
Definition selection_fits_state (w : World) : Prop :=
  (state (ic w) = GLOBAL -> selectedBody (ic w) = None) /\
  (state (ic w) = FOCUS -> is_Some (selectedBody (ic w))).

(** The flags of the camera transition engine fit together: the controls
    are disabled exactly during a transition, the mouse-driven view is
    enabled only outside a transition and with a focused body, and every
    running tween animates the camera, a focus completion among them
    being that of the focused body. *)
Definition flags_fit (c : CameraController) : Prop :=
  isTransitioning c = negb (ctl_enabled (controls c)) /\
  (mouseViewEnabled c = true ->
   isTransitioning c = false /\ is_Some (focusedBody c)).

(** The tween [tw] animates the camera and, if it completes a focus,
    then that on the focused body of [c]. *)
Definition tween_fits (c : CameraController) (tw : Tween) : Prop :=
  on_camera tw = true /\
  forall b, tw_onComplete tw = Some (FocusComplete b) ->
            focusedBody c = Some b.

Definition camera_flags_fit (w : World) : Prop :=
  flags_fit (cam w) /\ Forall (tween_fits (cam w)) (tweens (gsap w)).

End InteractionRuns.

(* ===================================================================== *)
(** * HDREnvironment *)
(* ===================================================================== *)

Module Environment.
Import Interaction.

(** The value of [currentIndex] and of the [index] parameter: an integer
    or [NaN] (the callers pass no fractions). *)
Inductive index : Type :=
| Int (z : Z)
| NaNIndex.

(** Textures are objects; they are referred to by number. *)
Record Hdr : Type := mkHdr { hdr_original : nat; hdr_envMap : nat }.

(** An entry of [environments]. *)
Record Env : Type := mkEnv {
  env_name : string;
  envMap : nat;
  original : nat
}.

Record HDREnvironment : Type := mkHDREnvironment {
  environments : list Env;
  currentIndex : index;
  currentEnvMap : option nat;
  scene_environment : option nat;
  scene_background : option nat
}.

Definition environmentNames : list string :=
  ["Blue Nebula"; "Multi-Color Nebula"; "Silver & Gold Nebula"].

Definition hdrNames : list string :=
  ["nebula_blue"; "nebula_multi"; "nebula_gold"].

(** [new HDREnvironment(scene, resourceManager)] on a new scene. *)
Definition new_HDREnvironment : HDREnvironment :=
  mkHDREnvironment [] (Int 0) None None None.

(** [setEnvironment(index)] *)
Definition setEnvironment (i : index) (h : HDREnvironment)
  : HDREnvironment * outcome unit :=
  let out_of_range :=
    match i with
    | Int z => (z <? 0) || (Z.of_nat (length (environments h)) <=? z)
    | NaNIndex => false
    end in
  if out_of_range then (h, Returned tt)
  else
    let env := match i with
               | Int z => nth_error (environments h) (Z.to_nat z)
               | NaNIndex => None
               end in
    match env with
    | Some e =>
        (mkHDREnvironment (environments h) i (Some (envMap e))
           (Some (envMap e)) (Some (envMap e)), Returned tt)
    | None =>
        (mkHDREnvironment (environments h) i (currentEnvMap h)
           (scene_environment h) (scene_background h), Threw TypeError)
    end.

(** [init()]; [getHDR] is [resourceManager.getHDR]. *)
Definition init (getHDR : string -> option Hdr) (h : HDREnvironment)
  : HDREnvironment * outcome unit :=
  let loaded :=
    flat_map (fun name =>
                match getHDR name with
                | Some hdr => [mkEnv name (hdr_envMap hdr) (hdr_original hdr)]
                | None => []
                end) hdrNames in
  let h1 := mkHDREnvironment (environments h ++ loaded) (currentIndex h)
              (currentEnvMap h) (scene_environment h) (scene_background h) in
  if (0 <? length (environments h1))%nat
  then setEnvironment (Int 0) h1
  else (h1, Returned tt).

(** [environmentNames[currentIndex] || 'Unknown'] *)
Definition getCurrentName (h : HDREnvironment) : string :=
  match currentIndex h with
  | Int z =>
      if (z <? 0) then "Unknown"
      else match nth_error environmentNames (Z.to_nat z) with
           | Some n => n
           | None => "Unknown"
           end
  | NaNIndex => "Unknown"
  end.

(** [a + k] and [a % n] on an index; [x % 0] is [NaN]. *)
Definition index_add (a : index) (k : Z) : index :=
  match a with
  | Int z => Int (z + k)
  | NaNIndex => NaNIndex
  end.

Definition index_rem (a : index) (n : nat) : index :=
  match a with
  | Int z => if (n =? 0)%nat then NaNIndex else Int (Z.rem z (Z.of_nat n))
  | NaNIndex => NaNIndex
  end.

Definition and_name (r : HDREnvironment * outcome unit)
  : HDREnvironment * outcome string :=
  match r with
  | (h, Returned _) => (h, Returned (getCurrentName h))
  | (h, Threw e) => (h, Threw e)
  end.

(** [next()] *)
Definition next (h : HDREnvironment) : HDREnvironment * outcome string :=
  let nextIndex :=
    index_rem (index_add (currentIndex h) 1) (length (environments h)) in
  and_name (setEnvironment nextIndex h).

(** [previous()] *)
Definition previous (h : HDREnvironment) : HDREnvironment * outcome string :=
  let prevIndex :=
    index_rem
      (index_add (index_add (currentIndex h) (-1))
         (Z.of_nat (length (environments h))))
      (length (environments h)) in
  and_name (setEnvironment prevIndex h).

(** [getEnvMap()] *)
Definition getEnvMap (h : HDREnvironment) : option nat := currentEnvMap h.

(** [k] presses of the key that calls [next()]. *)
Fixpoint nexts (k : nat) (h : HDREnvironment) : HDREnvironment :=
  match k with
  | O => h
  | S k' => nexts k' (fst (next h))
  end.

(** ** Notions used to state the properties *)

(** The environment at position [z] is the one shown: it is the current
    index, and its map is the current map, the scene's environment and
    the scene's background. *)
Definition shown (h : HDREnvironment) (z : Z) (e : Env) : Prop :=
  currentIndex h = Int z /\ (0 <= z)%Z /\
  nth_error (environments h) (Z.to_nat z) = Some e /\
  currentEnvMap h = Some (envMap e) /\
  scene_environment h = Some (envMap e) /\
  scene_background h = Some (envMap e).

End Environment.

(* ===================================================================== *)
(** * Orbits: CelestialBody and SolarSystem *)
(* ===================================================================== *)

Module Orbit.
Import Geometry.
Local Open Scope R_scope.

(** The fields of a [CelestialBody] that its [update] reads or writes.
    [position] and [group.position] are two vectors; the fields that the
    subclasses add (clouds, corona, rings) are left out.  The group of a
    body is a child of the untransformed group of the solar system, so
    its world position is [group.position]. *)
Record CelestialBody : Type := mkCelestialBody {
  body_name : string;
  body_position : Vec3;
  group_position : Vec3;
  rotationSpeed : R;
  orbitRadius : R;
  orbitSpeed : R;
  orbitAngle : R;
  orbitCenter : Vec3;
  orbitInclination : R;
  orbitEccentricity : R;
  (** [mesh.rotation.y], once the mesh has been created *)
  mesh_rotation_y : option R;
  (** [uniforms.uTime.value], where the uniforms have it *)
  body_uTime : option R;
  isMoon : bool;
  parentBody : option nat
}.

(** [setPosition(x, y, z)] with three numbers *)
Definition setPosition (x y z : R) (b : CelestialBody) : CelestialBody :=
  mkCelestialBody (body_name b) (mkVec3 x y z) (mkVec3 x y z)
    (rotationSpeed b) (orbitRadius b) (orbitSpeed b) (orbitAngle b)
    (orbitCenter b) (orbitInclination b) (orbitEccentricity b)
    (mesh_rotation_y b) (body_uTime b) (isMoon b) (parentBody b).

(** [setOrbit(radius, speed, inclination, eccentricity)] *)
Definition setOrbit (radius speed inclination eccentricity : R)
  (b : CelestialBody) : CelestialBody :=
  mkCelestialBody (body_name b) (body_position b) (group_position b)
    (rotationSpeed b) radius speed (orbitAngle b)
    (orbitCenter b) inclination eccentricity
    (mesh_rotation_y b) (body_uTime b) (isMoon b) (parentBody b).

Definition set_orbitAngle (angle : R) (b : CelestialBody) : CelestialBody :=
  mkCelestialBody (body_name b) (body_position b) (group_position b)
    (rotationSpeed b) (orbitRadius b) (orbitSpeed b) angle
    (orbitCenter b) (orbitInclination b) (orbitEccentricity b)
    (mesh_rotation_y b) (body_uTime b) (isMoon b) (parentBody b).

Definition set_orbitCenter (v : Vec3) (b : CelestialBody) : CelestialBody :=
  mkCelestialBody (body_name b) (body_position b) (group_position b)
    (rotationSpeed b) (orbitRadius b) (orbitSpeed b) (orbitAngle b)
    v (orbitInclination b) (orbitEccentricity b)
    (mesh_rotation_y b) (body_uTime b) (isMoon b) (parentBody b).

(** [getWorldPosition()] *)
Definition getWorldPosition (b : CelestialBody) : Vec3 := group_position b.

(** The condition [orbitRadius > 0 && orbitSpeed !== 0]. *)
Definition orbiting (b : CelestialBody) : bool :=
  (if Rlt_dec 0 (orbitRadius b) then true else false)
  && (if Req_dec_T (orbitSpeed b) 0 then false else true).

(** [updateOrbit(deltaTime)] *)
Definition updateOrbit (deltaTime : R) (b : CelestialBody) : CelestialBody :=
  if orbiting b then
    let angle := orbitAngle b + orbitSpeed b * deltaTime in
    let a := orbitRadius b in
    let b' := a * (1 - orbitEccentricity b) in
    let x := v3x (orbitCenter b) + a * cos angle in
    let z := v3z (orbitCenter b) + b' * sin angle in
    let y := v3y (orbitCenter b)
             + sin angle * sin (orbitInclination b) * orbitRadius b * 0.1 in
    setPosition x y z (set_orbitAngle angle b)
  else b.

(** [update(deltaTime, elapsedTime)] *)
Definition update (deltaTime elapsedTime : R) (b : CelestialBody)
  : CelestialBody :=
  let b1 := updateOrbit deltaTime b in
  mkCelestialBody (body_name b1) (body_position b1) (group_position b1)
    (rotationSpeed b1) (orbitRadius b1) (orbitSpeed b1) (orbitAngle b1)
    (orbitCenter b1) (orbitInclination b1) (orbitEccentricity b1)
    (match mesh_rotation_y b1 with
     | Some ry =>
         if Req_dec_T (rotationSpeed b1) 0 then Some ry
         else Some (ry + rotationSpeed b1 * deltaTime)
     | None => None
     end)
    (match body_uTime b1 with
     | Some _ => Some elapsedTime
     | None => None
     end)
    (isMoon b1) (parentBody b1).

(** ** SolarSystem *)

(** The body objects, and the [Map] from names to them in the order of
    insertion. *)
Record SolarSystem : Type := mkSolarSystem {
  objects : gmap nat CelestialBody;
  bodies : list (string * nat);
  minDisplaySize : R;
  maxDisplaySize : R
}.

Definition new_SolarSystem : SolarSystem := mkSolarSystem ∅ [] 1.2 8.

(** [normalizeSize(originalRadius)], for a radius above [-1]: the
    logarithm of a number that is not positive is not a real. *)
Definition normalizeSize (s : SolarSystem) (originalRadius : R) : R :=
  let logScaled := ln (originalRadius + 1) * 2 in
  Rmax (minDisplaySize s) (Rmin (maxDisplaySize s) logScaled).

(** [Map.set]: the value of an existing key is replaced where it is, a
    new key is appended. *)
Fixpoint map_set (k : string) (v : nat) (m : list (string * nat))
  : list (string * nat) :=
  match m with
  | [] => [(k, v)]
  | (k', v') :: m' =>
      if String.eqb k' k then (k, v) :: m' else (k', v') :: map_set k v m'
  end.

(** [addBody(body)] for the new object [r] *)
Definition addBody (r : nat) (b : CelestialBody) (s : SolarSystem)
  : SolarSystem :=
  mkSolarSystem (<[r := b]> (objects s)) (map_set (body_name b) r (bodies s))
    (minDisplaySize s) (maxDisplaySize s).

(** [getBody(name)] *)
Definition getBody (name : string) (s : SolarSystem) : option nat :=
  match List.find (fun kv => String.eqb (fst kv) name) (bodies s) with
  | Some kv => Some (snd kv)
  | None => None
  end.

(** The body of the loop of [SolarSystem.update] for the object [r]. *)
Definition update_body (deltaTime elapsedTime : R)
  (o : gmap nat CelestialBody) (r : nat) : gmap nat CelestialBody :=
  match o !! r with
  | Some b =>
      let b1 :=
        if isMoon b then
          match parentBody b with
          | Some p =>
              match o !! p with
              | Some pb => set_orbitCenter (getWorldPosition pb) b
              | None => b
              end
          | None => b
          end
        else b in
      <[r := update deltaTime elapsedTime b1]> o
  | None => o
  end.

(** [SolarSystem.update(deltaTime, elapsedTime)] *)
Definition ss_update (deltaTime elapsedTime : R) (s : SolarSystem)
  : SolarSystem :=
  mkSolarSystem
    (fold_left (fun o kv => update_body deltaTime elapsedTime o (snd kv))
       (bodies s) (objects s))
    (bodies s) (minDisplaySize s) (maxDisplaySize s).

(** ** Notions used to state the properties *)

(** The point [p] lies on the orbit of [b]: on the ellipse around the
    orbit centre with the half axes [a] and [a (1 - e)], seen from
    above. *)
Definition on_orbit (b : CelestialBody) (p : Vec3) : Prop :=
  let a := orbitRadius b in
  let e := orbitEccentricity b in
  (v3x p - v3x (orbitCenter b)) * (v3x p - v3x (orbitCenter b))
  * ((1 - e) * (1 - e))
  + (v3z p - v3z (orbitCenter b)) * (v3z p - v3z (orbitCenter b))
  = a * a * ((1 - e) * (1 - e)).

End Orbit.

(* ===================================================================== *)
(** * The render loop of the Engine *)
(* ===================================================================== *)

Module Loop.

(** Callbacks are functions; they are referred to by number.  What the
    callbacks themselves do is outside this model (they do not touch the
    engine). *)
Record Engine : Type := mkEngine {
  isRunning : bool;
  updateCallbacks : list nat;
  (** the calls of [animate] that [requestAnimationFrame] holds for the
      next frame *)
  requested : nat;
  (** the callbacks called so far, oldest first *)
  called : list nat;
  (** the number of calls of the renderer *)
  rendered : nat
}.

(** The fields the constructor sets. *)
Definition new_Engine : Engine := mkEngine false [] 0 [] 0.

(** [onUpdate(callback)] *)
Definition onUpdate (callback : nat) (e : Engine) : Engine :=
  mkEngine (isRunning e) (updateCallbacks e ++ [callback]) (requested e)
    (called e) (rendered e).



(** [animate()] *)
Definition animate (e : Engine) : Engine :=
  if isRunning e then
    mkEngine true (updateCallbacks e) (S (requested e))
      (called e ++ updateCallbacks e) (S (rendered e))
  else e.

(** [start()] *)
Definition start (e : Engine) : Engine :=
  if isRunning e then e
  else animate (mkEngine true (updateCallbacks e) (requested e) (called e)
                  (rendered e)).

(** [stop()] *)
Definition stop (e : Engine) : Engine :=
  mkEngine false (updateCallbacks e) (requested e) (called e) (rendered e).

(** An animation frame: the browser runs the callbacks that were
    requested before the frame; what they request is for the next
    frame. *)
Definition frame (e : Engine) : Engine :=
  Nat.iter (requested e) animate
    (mkEngine (isRunning e) (updateCallbacks e) 0 (called e) (rendered e)).

Fixpoint frames (k : nat) (e : Engine) : Engine :=
  match k with
  | O => e
  | S k' => frames k' (frame e)
  end.

(** [l] repeated [k] times. *)
Fixpoint times (k : nat) (l : list nat) : list nat :=
  match k with
  | O => []
  | S k' => l ++ times k' l
  end.

End Loop.

(* ===================================================================== *)
(** * The progress of the ResourceManager *)
(* ===================================================================== *)

Module Resources.
Import JsNum.

Inductive kind : Type := Texture | HDR.

Record ResourceManager : Type := mkResourceManager {
  (** the names in the two caches *)
  textures : gset string;
  hdrTextures : gset string;
  loadingProgress : num;
  totalItems : nat;
  loadedItems : nat;
  (** [onProgressCallback] is [null] or a callback *)
  onProgressCallback : bool;
  (** the arguments of the calls that [updateProgress] makes to it *)
  reports : list (num * string)
}.

Definition new_ResourceManager : ResourceManager :=
  mkResourceManager ∅ ∅ (Fin 0) 0 0 false [].

(** [onProgress(callback)] *)
Definition onProgress (r : ResourceManager) : ResourceManager :=
  mkResourceManager (textures r) (hdrTextures r) (loadingProgress r)
    (totalItems r) (loadedItems r) true (reports r).

(** [updateProgress(itemName)] *)
Definition updateProgress (itemName : string) (r : ResourceManager)
  : ResourceManager :=
  let loaded := S (loadedItems r) in
  let progress := div (of_nat loaded) (of_nat (totalItems r)) in
  mkResourceManager (textures r) (hdrTextures r) progress (totalItems r)
    loaded (onProgressCallback r)
    (if onProgressCallback r then reports r ++ [(progress, itemName)]
     else reports r).

Definition planetTextures : list string :=
  ["sun"; "mercury"; "venus"; "venus_atmosphere"; "earth_day";
   "earth_night"; "earth_clouds"; "earth_normal"; "earth_specular"; "moon";
   "mars"; "jupiter"; "saturn"; "saturn_ring"; "uranus"; "neptune";
   "milkyway"].

Definition hdrs : list string :=
  ["nebula_blue"; "nebula_multi"; "nebula_gold"].

(** A load that [preloadAll] has started. *)
Definition load : Type := (kind * string)%type.

Definition cached (r : ResourceManager) (l : load) : bool :=
  match fst l with
  | Texture => bool_decide (snd l ∈ textures r)
  | HDR => bool_decide (snd l ∈ hdrTextures r)
  end.

(** [preloadAll(renderer)] up to its [await]: the counters are set and
    the loads start; [loadTexture] and [loadHDR] return at once what is
    in the cache.  The result lists the loads that are under way. *)
Definition preloadAll (r : ResourceManager) : ResourceManager * list load :=
  let all := map (pair Texture) planetTextures ++ map (pair HDR) hdrs in
  (mkResourceManager (textures r) (hdrTextures r) (loadingProgress r)
     (length planetTextures + length hdrs) 0 (onProgressCallback r)
     (reports r),
   List.filter (fun l => negb (cached r l)) all).

(** A load settles: it succeeds, which puts the item into its cache, or
    it fails, which [preloadAll] catches; both update the progress. *)
Definition settle (l : load) (ok : bool) (r : ResourceManager)
  : ResourceManager :=
  let r1 :=
    if ok then
      match fst l with
      | Texture =>
          mkResourceManager ({[snd l]} ∪ textures r) (hdrTextures r)
            (loadingProgress r) (totalItems r) (loadedItems r)
            (onProgressCallback r) (reports r)
      | HDR =>
          mkResourceManager (textures r) ({[snd l]} ∪ hdrTextures r)
            (loadingProgress r) (totalItems r) (loadedItems r)
            (onProgressCallback r) (reports r)
      end
    else r in
  updateProgress (snd l) r1.

(** The loads settle one after the other, in any order. *)
Definition settle_all (evs : list (load * bool)) (r : ResourceManager)
  : ResourceManager :=
  fold_left (fun r' ev => settle (fst ev) (snd ev) r') evs r.

End Resources.

(* ===================================================================== *)
(** * Properties of the quality control loop *)
(* ===================================================================== *)

Section QualityFacts.
Import JsNum Quality.

Lemma ltb_not_geb a b : ltb a b = true -> geb a b = false.
Proof.
  destruct a, b; cbn [ltb geb]; try discriminate; try reflexivity.
  intros H. apply negb_true_iff in H. exact H.
Qed.

Lemma ltb_30_not_geb_55 a : ltb a (Fin 30) = true -> geb a (Fin 55) = false.
Proof.
  destruct a as [q| | |]; cbn [ltb geb]; try discriminate; try reflexivity.
  intros H. apply negb_true_iff in H.
  destruct (Qle_bool 55 q) eqn:E; [|reflexivity].
  apply Qle_bool_iff in E.
  assert (Hle : (30 <= q)%Q) by (eapply Qle_trans; [|exact E]; discriminate).
  apply Qle_bool_iff in Hle. congruence.
Qed.

Lemma str_neq_true a b : str_neq a b = true <-> a <> b.
Proof.
  unfold str_neq. rewrite negb_true_iff.
  destruct (String.eqb_spec a b); split; congruence.
Qed.

Lemma str_neq_false a b : str_neq a b = false <-> a = b.
Proof.
  unfold str_neq. rewrite negb_false_iff.
  destruct (String.eqb_spec a b); split; congruence.
Qed.

(** When the three-way test picks another level, it is the level of the
    average. *)
Lemma pick_quality_level (m : FPSMonitor) :
  constructed m ->
  pick_quality m <> currentQuality m ->
  pick_quality m = level_of (avgFps m).
Proof.
  intros (Hh & Hl & _) Hne. revert Hne.
  unfold pick_quality, level_of. rewrite Hh, Hl.
  destruct (geb (avgFps m) (Fin 55)) eqn:G55; simpl.
  - destruct (str_neq (currentQuality m) "high") eqn:N1; [reflexivity|].
    apply str_neq_false in N1.
    assert (L30 : ltb (avgFps m) (Fin 30) = false).
    { destruct (ltb (avgFps m) (Fin 30)) eqn:L; [|reflexivity].
      apply ltb_30_not_geb_55 in L. congruence. }
    assert (L55 : ltb (avgFps m) (Fin 55) = false).
    { destruct (ltb (avgFps m) (Fin 55)) eqn:L; [|reflexivity].
      apply ltb_not_geb in L. congruence. }
    rewrite L30, L55, andb_false_r. simpl. congruence.
  - destruct (ltb (avgFps m) (Fin 30)) eqn:L30; simpl.
    + destruct (str_neq (currentQuality m) "low") eqn:N2; [reflexivity|].
      rewrite (ltb_not_geb _ _ L30). simpl. congruence.
    + destruct (geb (avgFps m) (Fin 30)
                && ltb (avgFps m) (Fin 55)
                && str_neq (currentQuality m) "medium"); congruence.
Qed.

Lemma measure_counter t m :
  framesSinceQualityChange (measure t m) = framesSinceQualityChange m + 1.
Proof. reflexivity. Qed.

Lemma measure_constructed t m : constructed m -> constructed (measure t m).
Proof. intros H. exact H. Qed.

(** Below the dwell period [update] only measures. *)
Lemma update_quiet t m :
  framesSinceQualityChange m + 1 < qualityChangeDelay m ->
  update t m = (measure t m, None).
Proof.
  intros H. unfold update, checkQuality. rewrite measure_counter.
  change (qualityChangeDelay (measure t m)) with (qualityChangeDelay m).
  apply Z.ltb_lt in H. rewrite H. reflexivity.
Qed.

Lemma feed_quiet ds : forall m,
  framesSinceQualityChange m + Z.of_nat (length ds) < qualityChangeDelay m ->
  currentQuality (fst (feed ds m)) = currentQuality m /\
  snd (feed ds m) = [] /\
  framesSinceQualityChange (fst (feed ds m))
  = framesSinceQualityChange m + Z.of_nat (length ds).
Proof.
  induction ds as [|d ds IH]; intros m H.
  - simpl. repeat split; lia.
  - cbn [feed]. cbn [length] in H.
    rewrite update_quiet by lia.
    specialize (IH (measure (lastTime m + d)%Q m)).
    rewrite measure_counter in IH.
    change (qualityChangeDelay (measure (lastTime m + d)%Q m))
      with (qualityChangeDelay m) in IH.
    destruct IH as (I1 & I2 & I3); [lia|].
    destruct (feed ds (measure (lastTime m + d)%Q m)) as [m2 evs].
    simpl in *. subst evs. repeat split; [exact I1 | lia].
Qed.

(** A level change made by [update]. *)
Lemma update_change t m :
  constructed m ->
  currentQuality (fst (update t m)) <> currentQuality m ->
  qualityChangeDelay m <= framesSinceQualityChange m + 1 /\
  framesSinceQualityChange (fst (update t m)) = 0 /\
  currentQuality (fst (update t m)) = level_of (avgFps (fst (update t m))) /\
  snd (update t m)
  = (if onQualityChange m then Some (currentQuality (fst (update t m)))
     else None).
Proof.
  intros Hc. unfold update, checkQuality.
  rewrite measure_counter.
  change (qualityChangeDelay (measure t m)) with (qualityChangeDelay m).
  destruct (framesSinceQualityChange m + 1 <? qualityChangeDelay m) eqn:E.
  - simpl. congruence.
  - apply Z.ltb_ge in E.
    destruct (str_neq (pick_quality (measure t m))
                (currentQuality (measure t m))) eqn:N.
    + simpl. intros _. apply str_neq_true in N.
      repeat split; try assumption.
      apply pick_quality_level; [apply measure_constructed|]; assumption.
    + simpl. congruence.
Qed.

Lemma checkQuality_constructed m :
  constructed m -> constructed (fst (checkQuality m)).
Proof.
  intros H. unfold checkQuality.
  destruct (framesSinceQualityChange m <? qualityChangeDelay m); [exact H|].
  destruct (str_neq (pick_quality m) (currentQuality m)); exact H.
Qed.

Lemma update_constructed t m : constructed m -> constructed (fst (update t m)).
Proof. intros H. apply checkQuality_constructed, measure_constructed, H. Qed.

(** ** Hysteresis *)

(** C5. Quality hysteresis: while fewer than 60 frames have elapsed
    since the previous level change [checkQuality] does nothing and no
    level change fires, whatever the measured frame rate (no change of
    [currentQuality], no callback); a
    change that fires happens at a dwell count of at least 60, resets the
    counter to zero, picks the level by the thresholds (average >= 55
    high, < 30 low, otherwise medium), and is followed by at least 59
    frames without a change. *)
Theorem quality_hysteresis (m : FPSMonitor) (t : Q) (ds : list Q) :
  constructed m ->
  (framesSinceQualityChange m < 60 -> checkQuality m = (m, None)) /\
  (framesSinceQualityChange m + Z.of_nat (length ds) < 60 ->
   currentQuality (fst (feed ds m)) = currentQuality m /\
   snd (feed ds m) = []) /\
  (currentQuality (fst (update t m)) <> currentQuality m ->
   60 <= framesSinceQualityChange m + 1 /\
   framesSinceQualityChange (fst (update t m)) = 0 /\
   currentQuality (fst (update t m))
   = level_of (avgFps (fst (update t m))) /\
   ((length ds < 60)%nat ->
    currentQuality (fst (feed ds (fst (update t m))))
    = currentQuality (fst (update t m)) /\
    snd (feed ds (fst (update t m))) = [])).
Proof.
  intros Hc. pose proof Hc as (_ & _ & Hd). split; [|split].
  - intros H. unfold checkQuality. rewrite Hd.
    apply Z.ltb_lt in H. rewrite H. reflexivity.
  - intros H. rewrite <- Hd in H.
    destruct (feed_quiet ds m H) as (H1 & H2 & _). split; assumption.
  - intros Hne.
    destruct (update_change t m Hc Hne) as (H1 & H2 & H3 & _).
    rewrite Hd in H1. repeat split; try assumption.
    + pose proof (update_constructed t m Hc) as (_ & _ & Hd').
      destruct (feed_quiet ds (fst (update t m))) as (F1 & _); [lia|exact F1].
    + pose proof (update_constructed t m Hc) as (_ & _ & Hd').
      destruct (feed_quiet ds (fst (update t m))) as (_ & F2 & _); [lia|exact F2].
Qed.

(** A monitor one frame short of the dwell period at 40 frames per
    second: the next frame switches from high to medium. *)
Lemma quality_hysteresis_witness :
  let m := fst (feed (repeat 25%Q 59) (new_FPSMonitor 60 0)) in
  let m' := fst (update 1500 m) in
  currentQuality m = "high" /\
  currentQuality m' = "medium" /\
  framesSinceQualityChange m' = 0 /\
  currentQuality (fst (feed [10%Q; 10%Q] m')) = "medium".
Proof.
  intros m m'.
  assert (Hc : constructed m) by (repeat split; vm_compute; reflexivity).
  assert (Hne : currentQuality (fst (update 1500 m)) <> currentQuality m)
    by (vm_compute; discriminate).
  destruct (quality_hysteresis m 1500 [10%Q; 10%Q] Hc) as (_ & _ & H).
  destruct (H Hne) as (_ & H0 & _ & Hq).
  destruct Hq as (Hq & _); [simpl; lia|].
  split; [vm_compute; reflexivity|].
  split; [vm_compute; reflexivity|].
  split; [exact H0|].
  unfold m'. rewrite Hq. vm_compute. reflexivity.
Defined.

(** ** Manual override *)

(** [QualityManager.update] never looks at [autoQuality]. *)
Lemma qm_update_ignores_autoQuality t b qm :
  qm_update t (with_autoQuality b qm) = with_autoQuality b (qm_update t qm).
Proof.
  unfold qm_update. cbn [fpsMonitor with_autoQuality].
  destruct (update t (fpsMonitor qm)) as [m' [q|]]; [|reflexivity].
  unfold applyQuality. destruct (presets !! q); reflexivity.
Qed.

(** C2. The manual override does not stop automatic switching: after
    [setQuality("high")] on a new manager, 60 frames of 25 ms (40 frames
    per second) make [update] apply the medium preset although
    [autoQuality] is still false. *)
Theorem manual_override_not_honoured :
  let qm0 := setQuality "high"
               (new_QualityManager (Some new_PostProcessing) 0) in
  let qm := qm_feed (repeat 25%Q 60) qm0 in
  autoQuality qm0 = false /\ currentPreset qm0 = "high" /\
  autoQuality qm = false /\ currentPreset qm = "medium" /\
  console qm = ["high"; "medium"] /\
  engine_qualityScale qm = 0.75%Q.
Proof. vm_compute. repeat split; reflexivity. Qed.

(** ** The rolling window *)

Lemma checkQuality_window m :
  sampleSize (fst (checkQuality m)) = sampleSize m /\
  samples (fst (checkQuality m)) = samples m /\
  avgFps (fst (checkQuality m)) = avgFps m /\
  lastTime (fst (checkQuality m)) = lastTime m.
Proof.
  unfold checkQuality.
  destruct (framesSinceQualityChange m <? qualityChangeDelay m);
    [repeat split|].
  destruct (str_neq (pick_quality m) (currentQuality m)); repeat split.
Qed.

Lemma push_sample_length size l x :
  (length l <= size)%nat ->
  length (push_sample size l x) = Nat.min size (S (length l)).
Proof.
  intros H. unfold push_sample. rewrite length_app. cbn [length].
  replace (length l + 1)%nat with (S (length l)) by lia.
  destruct (Nat.ltb_spec size (S (length l))).
  - destruct l as [|y l]; cbn [app tl length] in *; [lia|].
    rewrite length_app. cbn [length]. lia.
  - rewrite length_app. cbn [length]. lia.
Qed.

Lemma push_sample_full size l x :
  (1 <= size)%nat -> length l = size ->
  push_sample size l x = tl l ++ [x].
Proof.
  intros H1 H. unfold push_sample. rewrite length_app. cbn [length].
  destruct (Nat.ltb_spec size (length l + 1)); [|lia].
  destruct l; [simpl in H; lia|reflexivity].
Qed.

Lemma sum_from a qs :
  exists r, fold_left add (map Fin qs) (Fin a) = Fin r /\
            (r == a + Qsum qs)%Q.
Proof.
  revert a. induction qs as [|q qs IH]; intros a.
  - exists a. split; [reflexivity|]. simpl. ring.
  - cbn [map fold_left add].
    destruct (IH (Qred (a + q))) as (r & Hr & Hq).
    exists r. split; [exact Hr|].
    rewrite Hq, Qred_correct. simpl. ring.
Qed.

Lemma Qsgn_of_pos n : (0 < n)%nat -> Qsgn (inject_Z (Z.of_nat n)) = Gt.
Proof.
  intros H. unfold Qsgn. apply Qgt_alt.
  replace 0%Q with (inject_Z 0) by reflexivity.
  rewrite <- Zlt_Qlt. lia.
Qed.

(** The mean of finite samples is their sum divided by their number. *)
Lemma mean_Fin qs :
  qs <> [] ->
  eqv (mean (map Fin qs))
      (Fin (Qsum qs / inject_Z (Z.of_nat (length qs)))).
Proof.
  intros Hne. unfold mean, sum.
  destruct (sum_from 0 qs) as (r & Hr & Hq). rewrite Hr.
  rewrite length_map. unfold of_nat. cbn [div].
  rewrite Qsgn_of_pos by (destruct qs; [congruence|simpl; lia]).
  cbn [eqv]. rewrite Qred_correct, Hq. field.
  intros H0.
  assert (Hpos : (0 < inject_Z (Z.of_nat (length qs)))%Q).
  { replace 0%Q with (inject_Z 0) by reflexivity.
    rewrite <- Zlt_Qlt. destruct qs; [congruence|simpl; lia]. }
  rewrite H0 in Hpos. exact (Qlt_irrefl _ Hpos).
Qed.

Lemma fps_of_proper d d' : (d == d')%Q -> fps_of d = fps_of d'.
Proof.
  intros H. unfold fps_of. cbn [div]. unfold Qsgn.
  rewrite H. destruct (d' ?= 0)%Q; try reflexivity;
    f_equal; apply Qred_complete; rewrite H; reflexivity.
Qed.

Lemma fps_of_pos d : (0 < d)%Q -> fps_of d = Fin (Qred (1000 / d)).
Proof.
  intros H. unfold fps_of. cbn [div]. unfold Qsgn.
  apply Qgt_alt in H. rewrite H. reflexivity.
Qed.

Lemma Qsum_repeat q n :
  (Qsum (repeat q n) == inject_Z (Z.of_nat n) * q)%Q.
Proof.
  induction n as [|n IH].
  - simpl. ring.
  - cbn [repeat Qsum fold_right]. fold (Qsum (repeat q n)). rewrite IH.
    rewrite Nat2Z.inj_succ. unfold Z.succ. rewrite inject_Z_plus. ring.
Qed.

(** The mean of [n >= 1] copies of a rational in lowest terms. *)
Lemma mean_repeat q n :
  (0 < n)%nat -> mean (repeat (Fin (Qred q)) n) = Fin (Qred q).
Proof.
  intros Hn. unfold mean, sum.
  replace (repeat (Fin (Qred q)) n) with (map Fin (repeat (Qred q) n))
    by (induction n as [|k IH]; simpl; [reflexivity|]; f_equal;
        destruct k; [reflexivity|apply IH; lia]).
  destruct (sum_from 0 (repeat (Qred q) n)) as (r & Hr & Hq). rewrite Hr.
  rewrite length_map, repeat_length. unfold of_nat. cbn [div].
  rewrite Qsgn_of_pos by exact Hn.
  f_equal. apply Qred_complete.
  rewrite Hq, Qsum_repeat, Qred_correct. field.
  intros H0.
  assert (Hpos : (0 < inject_Z (Z.of_nat n))%Q).
  { replace 0%Q with (inject_Z 0) by reflexivity. rewrite <- Zlt_Qlt. lia. }
  rewrite H0 in Hpos. exact (Qlt_irrefl _ Hpos).
Qed.

Lemma push_sample_repeat size (x : num) k :
  (k <= size)%nat ->
  push_sample size (repeat x k) x = repeat x (Nat.min size (S k)).
Proof.
  intros H. unfold push_sample.
  rewrite <- (repeat_cons k x). change (x :: repeat x k) with (repeat x (S k)).
  rewrite repeat_length.
  destruct (Nat.ltb_spec size (S k)).
  - replace (Nat.min size (S k)) with k by lia. reflexivity.
  - replace (Nat.min size (S k)) with (S k) by lia. reflexivity.
Qed.

Lemma feed_cons_fst d ds m :
  fst (feed (d :: ds) m)
  = fst (feed ds (fst (update (lastTime m + d)%Q m))).
Proof.
  cbn [feed]. destruct (update (lastTime m + d)%Q m) as [m1 ev].
  cbn [fst]. destruct (feed ds m1) as [m2 evs]. reflexivity.
Qed.

Lemma update_window t m :
  let m' := fst (update t m) in
  sampleSize m' = sampleSize m /\
  samples m'
  = push_sample (sampleSize m) (samples m) (fps_of (t - lastTime m)) /\
  avgFps m' = mean (samples m') /\
  lastTime m' = t.
Proof.
  destruct (checkQuality_window (measure t m)) as (W1 & W2 & W3 & W4).
  cbn zeta. unfold update. rewrite W1, W2, W3, W4. repeat split.
Qed.

(** One more frame of [d] milliseconds on a window of [fps_of d]. *)
Lemma update_uniform d m k :
  (0 < d)%Q ->
  samples m = repeat (fps_of d) k ->
  (k <= sampleSize m)%nat -> (0 < sampleSize m)%nat ->
  let m' := fst (update (lastTime m + d)%Q m) in
  sampleSize m' = sampleSize m /\
  samples m' = repeat (fps_of d) (Nat.min (sampleSize m) (S k)) /\
  avgFps m' = fps_of d.
Proof.
  intros Hd Hs Hk Hsz m'.
  destruct (update_window (lastTime m + d)%Q m) as (W1 & W2 & W3 & _).
  fold m' in W1, W2, W3.
  assert (Ef : fps_of (lastTime m + d - lastTime m) = fps_of d)
    by (apply fps_of_proper; ring).
  rewrite Ef, Hs, push_sample_repeat in W2 by exact Hk.
  split; [exact W1|]. split; [exact W2|].
  rewrite W3, W2, (fps_of_pos d Hd). apply mean_repeat. lia.
Qed.

(** Uniform frames of [d] milliseconds fill the window with [fps_of d],
    and the average is [fps_of d]. *)
Lemma feed_uniform d n : forall m k,
  (0 < d)%Q ->
  samples m = repeat (fps_of d) k ->
  (k <= sampleSize m)%nat -> (0 < sampleSize m)%nat ->
  let m' := fst (feed (repeat d n) m) in
  sampleSize m' = sampleSize m /\
  samples m' = repeat (fps_of d) (Nat.min (sampleSize m) (k + n)) /\
  ((0 < n)%nat \/ avgFps m = fps_of d -> avgFps m' = fps_of d).
Proof.
  induction n as [|n IH]; intros m k Hd Hs Hk Hsz.
  - cbn [repeat feed fst]. rewrite Nat.add_0_r, Nat.min_r by exact Hk.
    repeat split; [exact Hs|]. intros [H|H]; [lia|exact H].
  - cbn [repeat]. rewrite feed_cons_fst.
    destruct (update_uniform d m k Hd Hs Hk Hsz) as (U1 & U2 & U3).
    specialize (IH (fst (update (lastTime m + d)%Q m))
                  (Nat.min (sampleSize m) (S k)) Hd U2).
    rewrite U1 in IH. specialize (IH (Nat.le_min_l _ _) Hsz).
    destruct IH as (I1 & I2 & I3).
    split; [exact I1|]. split.
    + rewrite I2. f_equal. lia.
    + intros _. apply I3. right. exact U3.
Qed.

(** C6 (amended). Rolling FPS window: the monitor keeps a window of
    per-frame rates [1000 / duration] of capacity [sampleSize] (60 by
    default).  Every update appends the rate of the new frame, evicts the
    oldest sample when the window was full, leaves at most [sampleSize]
    samples, and reports the arithmetic mean of the rates in the window.
    Uniform frames of 16.67 ms on a new monitor give an average of
    [1000 / 16.67], within 0.1 of 60, and the window holds
    [min sampleSize n] samples after [n] frames. *)
Theorem rolling_fps_window (m : FPSMonitor) (t : Q) (size n : nat) (t0 : Q) :
  (length (samples m) <= sampleSize m)%nat ->
  (1 <= size)%nat -> (1 <= n)%nat ->
  let m' := fst (update t m) in
  let u := fst (feed (repeat 16.67%Q n) (new_FPSMonitor size t0)) in
  default_sampleSize = 60%nat /\
  sampleSize m' = sampleSize m /\
  samples m'
  = push_sample (sampleSize m) (samples m) (fps_of (t - lastTime m)) /\
  length (samples m') = Nat.min (sampleSize m) (S (length (samples m))) /\
  (length (samples m') <= sampleSize m')%nat /\
  ((1 <= sampleSize m)%nat -> length (samples m) = sampleSize m ->
   samples m' = tl (samples m) ++ [fps_of (t - lastTime m)]) /\
  avgFps m' = mean (samples m') /\
  (forall qs, samples m' = map Fin qs -> qs <> [] ->
     eqv (avgFps m') (Fin (Qsum qs / inject_Z (Z.of_nat (length qs))))) /\
  avgFps u = fps_of 16.67 /\
  within (avgFps u) 60 0.1 /\
  length (samples u) = Nat.min size n.
Proof.
  intros Hw Hsize Hn m' u.
  destruct (update_window t m) as (W1 & W2 & W3 & _). fold m' in W1, W2, W3.
  assert (Hlen : length (samples m')
                 = Nat.min (sampleSize m) (S (length (samples m))))
    by (rewrite W2; apply push_sample_length, Hw).
  split; [reflexivity|]. split; [exact W1|]. split; [exact W2|].
  split; [exact Hlen|]. split; [rewrite Hlen, W1; lia|].
  split; [intros H1 Hfull; rewrite W2; apply push_sample_full; assumption|].
  split; [exact W3|].
  split; [intros qs Hqs Hne; rewrite W3, Hqs; apply mean_Fin, Hne|].
  destruct (feed_uniform 16.67%Q n (new_FPSMonitor size t0) 0)
    as (_ & U2 & U3);
    [reflexivity | reflexivity | cbn [sampleSize new_FPSMonitor]; lia
    | cbn [sampleSize new_FPSMonitor]; lia |].
  fold u in U2, U3. cbn [sampleSize new_FPSMonitor] in U2.
  split; [apply U3; left; lia|].
  split; [rewrite U3 by (left; lia); vm_compute; discriminate|].
  rewrite U2, repeat_length. reflexivity.
Qed.

(** A full default window of 60 uniform frames, then one more frame. *)
Lemma rolling_fps_window_witness :
  let m := fst (feed (repeat 16.67%Q 60) (new_FPSMonitor 60 0)) in
  let m' := fst (update (lastTime m + 16.67)%Q m) in
  length (samples m) = 60%nat /\
  length (samples m') = 60%nat /\
  within (avgFps m) 60 0.1.
Proof.
  intros m m'.
  assert (Hw : (length (samples m) <= sampleSize m)%nat)
    by (vm_compute; repeat constructor).
  destruct (rolling_fps_window m (lastTime m + 16.67)%Q 60 60 0 Hw
              ltac:(lia) ltac:(lia))
    as (_ & _ & _ & Hlen & _ & _ & _ & _ & _ & Hin & Hu).
  split; [exact Hu|]. split; [|exact Hin].
  unfold m'. rewrite Hlen. vm_compute. reflexivity.
Defined.

(** C6 as stated fails.  Two frames of 10 ms and 30 ms: the monitor
    reports the mean of the rates 100 and 100/3, that is 200/3, while the
    mean of the two durations, 20 ms, converted to a rate is 50. *)
Lemma rolling_fps_window_counterexample :
  let m := fst (feed [10%Q; 30%Q] (new_FPSMonitor 60 0)) in
  samples m = [fps_of 10; fps_of 30] /\
  avgFps m = Fin (200 # 3) /\
  spec_avgFps [10%Q; 30%Q] = Fin 50 /\
  ~ eqv (avgFps m) (spec_avgFps [10%Q; 30%Q]).
Proof.
  vm_compute. repeat split; try reflexivity. discriminate.
Qed.

End QualityFacts.

(* ===================================================================== *)
(** * Properties of the perturbation effect *)
(* ===================================================================== *)

Section PerturbationFacts.
Import Geometry Perturbation.
Local Open Scope R_scope.

(** An enabled effect shows its stored strength. *)
Lemma reachable_enabled_strength e :
  reachable e -> enabled e = true -> uPerturbStrength e = strength e.
Proof.
  induction 1 as [|c e Hr IH]; [discriminate|].
  destruct c as [p s|s|en|t]; cbn; try exact IH; try reflexivity.
  destruct en; [reflexivity|discriminate].
Qed.

(** C10 (amended). For every effect, [setEnabled(false)] sets the
    uniform [uPerturbStrength] to 0 and keeps the stored strength, and
    [setEnabled(true)] after it sets the uniform to exactly the stored
    strength and leaves the effect enabled.  Disabling then enabling is
    therefore the identity on the uniform exactly when the uniform showed
    the stored strength before.  It did so on every enabled effect
    obtained from the constructor by method calls, and on these the round
    trip is the identity altogether; it did not on an effect of non-zero
    strength that [setEnabled(false)] has disabled, where the round trip
    takes the uniform from 0 to the stored strength. *)
Theorem setEnabled_round_trip (e : PerturbationEffect) :
  uPerturbStrength (setEnabled false e) = 0 /\
  strength (setEnabled false e) = strength e /\
  uPerturbStrength (setEnabled true (setEnabled false e)) = strength e /\
  strength (setEnabled true (setEnabled false e)) = strength e /\
  enabled (setEnabled true (setEnabled false e)) = true /\
  (uPerturbStrength (setEnabled true (setEnabled false e))
   = uPerturbStrength e
   <-> uPerturbStrength e = strength e) /\
  (reachable e -> enabled e = true ->
   uPerturbStrength e = strength e /\
   setEnabled true (setEnabled false e) = e) /\
  (strength e <> 0 ->
   uPerturbStrength (setEnabled false e) = 0 /\
   uPerturbStrength
     (setEnabled true (setEnabled false (setEnabled false e)))
   = strength e /\
   uPerturbStrength
     (setEnabled true (setEnabled false (setEnabled false e)))
   <> uPerturbStrength (setEnabled false e)).
Proof.
  split; [reflexivity|]. split; [reflexivity|]. split; [reflexivity|].
  split; [reflexivity|]. split; [reflexivity|]. split; [|split].
  - cbn. split; intros H; congruence.
  - intros Hr He.
    pose proof (reachable_enabled_strength e Hr He) as Hu.
    split; [exact Hu|].
    destruct e as [en st mp ms ut up um]. cbn in *. subst. reflexivity.
  - intros Hs. split; [reflexivity|]. split; [reflexivity|].
    cbn. exact Hs.
Qed.

(** An effect enabled with strength 0.3: the round trip is the identity;
    once disabled, its uniform is 0 and the round trip makes it 0.3. *)
Lemma setEnabled_round_trip_witness :
  let e := setStrength 0.3 (setEnabled true new_PerturbationEffect) in
  uPerturbStrength (setEnabled true (setEnabled false e)) = 0.3 /\
  setEnabled true (setEnabled false e) = e /\
  uPerturbStrength (setEnabled false e) = 0 /\
  uPerturbStrength
    (setEnabled true (setEnabled false (setEnabled false e)))
  <> uPerturbStrength (setEnabled false e).
Proof.
  intros e.
  destruct (setEnabled_round_trip e)
    as (_ & _ & H1 & _ & _ & _ & H2 & H3).
  assert (Hr : reachable e).
  { apply (reach_call (CSetStrength 0.3)).
    apply (reach_call (CSetEnabled true)), reach_new. }
  assert (Hs : strength e <> 0) by (cbn; lra).
  split; [exact H1|]. split; [apply (H2 Hr eq_refl)|].
  split; [apply (H3 Hs)|apply (H3 Hs)].
Defined.

(** C10 as stated fails on a disabled effect: its uniform is 0 and
    disabling then enabling makes it 0.02. *)
Lemma setEnabled_round_trip_counterexample :
  let e := setEnabled false new_PerturbationEffect in
  reachable e /\
  uPerturbStrength e = 0 /\
  uPerturbStrength (setEnabled true (setEnabled false e)) = 0.02 /\
  uPerturbStrength (setEnabled true (setEnabled false e))
  <> uPerturbStrength e.
Proof.
  cbn. repeat split.
  - apply (reach_call (CSetEnabled false)), reach_new.
  - lra.
Qed.

End PerturbationFacts.

(* ===================================================================== *)
(** * Properties of the pointer tracker *)
(* ===================================================================== *)

Section PointerFacts.
Import Geometry Interaction.
Local Open Scope R_scope.





End PointerFacts.

(* ===================================================================== *)
(** * Properties of the camera transition engine *)
(* ===================================================================== *)

Section CameraFacts.
Import Geometry Interaction.
Local Open Scope R_scope.

Local Arguments calculateFocusDistance : simpl never.
Local Arguments v3_normalize : simpl never.

Ltac run_js :=
  unfold focusOnBody, returnToGlobal, cam_focusOnBody, cam_returnToOverview,
    killAllTweens, setTimeout, call_setPerturbation, gsap_to, deref,
    when, bind, modify, gets, ret, throw; cbn.

Lemma kill_list_next_id ids : forall g,
  next_id (fold_left (fun g id => tween_kill id g) ids g) = next_id g.
Proof.
  induction ids as [|i ids IH]; intros g; [reflexivity|].
  cbn [fold_left]. rewrite IH. reflexivity.
Qed.

Lemma killTweensOf_camera l :
  List.filter on_camera
    (List.filter (fun t => negb (target_eqb (tw_target t) ControlsTarget))
       (List.filter (fun t => negb (target_eqb (tw_target t) CameraPosition))
          l)) = [].
Proof.
  induction l as [|t l IH]; [reflexivity|].
  cbn [List.filter].
  destruct (tw_target t) eqn:E; cbn [target_eqb negb List.filter];
    try exact IH.
  - rewrite E. cbn [target_eqb negb]. exact IH.
  - rewrite E. cbn [target_eqb negb List.filter]. unfold on_camera at 1.
    rewrite E. cbn [target_eqb orb]. exact IH.
Qed.

(** [killAllTweens] leaves no tween on the camera and forgets the
    controller's tweens. *)
Lemma killAllTweens_clears w :
  snd (killAllTweens w) = Returned tt /\
  camera_tweens (fst (killAllTweens w)) = [] /\
  activeTweens (cam (fst (killAllTweens w))) = [] /\
  next_id (gsap (fst (killAllTweens w))) = next_id (gsap w).
Proof.
  run_js. unfold camera_tweens. cbn.
  rewrite killTweensOf_camera, kill_list_next_id. repeat split.
Qed.

Lemma camera_tweens_app w l :
  camera_tweens (set_gsap (mkGsap l (next_id (gsap w))) w)
  = List.filter on_camera l.
Proof. reflexivity. Qed.

(** The engine's [focusOnBody] on a body of the scene. *)
Lemma cam_focusOnBody_Some w r b d :
  bodies w !! r = Some b ->
  exists c' g',
    cam_focusOnBody (Some r) d w = (set_gsap g' (set_cam c' w), Returned tt) /\
    List.filter on_camera (tweens g')
    = [mkTween (next_id (gsap w)) CameraPosition (focusPosition c')
         (now w + d) None;
       mkTween (S (next_id (gsap w))) ControlsTarget (worldPosition b)
         (now w + d) (Some (FocusComplete r))] /\
    activeTweens c' = [next_id (gsap w); S (next_id (gsap w))] /\
    focusBaseDistance c'
    = calculateFocusDistance (cam w) (radius b) default_targetScreenRatio /\
    isTransitioning c' = true /\ focusedBody c' = Some r /\
    mouseViewEnabled c' = false /\ ctl_enabled (controls c') = false.
Proof.
  intros H. run_js. rewrite H. cbn.
  eexists. eexists. split; [reflexivity|]. cbn.
  rewrite !List.filter_app, killTweensOf_camera, kill_list_next_id. cbn.
  repeat split.
Qed.

(** The engine's [focusOnBody] on [null]: the tweens are killed and the
    transition flags set before the [TypeError]. *)
Lemma cam_focusOnBody_None w d :
  snd (cam_focusOnBody None d w) = Threw TypeError /\
  camera_tweens (fst (cam_focusOnBody None d w)) = [] /\
  isTransitioning (cam (fst (cam_focusOnBody None d w))) = true /\
  focusedBody (cam (fst (cam_focusOnBody None d w))) = None /\
  mouseViewEnabled (cam (fst (cam_focusOnBody None d w))) = false.
Proof.
  run_js. unfold camera_tweens. cbn. rewrite killTweensOf_camera.
  repeat split.
Qed.

Lemma cam_returnToOverview_spec w d :
  exists c' g',
    cam_returnToOverview d w = (set_gsap g' (set_cam c' w), Returned tt) /\
    List.filter on_camera (tweens g')
    = [mkTween (next_id (gsap w)) CameraPosition (defaultPosition (cam w))
         (now w + d) None;
       mkTween (S (next_id (gsap w))) ControlsTarget (defaultTarget (cam w))
         (now w + d) (Some OverviewComplete)] /\
    activeTweens c' = [next_id (gsap w); S (next_id (gsap w))] /\
    isTransitioning c' = true /\ focusedBody c' = None /\
    mouseViewEnabled c' = false /\ ctl_enabled (controls c') = false.
Proof.
  run_js. eexists. eexists. split; [reflexivity|]. cbn.
  rewrite !List.filter_app, killTweensOf_camera, kill_list_next_id. cbn.
  repeat split.
Qed.

(** ** Time *)

Lemma fold_left_preserves {A B} (f : A -> B -> A) (P : A -> Prop) l :
  (forall a b, P a -> P (f a b)) -> forall a, P a -> P (fold_left f l a).
Proof.
  intros Hf. induction l as [|b l IH]; intros a Ha; [exact Ha|].
  cbn [fold_left]. apply IH, Hf, Ha.
Qed.

Lemma complete_tween_frame t w : same_but_cam w (complete_tween t w).
Proof.
  unfold complete_tween, run_completion.
  destruct (tw_onComplete t) as [[body|]|]; cbn;
    try destruct (bodies w !! body); repeat split.
Qed.

Lemma complete_tweens_frame l w : same_but_cam w (complete_all l w).
Proof.
  unfold complete_all.
  apply (fold_left_preserves _ (same_but_cam w)).
  - intros a t (H1 & H2 & H3 & H4 & H5 & H6).
    destruct (complete_tween_frame t a) as (G1 & G2 & G3 & G4 & G5 & G6).
    repeat split; congruence.
  - repeat split.
Qed.

Lemma fire_timer_frame cb w : same_but_ic w (fire_timer cb w).
Proof.
  unfold fire_timer, notify_BodySelect, notify_StateChange.
  destruct cb as [body|]; cbn.
  - destruct (decide (selectedBody (ic w) = Some body)); [|repeat split].
    cbn. destruct (onStateChange (ic w)); cbn;
      destruct (onBodySelect (ic w)); repeat split.
  - destruct (onStateChange (ic w)); repeat split.
Qed.

Lemma fire_timers_frame l w : same_but_ic w (fire_all l w).
Proof.
  unfold fire_all.
  apply (fold_left_preserves _ (same_but_ic w)).
  - intros a t (H1 & H2 & H3 & H4 & H5).
    destruct (fire_timer_frame (snd t) a) as (G1 & G2 & G3 & G4 & G5).
    repeat split; congruence.
  - repeat split.
Qed.

(** The registry, the timers and the clock after time has passed. *)
Lemma advance_frame dt w :
  now (advance dt w) = (now w + dt)%Z /\
  bodies (advance dt w) = bodies w /\
  gsap (advance dt w)
  = mkGsap (List.filter (fun tw => negb (tween_due (now w + dt) tw))
              (tweens (gsap w)))
      (next_id (gsap w)) /\
  timers (advance dt w)
  = List.filter (fun tm => negb (timer_due (now w + dt) tm)) (timers w).
Proof.
  unfold advance.
  match goal with
  | |- context [complete_all ?l ?w1] =>
      destruct (complete_tweens_frame l w1) as (C1 & C2 & C3 & C4 & C5 & C6);
      set (w2 := complete_all l w1) in *
  end.
  match goal with
  | |- context [fire_all ?l ?w3] =>
      destruct (fire_timers_frame l w3) as (F1 & F2 & F3 & F4 & F5)
  end.
  cbn in *. rewrite F1, F2, F3, F5, C1, C2, C3, C5. repeat split.
Qed.

Lemma advance_camera_tweens dt w :
  incl (camera_tweens (advance dt w)) (camera_tweens w).
Proof.
  unfold camera_tweens. destruct (advance_frame dt w) as (_ & _ & G & _).
  rewrite G. cbn [tweens]. intros t Ht.
  apply filter_In in Ht. destruct Ht as (Ht & Hc).
  apply filter_In in Ht. destruct Ht as (Ht & _).
  apply filter_In. split; assumption.
Qed.

Lemma advances_camera_tweens dts : forall w,
  incl (camera_tweens (advances dts w)) (camera_tweens w).
Proof.
  induction dts as [|dt dts IH]; intros w; [apply incl_refl|].
  cbn [advances fold_left]. eapply incl_tran; [apply IH|].
  apply advance_camera_tweens.
Qed.

(** ** Cancellation *)

(** C7. Cancellation atomicity: [killAllTweens], which both transitions
    run first, leaves no tween on the camera position or the controls
    target; after [focusOnBody] or [returnToOverview] the tweens on these
    two objects are exactly the two the call has just registered, whatever
    was running before; and as time passes tweens only leave the
    registry.  So the tweens on the camera always belong to the latest
    transition. *)
Theorem transition_cancels_prior_tweens
  (w : World) (r : ref) (b : Body) (d : Z) (dts : list Z) :
  bodies w !! r = Some b ->
  let n := next_id (gsap w) in
  let wf := fst (cam_focusOnBody (Some r) d w) in
  let wo := fst (cam_returnToOverview d w) in
  camera_tweens (fst (killAllTweens w)) = [] /\
  activeTweens (cam (fst (killAllTweens w))) = [] /\
  camera_tweens wf
  = [mkTween n CameraPosition (focusPosition (cam wf)) (now w + d) None;
     mkTween (S n) ControlsTarget (worldPosition b) (now w + d)
       (Some (FocusComplete r))] /\
  activeTweens (cam wf) = [n; S n] /\
  camera_tweens (fst (cam_focusOnBody None d w)) = [] /\
  camera_tweens wo
  = [mkTween n CameraPosition (defaultPosition (cam w)) (now w + d) None;
     mkTween (S n) ControlsTarget (defaultTarget (cam w)) (now w + d)
       (Some OverviewComplete)] /\
  activeTweens (cam wo) = [n; S n] /\
  incl (camera_tweens (advances dts wf)) (camera_tweens wf) /\
  incl (camera_tweens (advances dts wo)) (camera_tweens wo).
Proof.
  intros Hb n wf wo.
  destruct (killAllTweens_clears w) as (_ & K1 & K2 & _).
  destruct (cam_focusOnBody_Some w r b d Hb) as (c1 & g1 & E1 & T1 & A1 & _).
  destruct (cam_returnToOverview_spec w d) as (c2 & g2 & E2 & T2 & A2 & _).
  destruct (cam_focusOnBody_None w d) as (_ & N1 & _).
  subst wf wo. rewrite E1, E2. cbn [fst].
  repeat split; try assumption; try apply advances_camera_tweens.
Qed.

(** Jupiter-sized body 7 while a stray tween still animates the camera
    position: after [focusOnBody] only the two new tweens are on the
    camera. *)
Lemma transition_cancels_prior_tweens_witness :
  let b := mkBody "Jupiter" 6 (mkVec3 60 0 0) (Some (mkPlanetFx 0.1 0.1)) in
  let w0 := new_World (<[7%nat := b]> ∅) 60 in
  let w := set_gsap
             (mkGsap [mkTween 0 CameraPosition (mkVec3 1 2 3) 500 None] 1) w0 in
  map tw_id (camera_tweens (fst (cam_focusOnBody (Some 7%nat) 1200 w)))
  = [1%nat; 2%nat].
Proof.
  intros b w0 w.
  destruct (transition_cancels_prior_tweens w 7%nat b 1200 [] eq_refl)
    as (_ & _ & H & _).
  rewrite H. reflexivity.
Defined.

(** ** Focus distance *)

Lemma sin_5x x :
  sin (5 * x) = 16 * sin x ^ 5 - 20 * sin x ^ 3 + 5 * sin x.
Proof.
  pose proof (sin2_cos2 x) as H. unfold Rsqr in H.
  assert (Hc : cos x * cos x = 1 - sin x * sin x) by lra.
  assert (S2 : sin (2 * x) = 2 * sin x * cos x) by apply sin_2a.
  assert (C2 : cos (2 * x) = 1 - 2 * sin x * sin x) by apply cos_2a_sin.
  assert (S4 : sin (2 * (2 * x)) = 2 * sin (2 * x) * cos (2 * x))
    by apply sin_2a.
  assert (C4 : cos (2 * (2 * x)) = 1 - 2 * sin (2 * x) * sin (2 * x))
    by apply cos_2a_sin.
  replace (5 * x) with (2 * (2 * x) + x) by ring.
  rewrite sin_plus, S4, C4, S2, C2.
  set (s := sin x) in *. set (c := cos x) in *.
  replace (2 * (2 * s * c) * (1 - 2 * s * s) * c)
    with (4 * s * (c * c) * (1 - 2 * s * s)) by ring.
  replace (1 - 2 * (2 * s * c) * (2 * s * c))
    with (1 - 8 * (s * s) * (c * c)) by ring.
  rewrite Hc. ring.
Qed.

(** [sin (PI / 10) = (sqrt 5 - 1) / 4] *)
Lemma sin_PI10 : 4 * sin (PI / 10) + 1 = sqrt 5.
Proof.
  pose proof PI_RGT_0 as Hpi.
  assert (Hs : 0 < sin (PI / 10)) by (apply sin_gt_0; lra).
  assert (Hc : 0 < cos (PI / 10)) by (apply cos_gt_0; lra).
  pose proof (sin2_cos2 (PI / 10)) as H2. unfold Rsqr in H2.
  pose proof (sin_5x (PI / 10)) as H5.
  replace (5 * (PI / 10)) with (PI / 2) in H5 by field.
  rewrite sin_PI2 in H5.
  set (s := sin (PI / 10)) in *. set (c := cos (PI / 10)) in *.
  assert (Hs1 : s < 1) by nra.
  assert (Hq : (s - 1)
               * ((4 * s * s + 2 * s - 1) * (4 * s * s + 2 * s - 1)) = 0)
    by (simpl in H5; lra).
  apply Rmult_integral in Hq. destruct Hq as [Hq|Hq]; [lra|].
  apply Rmult_integral in Hq.
  assert (Hz : 4 * s * s + 2 * s - 1 = 0) by (destruct Hq; assumption).
  symmetry. apply sqrt_lem_1; [lra | lra | nra].
Qed.

(** The square of [tan (PI / 10)] is [1 - 2 / sqrt 5]. *)
Lemma tan_PI10 :
  tan (PI / 10) * tan (PI / 10) = 1 - 2 * sqrt 5 / 5 /\ 0 < tan (PI / 10).
Proof.
  pose proof PI_RGT_0 as Hpi.
  assert (Hs : 0 < sin (PI / 10)) by (apply sin_gt_0; lra).
  assert (Hc : 0 < cos (PI / 10)) by (apply cos_gt_0; lra).
  pose proof (sin2_cos2 (PI / 10)) as H2. unfold Rsqr in H2.
  pose proof sin_PI10 as Hr.
  assert (H5 : sqrt 5 * sqrt 5 = 5) by (apply sqrt_sqrt; lra).
  unfold tan.
  set (s := sin (PI / 10)) in *. set (c := cos (PI / 10)) in *.
  set (r := sqrt 5) in *.
  split; [|apply Rdiv_lt_0_compat; assumption].
  replace (s / c * (s / c)) with ((s * s) / (c * c)) by (field; lra).
  assert (Hcc : c * c = (5 + r) / 8) by nra.
  assert (Hss : s * s = (3 - r) / 8) by nra.
  rewrite Hcc, Hss.
  assert (Hr0 : 0 < r) by lra.
  apply (Rmult_eq_reg_r ((5 + r) / 8)); [|lra].
  replace ((3 - r) / 8 / ((5 + r) / 8) * ((5 + r) / 8)) with ((3 - r) / 8)
    by (field; lra).
  nra.
Qed.

Lemma sqrt5_bounds : 2.2360679 < sqrt 5 < 2.2360680.
Proof.
  assert (H5 : sqrt 5 * sqrt 5 = 5) by (apply sqrt_sqrt; lra).
  assert (H0 : 0 <= sqrt 5) by apply sqrt_pos.
  split; nra.
Qed.

(** The value of the formula for radius 10 and a field of view of 60
    degrees. *)
Lemma focus_distance_10_60 : 40.0098 < 10 / tan (PI / 10) * 1.3 < 40.0099.
Proof.
  destruct tan_PI10 as (Ht2 & Ht).
  pose proof sqrt5_bounds as Hr.
  set (t := tan (PI / 10)) in *. set (r := sqrt 5) in *.
  assert (Hd : 10 / t * 1.3 = 13 / t)
    by (replace 1.3 with (13 / 10) by lra; field; lra).
  rewrite Hd.
  assert (Hlo : 13 / 40.0099 < t).
  { apply Rnot_le_lt. intros Hle.
    assert (t * t <= (13 / 40.0099) * (13 / 40.0099)) by nra. lra. }
  assert (Hhi : t < 13 / 40.0098).
  { apply Rnot_le_lt. intros Hle.
    assert ((13 / 40.0098) * (13 / 40.0098) <= t * t) by nra. lra. }
  split; apply (Rmult_lt_reg_r t); try exact Ht;
    replace (13 / t * t) with 13 by (field; lra); lra.
Qed.

(** C8. Focus-distance formula: for every radius [r] and field of view
    the computed distance is [r / tan(fov_in_radians * 0.6 / 2) * 1.3];
    for [r = 10] and [fov = 60] degrees it is
    [10 / tan(radians(60 * 0.6) / 2) * 1.3] (so within 1e-6 of it), a value
    between 40.0098 and 40.0099; and this is the distance [focusOnBody]
    stores for the body's radius. *)
Theorem focus_distance_formula
  (c : CameraController) (radius_ : R) (w : World) (r : nat) (b : Body)
  (d : Z) :
  fov (camera c) = 60 ->
  bodies w !! r = Some b ->
  (forall c' r', calculateFocusDistance c' r' 0.6
     = r' / tan (degToRad (fov (camera c')) * 0.6 / 2) * 1.3) /\
  calculateFocusDistance c radius_ default_targetScreenRatio
  = radius_ / tan (fov (camera c) * (PI / 180) * 0.6 / 2) * 1.3 /\
  calculateFocusDistance c 10 0.6
  = 10 / tan (degToRad (60 * 0.6) / 2) * 1.3 /\
  Rabs (calculateFocusDistance c 10 0.6
        - 10 / tan (degToRad (60 * 0.6) / 2) * 1.3) <= / 1000000 /\
  40.0098 < calculateFocusDistance c 10 0.6 < 40.0099 /\
  focusBaseDistance (cam (fst (cam_focusOnBody (Some r) d w)))
  = radius b / tan (degToRad (fov (camera (cam w))) * 0.6 / 2) * 1.3.
Proof.
  intros Hfov Hb.
  assert (E : calculateFocusDistance c 10 0.6
              = 10 / tan (degToRad (60 * 0.6) / 2) * 1.3).
  { unfold calculateFocusDistance, degToRad. rewrite Hfov.
    do 2 f_equal. f_equal. unfold DEG2RAD. field. }
  split; [reflexivity|]. split; [reflexivity|]. split; [exact E|].
  split; [rewrite E; unfold Rminus; rewrite Rplus_opp_r, Rabs_R0; lra|].
  split.
  - rewrite E. unfold degToRad, DEG2RAD.
    replace (60 * 0.6 * (PI / 180) / 2) with (PI / 10) by lra.
    exact focus_distance_10_60.
  - destruct (cam_focusOnBody_Some w r b d Hb) as (c1 & g1 & E1 & _ & _ & F & _).
    rewrite E1. cbn [fst cam set_gsap set_cam]. rewrite F. reflexivity.
Qed.

Lemma focus_distance_formula_witness :
  let b := mkBody "Sun" 10 (mkVec3 0 0 0) None in
  let w := new_World (<[0%nat := b]> ∅) 60 in
  focusBaseDistance (cam (fst (cam_focusOnBody (Some 0%nat) 1200 w)))
  = 10 / tan (degToRad 60 * 0.6 / 2) * 1.3 /\
  40.0098 < calculateFocusDistance (cam w) 10 0.6 < 40.0099.
Proof.
  intros b w.
  destruct (focus_distance_formula (cam w) 10 w 0%nat b 1200 eq_refl eq_refl)
    as (_ & _ & _ & _ & H1 & H2).
  split; [exact H2|exact H1].
Defined.

End CameraFacts.

(* ===================================================================== *)
(** * Properties of the interaction state machine *)
(* ===================================================================== *)

Section InteractionFacts.
Import Geometry Interaction.
Local Open Scope R_scope.

Local Arguments calculateFocusDistance : simpl never.
Local Arguments v3_normalize : simpl never.

Ltac run_ic :=
  unfold focusOnBody, returnToGlobal, cam_focusOnBody, cam_returnToOverview,
    killAllTweens, setTimeout, call_setPerturbation, gsap_to, deref,
    when, bind, modify, gets, ret, throw; cbn.

(** ** Focus requests *)

(** [focusOnBody] on a body of the scene. *)
Lemma focusOnBody_Some w r b :
  bodies w !! r = Some b ->
  exists w',
    focusOnBody (Some r) w = (w', Returned tt) /\
    now w' = now w /\
    ic w' = set_state_selected TRANSITION (Some r) (ic w) /\
    bodies w'
    = (if has_setPerturbation b
       then alter (body_setPerturbation true 0.15) r (bodies w)
       else bodies w) /\
    timers w' = timers w ++ [((now w + 1200)%Z, FocusDone r)] /\
    notifications w'
    = notifications w
      ++ (if onStateChange (ic w)
          then [StateChange TRANSITION (Some r)] else []) /\
    cam w' = cam (fst (cam_focusOnBody (Some r) 1200 w)) /\
    gsap w' = gsap (fst (cam_focusOnBody (Some r) 1200 w)).
Proof.
  intros H. run_ic. rewrite H. cbn.
  unfold has_setPerturbation, notify_StateChange.
  destruct (planet b) as [fx|] eqn:Ep; cbn;
    destruct (onStateChange (ic w)) eqn:Ef; cbn;
    rewrite ?lookup_alter_eq, H; cbn;
    eexists; (split; [reflexivity|]); cbn; rewrite ?app_nil_r;
    repeat split.
Qed.

(** [focusOnBody] on [null]: the state and the selection are written,
    then reading [body.setPerturbation] throws. *)
Lemma focusOnBody_None w :
  focusOnBody None w
  = (upd_ic (set_state_selected TRANSITION None) w, Threw TypeError).
Proof. reflexivity. Qed.

(** [returnToGlobal] when the selection, if any, is a body of the scene. *)
Lemma returnToGlobal_spec w :
  (forall r, selectedBody (ic w) = Some r -> is_Some (bodies w !! r)) ->
  exists w',
    returnToGlobal w = (w', Returned tt) /\
    now w' = now w /\
    ic w' = set_state TRANSITION (ic w) /\
    (forall r b, selectedBody (ic w) = Some r -> bodies w !! r = Some b ->
       bodies w' !! r
       = Some (body_setPerturbation false default_perturbation_strength b)) /\
    (forall r, selectedBody (ic w) <> Some r -> bodies w' !! r = bodies w !! r) /\
    timers w' = timers w ++ [((now w + 1200)%Z, ReturnDone)] /\
    notifications w'
    = notifications w
      ++ (if onStateChange (ic w) then [StateChange TRANSITION None] else []) /\
    cam w' = cam (fst (cam_returnToOverview 1200 w)) /\
    gsap w' = gsap (fst (cam_returnToOverview 1200 w)).
Proof.
  intros Hsel. run_ic. unfold notify_StateChange, has_setPerturbation.
  destruct (selectedBody (ic w)) as [r|] eqn:Es; cbn.
  - destruct (Hsel r eq_refl) as [b Hb]. rewrite Hb. cbn.
    destruct (planet b) as [fx|] eqn:Ep; cbn;
      destruct (onStateChange (ic w)) eqn:Ef; cbn;
      eexists; (split; [reflexivity|]); cbn; rewrite ?app_nil_r;
      repeat split;
      first
        [ intros r' b' [= <-] Hb'; rewrite ?lookup_alter_eq, Hb'; cbn;
          try reflexivity;
          rewrite Hb in Hb'; injection Hb' as <-;
          destruct b as [nm rd wp pl]; cbn in *; subst pl; reflexivity
        | intros r' Hne; rewrite ?lookup_alter_ne by congruence; reflexivity ].
  - destruct (onStateChange (ic w)) eqn:Ef; cbn;
      eexists; (split; [reflexivity|]); cbn; rewrite ?app_nil_r;
      repeat split; intros r b [=].
Qed.

(** ** Timers *)

Lemma fire_all_cons tm l w :
  fire_all (tm :: l) w = fire_all l (fire_timer (snd tm) w).
Proof. reflexivity. Qed.

Lemma fire_all_app l1 l2 w :
  fire_all (l1 ++ l2) w = fire_all l2 (fire_all l1 w).
Proof. apply fold_left_app. Qed.

Lemma fire_timer_flags cb w :
  onStateChange (ic (fire_timer cb w)) = onStateChange (ic w) /\
  onBodySelect (ic (fire_timer cb w)) = onBodySelect (ic w).
Proof.
  unfold fire_timer, notify_BodySelect, notify_StateChange.
  destruct cb as [body|]; cbn.
  - destruct (decide (selectedBody (ic w) = Some body)); [|split; reflexivity].
    cbn. destruct (onStateChange (ic w)) eqn:E1; cbn;
      destruct (onBodySelect (ic w)) eqn:E2; cbn; rewrite ?E1, ?E2;
      split; reflexivity.
  - destruct (onStateChange (ic w)) eqn:E1; cbn; rewrite ?E1;
      split; reflexivity.
Qed.

Lemma fire_all_flags l : forall w,
  onStateChange (ic (fire_all l w)) = onStateChange (ic w) /\
  onBodySelect (ic (fire_all l w)) = onBodySelect (ic w).
Proof.
  induction l as [|tm l IH]; intros w; [split; reflexivity|].
  rewrite fire_all_cons. destruct (IH (fire_timer (snd tm) w)) as (I1 & I2).
  destruct (fire_timer_flags (snd tm) w) as (F1 & F2).
  split; congruence.
Qed.


(** The completion of the focus on the selected body commits it. *)
Lemma focus_timer_commits w B :
  selectedBody (ic w) = Some B ->
  let w' := fire_timer (FocusDone B) w in
  state (ic w') = FOCUS /\ selectedBody (ic w') = Some B /\
  notifications w'
  = notifications w
    ++ (if onStateChange (ic w) then [StateChange FOCUS (Some B)] else [])
    ++ (if onBodySelect (ic w) then [BodySelect B] else []).
Proof.
  intros Hs. unfold fire_timer. rewrite decide_True by exact Hs.
  unfold notify_BodySelect, notify_StateChange. cbn.
  destruct (onStateChange (ic w)); cbn; destruct (onBodySelect (ic w)); cbn;
    rewrite ?app_nil_r, <- ?app_assoc; repeat split; exact Hs.
Qed.


(** The timers that fire when time passes act on the interaction state
    and the notifications that were there before. *)
Lemma advance_fires dt w :
  exists w3,
    ic w3 = ic w /\ notifications w3 = notifications w /\
    advance dt w
    = fire_all (List.filter (timer_due (now w + dt)) (timers w)) w3.
Proof.
  unfold advance.
  match goal with
  | |- context [complete_all ?l ?w1] =>
      destruct (complete_tweens_frame l w1) as (C1 & C2 & C3 & C4 & C5 & C6);
      set (w2 := complete_all l w1) in *
  end.
  cbn in C4, C5, C6. rewrite C5.
  eexists. split; [|split; [|reflexivity]]; cbn; assumption.
Qed.

Lemma filter_due_last (l : list (Z * Timer)) t due cb :
  (due <= t)%Z ->
  List.filter (timer_due t) (l ++ [(due, cb)])
  = List.filter (timer_due t) l ++ [(due, cb)].
Proof.
  intros H. rewrite List.filter_app. cbn [List.filter].
  unfold timer_due at 2. cbn [fst].
  apply Z.leb_le in H. rewrite H. reflexivity.
Qed.


Lemma advances_cons dt dts w :
  advances (dt :: dts) w = advances dts (advance dt w).
Proof. reflexivity. Qed.



Lemma last_snoc_keeps {A} (l ns : list A) (x d : A) :
  (ns = [] -> List.last l d = x) -> Forall (fun n => n = x) ns ->
  List.last (l ++ ns) d = x.
Proof.
  intros Hl Hns. destruct ns as [|n ns] using rev_ind.
  - rewrite app_nil_r. apply Hl. reflexivity.
  - rewrite app_assoc, List.last_last.
    apply Forall_app in Hns. destruct Hns as (_ & Hn).
    apply Forall_inv in Hn. exact Hn.
Qed.

(** At rest, pending callbacks change nothing that matters: a stale
    focus completion is discarded and a return completion repeats the
    state change to [GLOBAL]. *)
Lemma fire_timer_idle cb w :
  idle w \/ cb = ReturnDone -> idle (fire_timer cb w).
Proof.
  intros H. destruct cb as [r|].
  - destruct H as [(H1 & H2 & H3)|H]; [|discriminate].
    unfold fire_timer. rewrite decide_False by congruence.
    repeat split; assumption.
  - unfold fire_timer, notify_StateChange. cbn.
    destruct (onStateChange (ic w)) eqn:Ef; cbn; rewrite ?Ef;
      repeat split; cbn; rewrite ?Ef; try discriminate.
    intros _. apply List.last_last.
Qed.

Lemma fire_all_idle l : forall w, idle w -> idle (fire_all l w).
Proof.
  induction l as [|tm l IH]; intros w H; [exact H|].
  rewrite fire_all_cons. apply IH, fire_timer_idle. left. exact H.
Qed.

(** One time step with a return completion pending. *)
Lemma advance_return_step w t dt :
  idle w \/ In (t, ReturnDone) (timers w) ->
  (idle w \/ (t <= now w + dt)%Z -> idle (advance dt w)) /\
  (In (t, ReturnDone) (timers w) -> (now w + dt < t)%Z ->
   In (t, ReturnDone) (timers (advance dt w))).
Proof.
  intros Hp.
  destruct (advance_frame dt w) as (_ & _ & _ & Htm).
  destruct (advance_fires dt w) as (w3 & I3 & N3 & Ea).
  split.
  - intros Hd. rewrite Ea.
    assert (Hidle3 : idle w -> idle w3).
    { unfold idle. rewrite I3, N3. exact (fun H => H). }
    destruct Hp as [Hi|Hin]; [apply fire_all_idle, Hidle3, Hi|].
    destruct Hd as [Hi|Hle]; [apply fire_all_idle, Hidle3, Hi|].
    assert (Hdue : In (t, ReturnDone)
                     (List.filter (timer_due (now w + dt)) (timers w))).
    { apply filter_In. split; [exact Hin|].
      unfold timer_due. cbn [fst]. apply Z.leb_le, Hle. }
    apply in_split in Hdue. destruct Hdue as (l1 & l2 & ->).
    rewrite fire_all_app, fire_all_cons. cbn [snd].
    apply fire_all_idle, fire_timer_idle. right. reflexivity.
  - intros Hin Hlt. rewrite Htm. apply filter_In. split; [exact Hin|].
    unfold timer_due. cbn [fst]. apply negb_true_iff, Z.leb_gt, Hlt.
Qed.

(** Any number of time steps with a return completion pending. *)
Lemma advances_return dts : forall w t,
  idle w \/ (In (t, ReturnDone) (timers w) /\ (now w < t)%Z) ->
  let w' := advances dts w in
  now w' = (now w + Zsum dts)%Z /\
  (idle w' \/ (In (t, ReturnDone) (timers w') /\ (now w' < t)%Z)).
Proof.
  induction dts as [|dt dts IH]; intros w t Hp.
  - cbn. split; [lia|exact Hp].
  - rewrite advances_cons. cbn [Zsum fold_right]. fold (Zsum dts).
    destruct (advance_frame dt w) as (Hnow & _).
    assert (Hp' : idle w \/ In (t, ReturnDone) (timers w))
      by (destruct Hp as [H|(H & _)]; [left|right]; exact H).
    destruct (advance_return_step w t dt Hp') as (S1 & S2).
    assert (Hp1 : idle (advance dt w) \/
                  (In (t, ReturnDone) (timers (advance dt w)) /\
                   (now (advance dt w) < t)%Z)).
    { destruct Hp as [Hi|(Hin & Hlt)]; [left; apply S1; left; exact Hi|].
      destruct (Z.le_gt_cases t (now w + dt)) as [Hle|Hgt].
      - left. apply S1. right. exact Hle.
      - right. split; [apply S2; assumption|lia]. }
    destruct (IH (advance dt w) t Hp1) as (I1 & I2).
    split; [lia|exact I2].
Qed.

Lemma advances_flags dts : forall w,
  onStateChange (ic (advances dts w)) = onStateChange (ic w).
Proof.
  induction dts as [|dt dts IH]; intros w; [reflexivity|].
  rewrite advances_cons, IH.
  destruct (advance_fires dt w) as (w3 & I3 & _ & Ea).
  rewrite Ea. destruct (fire_all_flags
    (List.filter (timer_due (now w + dt)) (timers w)) w3) as (F & _).
  rewrite F, I3. reflexivity.
Qed.

(** ** The order of the timers *)

Lemma focusOnBody_timers body w :
  now (fst (focusOnBody body w)) = now w /\
  (timers (fst (focusOnBody body w)) = timers w \/
   exists cb, timers (fst (focusOnBody body w))
              = timers w ++ [((now w + 1200)%Z, cb)]).
Proof.
  destruct body as [r|]; [|split; [reflexivity|left; reflexivity]].
  destruct (bodies w !! r) as [b|] eqn:Hb.
  - destruct (focusOnBody_Some w r b Hb) as (w' & E & Hn & _ & _ & Ht & _).
    rewrite E. split; [exact Hn|]. right. eexists. exact Ht.
  - run_ic. rewrite Hb. split; [reflexivity|left; reflexivity].
Qed.

Lemma returnToGlobal_timers w :
  now (fst (returnToGlobal w)) = now w /\
  (timers (fst (returnToGlobal w)) = timers w \/
   exists cb, timers (fst (returnToGlobal w))
              = timers w ++ [((now w + 1200)%Z, cb)]).
Proof.
  run_ic. unfold notify_StateChange, has_setPerturbation.
  destruct (selectedBody (ic w)) as [r|]; cbn.
  - destruct (bodies w !! r) as [b|]; cbn;
      [|split; [reflexivity|left; reflexivity]].
    destruct (planet b); cbn; destruct (onStateChange (ic w)); cbn;
      (split; [reflexivity|right; eexists; reflexivity]).
  - destruct (onStateChange (ic w)); cbn;
      (split; [reflexivity|right; eexists; reflexivity]).
Qed.

Lemma timers_in_order_same w w' :
  now w' = now w -> timers w' = timers w ->
  timers_in_order w -> timers_in_order w'.
Proof. unfold timers_in_order. intros -> ->. exact (fun H => H). Qed.

Lemma timers_in_order_snoc w w' cb :
  now w' = now w -> timers w' = timers w ++ [((now w + 1200)%Z, cb)] ->
  timers_in_order w -> timers_in_order w'.
Proof.
  unfold timers_in_order. intros -> -> (Hs & Hb). split.
  - apply StronglySorted_app. split; [|split; [exact Hs|repeat constructor]].
    intros a b Ha Hbb. apply list_elem_of_singleton in Hbb. subst b.
    rewrite Forall_forall in Hb. exact (Hb a Ha).
  - apply Forall_app. split; [exact Hb|]. repeat constructor. cbn. lia.
Qed.

Lemma timers_in_order_step w w' :
  now w' = now w ->
  (timers w' = timers w \/
   exists cb, timers w' = timers w ++ [((now w + 1200)%Z, cb)]) ->
  timers_in_order w -> timers_in_order w'.
Proof.
  intros Hn [Ht|(cb & Ht)].
  - apply timers_in_order_same; assumption.
  - apply (timers_in_order_snoc w w' cb); assumption.
Qed.

Lemma StronglySorted_due_filter f (l : list (Z * Timer)) :
  StronglySorted due_le l -> StronglySorted due_le (List.filter f l).
Proof.
  induction 1 as [|a l Hs IH Ha]; [constructor|].
  cbn [List.filter]. destruct (f a); [|exact IH].
  constructor; [exact IH|].
  apply List.Forall_forall. intros x Hx. apply filter_In in Hx.
  rewrite List.Forall_forall in Ha. apply Ha, Hx.
Qed.

Lemma advance_timers_in_order dt w :
  (0 <= dt)%Z -> timers_in_order w -> timers_in_order (advance dt w).
Proof.
  intros Hdt (Hs & Hb). unfold timers_in_order.
  destruct (advance_frame dt w) as (Hn & _ & _ & Ht). rewrite Hn, Ht.
  split; [apply StronglySorted_due_filter, Hs|].
  apply List.Forall_forall. intros x Hx. apply filter_In in Hx.
  destruct Hx as (Hx & _). rewrite Forall_forall in Hb.
  specialize (Hb x). cbn beta in Hb.
  assert (Hin : x ∈ timers w) by (apply list_elem_of_In; exact Hx).
  specialize (Hb Hin). lia.
Qed.

Lemma handle_timers_in_order e w :
  forward e -> timers_in_order w -> timers_in_order (handle e w).
Proof.
  intros Hf Hw.
  pose proof (focusOnBody_timers) as HF.
  pose proof (returnToGlobal_timers w) as (HRn & HRt).
  destruct e as [hits| |key|body| |dt]; cbn [handle].
  - unfold onClick, bind, gets, ret.
    destruct (state_eqb (state (ic w)) GLOBAL); [|exact Hw].
    destruct hits as [|[[r|]] hits]; try exact Hw.
    destruct (HF (Some r) w) as (Hn & Ht).
    apply (timers_in_order_step w); assumption.
  - unfold onContextMenu, bind, gets, ret.
    destruct (state_eqb (state (ic w)) FOCUS); [|exact Hw].
    apply (timers_in_order_step w); assumption.
  - unfold onKeyDown, bind, gets, ret.
    destruct (String.eqb key "Escape"); [|exact Hw].
    destruct (state_eqb (state (ic w)) FOCUS
              || state_eqb (state (ic w)) TRANSITION); [|exact Hw].
    apply (timers_in_order_step w); assumption.
  - destruct (HF body w) as (Hn & Ht).
    apply (timers_in_order_step w); assumption.
  - apply (timers_in_order_step w); assumption.
  - apply advance_timers_in_order; assumption.
Qed.

(** In every run from a new scene the pending timers stay in the order of
    their due times. *)
Lemma run_timers_in_order es : forall w,
  Forall forward es -> timers_in_order w -> timers_in_order (run_events es w).
Proof.
  induction es as [|e es IH]; intros w Hf Hw; [exact Hw|].
  apply Forall_cons in Hf. destruct Hf as (He & Hes).
  cbn [run_events fold_left]. apply IH; [exact Hes|].
  apply handle_timers_in_order; assumption.
Qed.

Lemma new_World_timers_in_order h camera_fov :
  timers_in_order (new_World h camera_fov).
Proof. split; constructor. Qed.

(** ** Clicks *)

(** A click reaches [focusOnBody] only in the overview; in the other
    states, and when nothing or a mesh without a body is hit, it does
    nothing. *)
Lemma onClick_cases w hits r :
  (state (ic w) = GLOBAL ->
   onClick (mkHit (Some r) :: hits) w = focusOnBody (Some r) w) /\
  (state (ic w) <> GLOBAL -> onClick (mkHit (Some r) :: hits) w = (w, Returned tt)) /\
  onClick [] w = (w, Returned tt) /\
  onClick (mkHit None :: hits) w = (w, Returned tt).
Proof.
  unfold onClick, bind, gets, ret.
  destruct (state (ic w)); cbn; repeat split; congruence.
Qed.

(** ** Null body *)

(** C3 (amended). Calling the focus operation with a null or absent body
    throws a [TypeError] in every state, no notification fires, and the
    perturbation effects, the camera transition engine, the timers and the
    clock are unchanged; but the interaction state has already been set to
    [TRANSITION] and the selected body to null.  The click handler never
    calls it with an absent body.  The engine's own [focusOnBody] on null
    likewise throws after it has killed the running tweens and raised its
    transition flag. *)
Theorem focus_on_null_body (w : World) (hits : list Hit) (d : Z) :
  let w' := fst (focusOnBody None w) in
  let wc := fst (cam_focusOnBody None d w) in
  snd (focusOnBody None w) = Threw TypeError /\
  ic w' = set_state_selected TRANSITION None (ic w) /\
  state (ic w') = TRANSITION /\ selectedBody (ic w') = None /\
  bodies w' = bodies w /\ cam w' = cam w /\ gsap w' = gsap w /\
  timers w' = timers w /\ notifications w' = notifications w /\
  now w' = now w /\
  onClick [] w = (w, Returned tt) /\
  onClick (mkHit None :: hits) w = (w, Returned tt) /\
  snd (cam_focusOnBody None d w) = Threw TypeError /\
  isTransitioning (cam wc) = true /\ focusedBody (cam wc) = None /\
  camera_tweens wc = [] /\ ic wc = ic w /\ bodies wc = bodies w.
Proof.
  destruct (onClick_cases w hits 0%nat) as (_ & _ & K1 & K2).
  destruct (cam_focusOnBody_None w d) as (N1 & N2 & N3 & N4 & _).
  cbn zeta. rewrite focusOnBody_None. cbn [fst snd].
  repeat split; assumption.
Qed.

(** C3 as stated fails: in the overview of a new scene, focusing on null
    leaves the controller in [TRANSITION]. *)
Lemma focus_on_null_body_counterexample :
  let w := new_World ∅ 60 in
  state (ic w) = GLOBAL /\
  state (ic (fst (focusOnBody None w))) = TRANSITION /\
  ic (fst (focusOnBody None w)) <> ic w.
Proof.
  cbn. repeat split. discriminate.
Qed.

(** ** Return to the overview *)

(** C4 (amended). In the Focused state a right-click, and in the Focused
    or the Transitioning state the Escape key, run [returnToGlobal]: the
    selected body's perturbation is set to 0, the state becomes
    [TRANSITION] with a state-changed notification, the camera engine's
    [returnToOverview] runs, and once 1.2 s have passed (in any number of
    steps, without further input) the state is [GLOBAL] with no
    selection, the last notification being the state change to [GLOBAL].
    A right-click in the Transitioning state does nothing. *)
Theorem return_on_cancel (w : World) (dts : list Z) :
  (forall r, selectedBody (ic w) = Some r -> is_Some (bodies w !! r)) ->
  state (ic w) = FOCUS \/ state (ic w) = TRANSITION ->
  (1200 <= Zsum dts)%Z ->
  let w' := fst (returnToGlobal w) in
  let w'' := advances dts w' in
  onKeyDown "Escape" w = returnToGlobal w /\
  (state (ic w) = FOCUS -> onContextMenu w = returnToGlobal w) /\
  (state (ic w) = TRANSITION -> onContextMenu w = (w, Returned tt)) /\
  snd (returnToGlobal w) = Returned tt /\
  (forall r b, selectedBody (ic w) = Some r -> bodies w !! r = Some b ->
     exists b', bodies w' !! r = Some b' /\
       forall fx, planet b' = Some fx ->
         perturbStrength fx = 0 /\ fx_uPerturbStrength fx = 0) /\
  state (ic w') = TRANSITION /\
  notifications w'
  = notifications w
    ++ (if onStateChange (ic w) then [StateChange TRANSITION None] else []) /\
  cam w' = cam (fst (cam_returnToOverview 1200 w)) /\
  gsap w' = gsap (fst (cam_returnToOverview 1200 w)) /\
  timers w' = timers w ++ [((now w + 1200)%Z, ReturnDone)] /\
  state (ic w'') = GLOBAL /\ selectedBody (ic w'') = None /\
  (onStateChange (ic w) = true ->
   List.last (notifications w'') (BodyHover None) = StateChange GLOBAL None).
Proof.
  intros Hsel Hst Hdt. cbn zeta.
  destruct (returnToGlobal_spec w Hsel)
    as (w' & E & Hnow & Hic & Hb & _ & Htm & Hn & Hcam & Hg).
  split.
  { unfold onKeyDown, bind, gets. cbn.
    destruct Hst as [-> | ->]; reflexivity. }
  split.
  { intros H. unfold onContextMenu, bind, gets. rewrite H. reflexivity. }
  split.
  { intros H. unfold onContextMenu, bind, gets. rewrite H. reflexivity. }
  rewrite E. cbn [fst snd].
  split; [reflexivity|].
  split.
  { intros r b Hs Hr. rewrite (Hb r b Hs Hr). eexists. split; [reflexivity|].
    cbn. destruct (planet b); cbn; intros fx [= <-]. split; reflexivity. }
  split; [rewrite Hic; reflexivity|].
  split; [exact Hn|]. split; [exact Hcam|]. split; [exact Hg|].
  split; [exact Htm|].
  destruct (advances_return dts w' (now w + 1200)%Z) as (Hnow'' & Hfin).
  { right. split; [|lia]. rewrite Htm. apply in_or_app. right. left.
    reflexivity. }
  destruct Hfin as [(I1 & I2 & I3)|(_ & Hlt)]; [|lia].
  split; [exact I1|]. split; [exact I2|].
  intros Hflag. apply I3. rewrite advances_flags, Hic. exact Hflag.
Qed.

(** Focused on body 7 with the callbacks installed, then Escape. *)
Lemma return_on_cancel_witness :
  let b := mkBody "Jupiter" 6 (mkVec3 60 0 0) (Some (mkPlanetFx 0.15 0.15)) in
  let w := upd_ic (set_state_selected FOCUS (Some 7%nat))
             (install_callbacks true false true
                (new_World (<[7%nat := b]> ∅) 60)) in
  let w' := fst (onKeyDown "Escape" w) in
  state (ic w') = TRANSITION /\
  state (ic (advances [700; 500]%Z w')) = GLOBAL /\
  selectedBody (ic (advances [700; 500]%Z w')) = None /\
  List.last (notifications (advances [700; 500]%Z w')) (BodyHover None)
  = StateChange GLOBAL None.
Proof.
  intros b w w'.
  assert (Hsel : forall r, selectedBody (ic w) = Some r ->
                           is_Some (bodies w !! r)).
  { intros r [= <-]. exists b. apply lookup_insert_eq. }
  destruct (return_on_cancel w [700; 500]%Z Hsel (or_introl eq_refl)
              ltac:(cbn; lia))
    as (K & _ & _ & _ & _ & S1 & _ & _ & _ & _ & S2 & S3 & S4).
  unfold w'. rewrite K.
  split; [exact S1|]. split; [exact S2|]. split; [exact S3|].
  apply S4. reflexivity.
Defined.

(** C4 as stated fails for a right-click during a transition.  A body is
    being focused (state [TRANSITION]); the right-click changes nothing,
    and 1.2 s later the state is [FOCUS], not [GLOBAL], with the body's
    perturbation still at 0.15. *)
Lemma return_on_cancel_counterexample :
  let b := mkBody "Jupiter" 6 (mkVec3 60 0 0) (Some (mkPlanetFx 0.1 0.1)) in
  let w0 := install_callbacks true false true
              (new_World (<[7%nat := b]> ∅) 60) in
  let w := fst (focusOnBody (Some 7%nat) w0) in
  state (ic w) = TRANSITION /\
  onContextMenu w = (w, Returned tt) /\
  state (ic (advance 1200 (fst (onContextMenu w)))) = FOCUS /\
  bodies (advance 1200 (fst (onContextMenu w))) !! 7%nat
  = Some (mkBody "Jupiter" 6 (mkVec3 60 0 0) (Some (mkPlanetFx 0.15 0.15))).
Proof.
  intros b w0 w.
  destruct (focusOnBody_Some w0 7%nat b (lookup_insert_eq _ _ _))
    as (wf & E & Hnow & Hic & Hb & Htm & _).
  assert (Ew : w = wf) by (unfold w; rewrite E; reflexivity).
  clearbody w. subst w. clear E.
  assert (Hs : state (ic wf) = TRANSITION) by (rewrite Hic; reflexivity).
  assert (Hc : onContextMenu wf = (wf, Returned tt))
    by (unfold onContextMenu, bind, gets; rewrite Hs; reflexivity).
  split; [exact Hs|]. split; [exact Hc|]. rewrite Hc. cbn [fst].
  destruct (advance_frame 1200 wf) as (_ & Hbod & _).
  destruct (advance_fires 1200 wf) as (w3 & I3 & _ & Ea).
  split.
  - rewrite Ea, Htm, Hnow. rewrite filter_due_last by lia.
    rewrite fire_all_app. change (timers w0) with (@nil (Z * Timer)).
    cbn [List.filter fire_all fold_left snd].
    apply focus_timer_commits. rewrite I3, Hic. reflexivity.
  - rewrite Hbod, Hb.
    change (has_setPerturbation b) with true. cbn iota.
    rewrite lookup_alter_eq.
    change (bodies w0) with (<[7%nat := b]> (∅ : gmap nat Body)).
    rewrite lookup_insert_eq. reflexivity.
Qed.

(** ** Superseded focus *)











End InteractionFacts.

(* ===================================================================== *)
(** * Runs of the quality loop *)
(* ===================================================================== *)

Section QualityRunFacts.
Import JsNum Quality QualityRuns.

Lemma lastn_length {A} n (l : list A) : (length (lastn n l) <= n)%nat.
Proof. unfold lastn. rewrite length_skipn. lia. Qed.

Lemma lastn_all {A} n (l : list A) : (length l <= n)%nat -> lastn n l = l.
Proof.
  intros H. unfold lastn.
  replace (length l - n)%nat with 0%nat by lia. reflexivity.
Qed.

Lemma lastn_app_lastn {A} n (a b : list A) :
  lastn n (lastn n a ++ b) = lastn n (a ++ b).
Proof.
  unfold lastn. rewrite !length_app, length_skipn.
  destruct (Nat.le_gt_cases (length a) n) as [Hle|Hgt].
  - replace (length a - n)%nat with 0%nat by lia. cbn [skipn].
    f_equal. lia.
  - replace (length a - (length a - n) + length b - n)%nat
      with (length b) by lia.
    replace (length a + length b - n)%nat
      with (length b + (length a - n))%nat by lia.
    rewrite <- List.skipn_skipn, (List.skipn_app (length a - n) a b).
    replace (length a - n - length a)%nat with 0%nat by lia.
    reflexivity.
Qed.

Lemma push_sample_lastn size (l : list num) x :
  (length l <= size)%nat -> push_sample size l x = lastn size (l ++ [x]).
Proof.
  intros H. unfold push_sample, lastn. rewrite length_app. cbn [length].
  destruct (Nat.ltb_spec size (length l + 1)).
  - replace (length l + 1 - size)%nat with 1%nat by lia.
    destruct l; reflexivity.
  - replace (length l + 1 - size)%nat with 0%nat by lia. reflexivity.
Qed.

Lemma feed_nil_fst m : fst (feed [] m) = m.
Proof. reflexivity. Qed.

(** The window after any frames, from a window within its capacity. *)
Lemma feed_samples ds : forall m,
  (length (samples m) <= sampleSize m)%nat ->
  sampleSize (fst (feed ds m)) = sampleSize m /\
  samples (fst (feed ds m))
  = lastn (sampleSize m) (samples m ++ map fps_of ds) /\
  (ds <> [] -> avgFps (fst (feed ds m)) = mean (samples (fst (feed ds m)))).
Proof.
  induction ds as [|d ds IH]; intros m Hm.
  - rewrite feed_nil_fst. cbn [map]. rewrite app_nil_r, lastn_all by exact Hm.
    repeat split. congruence.
  - rewrite feed_cons_fst.
    destruct (update_window (lastTime m + d)%Q m) as (W1 & W2 & W3 & _).
    set (m1 := fst (update (lastTime m + d)%Q m)) in *.
    assert (Ef : fps_of (lastTime m + d - lastTime m) = fps_of d)
      by (apply fps_of_proper; ring).
    rewrite Ef, push_sample_lastn in W2 by exact Hm.
    assert (Hm1 : (length (samples m1) <= sampleSize m1)%nat)
      by (rewrite W1, W2; apply lastn_length).
    destruct (IH m1 Hm1) as (I1 & I2 & I3).
    split; [congruence|]. split.
    + rewrite I2, W1, W2, lastn_app_lastn, <- app_assoc. reflexivity.
    + intros _. destruct ds as [|d' ds]; [exact W3|].
      apply I3. discriminate.
Qed.

(** X1. The rolling window after any sequence of frames: the monitor's
    window holds the rates [1000 / d] of the last [sampleSize] frames
    (of all of them while fewer have been seen), oldest first, it never
    holds more than [sampleSize] samples, and the reported average is the
    mean of exactly these.  A new monitor's window is the last
    [sampleSize] rates of the frames fed to it. *)
Theorem window_is_last_rates (m : FPSMonitor) (ds : list Q) (size : nat) (t0 : Q) :
  (length (samples m) <= sampleSize m)%nat ->
  let m' := fst (feed ds m) in
  samples m' = lastn (sampleSize m) (samples m ++ map fps_of ds) /\
  (length (samples m') <= sampleSize m)%nat /\
  (ds <> [] -> avgFps m' = mean (samples m')) /\
  samples (fst (feed ds (new_FPSMonitor size t0)))
  = lastn size (map fps_of ds).
Proof.
  intros Hm. cbn zeta.
  destruct (feed_samples ds m Hm) as (_ & F2 & F3).
  split; [exact F2|]. split; [rewrite F2; apply lastn_length|].
  split; [exact F3|].
  destruct (feed_samples ds (new_FPSMonitor size t0)) as (_ & G2 & _);
    [cbn; lia|].
  exact G2.
Qed.

(** A window of capacity 2 holding the rate 50, then frames of 10, 20 and
    40 ms: the window holds the rates 50 and 25 of the last two. *)
Lemma window_is_last_rates_witness :
  let m := fst (feed [20%Q] (new_FPSMonitor 2 0)) in
  samples (fst (feed [10%Q; 20%Q; 40%Q] m)) = [Fin 50; Fin 25].
Proof.
  intros m.
  assert (Hm : (length (samples m) <= sampleSize m)%nat)
    by (vm_compute; repeat constructor).
  destruct (window_is_last_rates m [10%Q; 20%Q; 40%Q] 2 0 Hm) as (H & _).
  rewrite H. vm_compute. reflexivity.
Defined.

(** ** The manager follows the monitor *)

Lemma pick_quality_cases m :
  pick_quality m = currentQuality m \/ In (pick_quality m) levels.
Proof.
  unfold pick_quality, levels.
  destruct (geb _ _ && str_neq _ "high"); [right; cbn; auto|].
  destruct (ltb _ _ && str_neq _ "low"); [right; cbn; auto|].
  destruct (geb _ _ && ltb _ _ && str_neq _ "medium");
    [right; cbn; auto|left; reflexivity].
Qed.

(** What a callback made by [update] reports, and what the absence of a
    callback means when one is installed. *)
Lemma update_event t m :
  onQualityChange (fst (update t m)) = onQualityChange m /\
  match snd (update t m) with
  | Some q => In q levels /\ currentQuality (fst (update t m)) = q
  | None =>
      onQualityChange m = true ->
      currentQuality (fst (update t m)) = currentQuality m
  end.
Proof.
  unfold update, checkQuality.
  change (onQualityChange m) with (onQualityChange (measure t m)).
  change (currentQuality m) with (currentQuality (measure t m)).
  set (m1 := measure t m).
  destruct (framesSinceQualityChange m1 <? qualityChangeDelay m1);
    [cbn; split; [reflexivity|intros _; reflexivity]|].
  destruct (str_neq (pick_quality m1) (currentQuality m1)) eqn:N;
    [|cbn; split; [reflexivity|intros _; reflexivity]].
  cbn [fst snd onQualityChange currentQuality].
  split; [reflexivity|].
  destruct (onQualityChange m1); [|discriminate].
  split; [|reflexivity].
  apply str_neq_true in N.
  destruct (pick_quality_cases m1) as [H|H]; [congruence|exact H].
Qed.

Lemma presets_levels q :
  In q levels -> exists p, presets !! q = Some p /\
    (setQualityScale (resolutionScale p) == resolutionScale p)%Q.
Proof.
  intros [<-|[<-|[<-|[]]]]; eexists; (split; [reflexivity|]);
    vm_compute; reflexivity.
Qed.

Lemma applyQuality_applied q qm :
  In q levels ->
  applied q (applyQuality q qm) /\
  fpsMonitor (applyQuality q qm) = fpsMonitor qm /\
  console (applyQuality q qm) = console qm ++ [q].
Proof.
  intros Hq. destruct (presets_levels q Hq) as (p & Hp & Hs).
  unfold applyQuality. rewrite Hp. cbn.
  split; [|split; reflexivity].
  split; [reflexivity|]. exists p. split; [exact Hp|]. cbn.
  split; [exact Hs|].
  destruct (postProcessing qm) as [pp|]; [|exact I].
  unfold bloom_as.
  destruct (bloomEnabled p) eqn:Eb; cbn; destruct (bloomPass pp); cbn;
    repeat split; congruence.
Qed.

Lemma feed_cons_snd d ds m :
  snd (feed (d :: ds) m)
  = match snd (update (lastTime m + d)%Q m) with
    | Some q => [q]
    | None => []
    end ++ snd (feed ds (fst (update (lastTime m + d)%Q m))).
Proof.
  cbn [feed]. destruct (update (lastTime m + d)%Q m) as [m1 ev].
  cbn [fst snd]. destruct (feed ds m1) as [m2 evs].
  destruct ev; reflexivity.
Qed.

(** One frame of a manager that shows its monitor's level. *)
Lemma qm_update_follows t qm :
  onQualityChange (fpsMonitor qm) = true ->
  In (currentQuality (fpsMonitor qm)) levels ->
  applied (currentQuality (fpsMonitor qm)) qm ->
  let qm' := qm_update t qm in
  fpsMonitor qm' = fst (update t (fpsMonitor qm)) /\
  console qm'
  = console qm ++ match snd (update t (fpsMonitor qm)) with
                  | Some q => [q]
                  | None => []
                  end /\
  onQualityChange (fpsMonitor qm') = true /\
  In (currentQuality (fpsMonitor qm')) levels /\
  applied (currentQuality (fpsMonitor qm')) qm'.
Proof.
  intros Hf Hl Ha. cbn zeta. unfold qm_update.
  destruct (update_event t (fpsMonitor qm)) as (Hflag & Hev).
  destruct (update t (fpsMonitor qm)) as [m' [q|]]; cbn [fst snd] in *.
  - destruct Hev as (Hq & Hc).
    destruct (applyQuality_applied q (with_fpsMonitor m' qm) Hq)
      as (A1 & A2 & A3).
    rewrite A2, A3. cbn [fpsMonitor with_fpsMonitor console].
    rewrite Hc.
    split; [reflexivity|]. split; [reflexivity|].
    split; [congruence|]. split; assumption.
  - cbn [fpsMonitor with_fpsMonitor console]. rewrite app_nil_r.
    rewrite (Hev Hf).
    split; [reflexivity|]. split; [reflexivity|].
    split; [congruence|]. split; [exact Hl|].
    destruct Ha as (Hc & p & Hp & Hs & Hb).
    split; [exact Hc|]. exists p.
    split; [exact Hp|]. split; [exact Hs|exact Hb].
Qed.

Lemma qm_feed_follows ds : forall qm,
  onQualityChange (fpsMonitor qm) = true ->
  In (currentQuality (fpsMonitor qm)) levels ->
  applied (currentQuality (fpsMonitor qm)) qm ->
  let qm' := qm_feed ds qm in
  fpsMonitor qm' = fst (feed ds (fpsMonitor qm)) /\
  console qm' = console qm ++ snd (feed ds (fpsMonitor qm)) /\
  In (currentQuality (fpsMonitor qm')) levels /\
  applied (currentQuality (fpsMonitor qm')) qm'.
Proof.
  induction ds as [|d ds IH]; intros qm Hf Hl Ha.
  - cbn. rewrite app_nil_r.
    split; [reflexivity|]. split; [reflexivity|]. split; assumption.
  - cbn [qm_feed].
    destruct (qm_update_follows (lastTime (fpsMonitor qm) + d)%Q qm Hf Hl Ha)
      as (U1 & U2 & U3 & U4 & U5).
    destruct (IH _ U3 U4 U5) as (I1 & I2 & I3 & I4).
    rewrite feed_cons_fst, feed_cons_snd.
    split; [rewrite I1, U1; reflexivity|].
    split; [rewrite I2, U1, U2, <- app_assoc; reflexivity|].
    split; assumption.
Qed.

(** X2. Automatic quality, from construction on: after any sequence of
    frames the manager's monitor is the monitor fed with these frames, the
    console shows exactly the levels the monitor reported, in order, and
    the manager shows the monitor's current level: that level is one of
    high, medium and low, it is the current preset, the engine's
    resolution scale is the preset's (the clamp of [setQualityScale] never
    alters it) and the bloom pass is switched, and set up, as the preset
    asks. *)
Theorem auto_quality_follows_monitor (ds : list Q) (t0 : Q) :
  let qm0 := new_QualityManager (Some new_PostProcessing) t0 in
  let qm := qm_feed ds qm0 in
  fpsMonitor qm = fst (feed ds (fpsMonitor qm0)) /\
  console qm = snd (feed ds (fpsMonitor qm0)) /\
  In (currentQuality (fpsMonitor qm)) levels /\
  applied (currentQuality (fpsMonitor qm)) qm.
Proof.
  cbn zeta.
  apply (qm_feed_follows ds (new_QualityManager (Some new_PostProcessing) t0)).
  - reflexivity.
  - left. reflexivity.
  - split; [reflexivity|]. eexists. split; [reflexivity|].
    split; [reflexivity|]. cbn. repeat split.
Qed.

(** ** Degenerate windows *)

Lemma update_fps t m : fps (fst (update t m)) = fps_of (t - lastTime m).
Proof.
  unfold update, checkQuality.
  destruct (framesSinceQualityChange (measure t m)
            <? qualityChangeDelay (measure t m)); [reflexivity|].
  destruct (str_neq (pick_quality (measure t m))
              (currentQuality (measure t m))); reflexivity.
Qed.

(** With an average that is not a number no comparison holds, and the
    level stays. *)
Lemma checkQuality_NaN m :
  avgFps m = NaN -> checkQuality m = (m, None).
Proof.
  intros H. unfold checkQuality, pick_quality. rewrite H. cbn [geb ltb andb].
  destruct (framesSinceQualityChange m <? qualityChangeDelay m);
    [reflexivity|].
  replace (str_neq (currentQuality m) (currentQuality m)) with false
    by (symmetry; apply str_neq_false; reflexivity).
  reflexivity.
Qed.

Lemma update_zero_capacity t m :
  sampleSize m = 0%nat -> samples m = [] ->
  update t m = (measure t m, None) /\
  samples (measure t m) = [] /\ avgFps (measure t m) = NaN.
Proof.
  intros Hs Hl.
  assert (Hw : samples (measure t m) = [])
    by (cbn; rewrite Hs, Hl; reflexivity).
  assert (Ha : avgFps (measure t m) = NaN).
  { change (avgFps (measure t m))
      with (div (sum (samples (measure t m)))
              (of_nat (length (samples (measure t m))))).
    rewrite Hw. reflexivity. }
  split; [apply checkQuality_NaN, Ha|]. split; assumption.
Qed.

(** X3. A monitor of capacity 0 never changes level: every sample is
    pushed and shifted out again, the average of the empty window is
    [0 / 0], not a number, no threshold comparison holds, and so, at any
    frame rate and however long it runs, the level stays and no callback
    is made. *)
Theorem zero_capacity_never_switches (m : FPSMonitor) (ds : list Q) :
  sampleSize m = 0%nat -> samples m = [] ->
  let m' := fst (feed ds m) in
  samples m' = [] /\
  (ds <> [] -> avgFps m' = NaN) /\
  currentQuality m' = currentQuality m /\
  snd (feed ds m) = [].
Proof.
  revert m. induction ds as [|d ds IH]; intros m Hs Hl.
  - cbn. repeat split; [exact Hl|congruence].
  - cbn zeta. rewrite feed_cons_fst, feed_cons_snd.
    destruct (update_zero_capacity (lastTime m + d)%Q m Hs Hl)
      as (U & Uw & Ua).
    rewrite U. cbn [fst snd app].
    destruct (IH (measure (lastTime m + d)%Q m)) as (I1 & I2 & I3 & I4);
      [exact Hs|exact Uw|].
    split; [exact I1|]. split; [|split; [exact I3|exact I4]].
    intros _. destruct ds as [|d' ds]; [exact Ua|].
    apply I2. discriminate.
Qed.

(** A new monitor of capacity 0 fed 100 frames of 100 ms (10 frames per
    second) is still at level high. *)
Lemma zero_capacity_never_switches_witness :
  currentQuality (fst (feed (repeat 100%Q 100) (new_FPSMonitor 0 0))) = "high" /\
  snd (feed (repeat 100%Q 100) (new_FPSMonitor 0 0)) = [].
Proof.
  destruct (zero_capacity_never_switches (new_FPSMonitor 0 0)
              (repeat 100%Q 100) eq_refl eq_refl) as (_ & _ & H1 & H2).
  split; [exact H1|exact H2].
Defined.

Lemma rate_ok_fps_of d : rate_ok (fps_of d).
Proof.
  unfold fps_of. cbn [div]. destruct (Qsgn d); exact I.
Qed.

Lemma sum_rate_ok_PInf l :
  Forall rate_ok l -> fold_left add l PInf = PInf.
Proof.
  induction 1 as [|x l Hx Hl IH]; [reflexivity|].
  cbn [fold_left]. destruct x; try destruct Hx; exact IH.
Qed.

Lemma sum_hits_PInf l : forall a,
  Forall rate_ok l -> In PInf l -> fold_left add l (Fin a) = PInf.
Proof.
  induction l as [|x l IH]; intros a Hl Hin; [destruct Hin|].
  apply Forall_cons in Hl. destruct Hl as (Hx & Hl).
  cbn [fold_left]. destruct x as [q| | |]; try destruct Hx.
  - cbn [add]. apply IH; [exact Hl|].
    destruct Hin as [Hin|Hin]; [discriminate|exact Hin].
  - cbn [add]. apply sum_rate_ok_PInf, Hl.
Qed.

Lemma mean_hits_PInf l :
  Forall rate_ok l -> In PInf l -> mean l = PInf.
Proof.
  intros Hl Hin. unfold mean, sum. rewrite sum_hits_PInf by assumption.
  unfold of_nat. cbn [div].
  destruct (Qsgn (inject_Z (Z.of_nat (length l)))) eqn:E; try reflexivity.
  unfold Qsgn in E. apply Qlt_alt in E.
  replace 0%Q with (inject_Z 0) in E by reflexivity.
  rewrite <- Zlt_Qlt in E. lia.
Qed.

Lemma Forall_lastn {A} (P : A -> Prop) n l :
  Forall P l -> Forall P (lastn n l).
Proof.
  intros H. unfold lastn. apply List.Forall_forall. intros x Hx.
  rewrite List.Forall_forall in H. apply H.
  rewrite <- (firstn_skipn (length l - n) l). apply in_or_app. right. exact Hx.
Qed.

Lemma In_lastn {A} n (a b : list A) x :
  (length b < n)%nat -> In x (lastn n (a ++ x :: b)).
Proof.
  intros H. unfold lastn. rewrite length_app. cbn [length].
  rewrite (List.skipn_app (length a + S (length b) - n) a (x :: b)).
  replace (length a + S (length b) - n - length a)%nat with 0%nat by lia.
  apply in_or_app. right. left. reflexivity.
Qed.

(** X4. A frame of zero duration (two updates at the same clock reading)
    has the rate [1000 / 0], that is [+Infinity], and, as long as it is in
    the window, that is for the next [sampleSize - 1] frames whatever
    their durations, the reported average is [+Infinity]. *)
Theorem zero_duration_frame_pins_average (m : FPSMonitor) (ds : list Q) :
  (1 <= sampleSize m)%nat ->
  (length (samples m) <= sampleSize m)%nat ->
  Forall rate_ok (samples m) ->
  (length ds < sampleSize m)%nat ->
  let m1 := fst (update (lastTime m) m) in
  fps m1 = PInf /\ avgFps m1 = PInf /\
  avgFps (fst (feed ds m1)) = PInf.
Proof.
  intros Hsz Hlen Hok Hds. cbn zeta.
  destruct (update_window (lastTime m) m) as (W1 & W2 & W3 & _).
  set (m1 := fst (update (lastTime m) m)) in *.
  assert (Ez : fps_of (lastTime m - lastTime m) = PInf).
  { rewrite (fps_of_proper _ 0) by ring. reflexivity. }
  rewrite Ez, push_sample_lastn in W2 by exact Hlen.
  assert (Hok1 : Forall rate_ok (samples m ++ [PInf]))
    by (apply Forall_app; split; [exact Hok|repeat constructor]).
  assert (Havg1 : avgFps m1 = PInf).
  { rewrite W3, W2. apply mean_hits_PInf; [apply Forall_lastn, Hok1|].
    apply In_lastn. cbn. lia. }
  split; [unfold m1; rewrite update_fps; exact Ez|].
  split; [exact Havg1|].
  destruct ds as [|d ds]; [exact Havg1|].
  assert (Hm1 : (length (samples m1) <= sampleSize m1)%nat)
    by (rewrite W1, W2; apply lastn_length).
  destruct (feed_samples (d :: ds) m1 Hm1) as (_ & F2 & F3).
  rewrite F3 by discriminate. rewrite F2, W1, W2, lastn_app_lastn.
  rewrite <- app_assoc. cbn [app].
  apply mean_hits_PInf.
  - apply Forall_lastn, Forall_app. split; [exact Hok|].
    constructor; [exact I|].
    apply List.Forall_forall. intros x Hx. apply in_map_iff in Hx.
    destruct Hx as (d' & <- & _). apply rate_ok_fps_of.
  - apply In_lastn. rewrite length_map. exact Hds.
Qed.

(** A default monitor after 60 frames of 20 ms: a repeated clock reading
    and then 59 frames of 100 ms leave the average at [+Infinity]. *)
Lemma zero_duration_frame_pins_average_witness :
  let m := fst (feed (repeat 20%Q 60) (new_FPSMonitor 60 0)) in
  let m1 := fst (update (lastTime m) m) in
  avgFps m = Fin 50 /\
  avgFps (fst (feed (repeat 100%Q 59) m1)) = PInf.
Proof.
  intros m m1. split; [vm_compute; reflexivity|].
  refine (proj2 (proj2 (zero_duration_frame_pins_average m
                          (repeat 100%Q 59) _ _ _ _))).
  - vm_compute. lia.
  - vm_compute. lia.
  - vm_compute. repeat constructor.
  - vm_compute. lia.
Defined.

(** ** A manual preset and the monitor's level *)

Lemma fast_cases x :
  fast x -> x = PInf \/ exists q, x = Fin q /\ (55 <= q)%Q.
Proof.
  unfold fast. destruct x as [q| | |]; cbn [geb]; intros H;
    try discriminate; [right|left; reflexivity].
  exists q. split; [reflexivity|apply Qle_bool_iff, H].
Qed.

Lemma sum_fast_PInf l : Forall fast l -> fold_left add l PInf = PInf.
Proof.
  induction 1 as [|x l Hx Hl IH]; [reflexivity|].
  cbn [fold_left].
  destruct (fast_cases x Hx) as [->|(q & -> & _)]; exact IH.
Qed.

Lemma sum_fast l : forall a k,
  Forall fast l ->
  (55 * inject_Z (Z.of_nat k) <= a)%Q ->
  fold_left add l (Fin a) = PInf \/
  exists r, fold_left add l (Fin a) = Fin r /\
            (55 * inject_Z (Z.of_nat (k + length l)) <= r)%Q.
Proof.
  induction l as [|x l IH]; intros a k Hl Ha.
  - right. exists a. split; [reflexivity|].
    cbn [length]. rewrite Nat.add_0_r. exact Ha.
  - apply Forall_cons in Hl. destruct Hl as (Hx & Hl).
    cbn [fold_left].
    destruct (fast_cases x Hx) as [->|(q & -> & Hq)].
    + left. cbn [add]. apply sum_fast_PInf, Hl.
    + cbn [add]. cbn [length].
      replace (k + S (length l))%nat with (S k + length l)%nat by lia.
      apply IH; [exact Hl|].
      rewrite Qred_correct, Nat2Z.inj_succ. unfold Z.succ.
      rewrite inject_Z_plus.
      assert (E : (55 * (inject_Z (Z.of_nat k) + inject_Z 1)
                   == 55 * inject_Z (Z.of_nat k) + 55)%Q) by ring.
      rewrite E. apply Qplus_le_compat; assumption.
Qed.

(** The mean of rates in the high band is in the high band. *)
Lemma mean_fast l : l <> [] -> Forall fast l -> fast (mean l).
Proof.
  intros Hne Hl. unfold mean, sum.
  assert (Hpos : (0 < inject_Z (Z.of_nat (length l)))%Q).
  { replace 0%Q with (inject_Z 0) by reflexivity. rewrite <- Zlt_Qlt.
    destruct l; [congruence|cbn; lia]. }
  assert (Hsgn : Qsgn (inject_Z (Z.of_nat (length l))) = Gt)
    by (apply Qgt_alt, Hpos).
  destruct (sum_fast l 0 0 Hl) as [E|(r & E & Hr)].
  - cbn. discriminate.
  - rewrite E. unfold of_nat. cbn [div]. rewrite Hsgn. reflexivity.
  - rewrite E. unfold of_nat, fast. cbn [div]. rewrite Hsgn. cbn [geb].
    apply Qle_bool_iff. rewrite Qred_correct.
    apply Qle_shift_div_l; [exact Hpos|]. exact Hr.
Qed.

Lemma Forall_push_sample (P : num -> Prop) size l x :
  Forall P l -> P x -> Forall P (push_sample size l x).
Proof.
  intros Hl Hx. unfold push_sample.
  assert (H : Forall P (l ++ [x]))
    by (apply Forall_app; split; [exact Hl|repeat constructor; exact Hx]).
  destruct (size <? length (l ++ [x]))%nat; [|exact H].
  destruct (l ++ [x]) as [|y l']; [exact H|].
  apply Forall_cons in H. apply H.
Qed.

(** At level high with an average in the high band, or with none, the
    level check changes nothing. *)
Lemma checkQuality_high m :
  constructed m -> currentQuality m = "high" ->
  fast (avgFps m) \/ avgFps m = NaN ->
  checkQuality m = (m, None).
Proof.
  intros (Hh & Hl & _) Hc [Hf|Hn]; [|apply checkQuality_NaN, Hn].
  unfold checkQuality.
  destruct (framesSinceQualityChange m <? qualityChangeDelay m);
    [reflexivity|].
  assert (Hp : pick_quality m = currentQuality m).
  { unfold pick_quality. rewrite Hh, Hl, Hc. unfold fast in Hf. rewrite Hf.
    assert (L30 : ltb (avgFps m) (Fin 30) = false).
    { destruct (ltb (avgFps m) (Fin 30)) eqn:L; [|reflexivity].
      apply ltb_30_not_geb_55 in L. congruence. }
    assert (L55 : ltb (avgFps m) (Fin 55) = false).
    { destruct (ltb (avgFps m) (Fin 55)) eqn:L; [|reflexivity].
      apply ltb_not_geb in L. congruence. }
    rewrite L30, L55. cbn. rewrite andb_false_r. reflexivity. }
  rewrite Hp.
  replace (str_neq (currentQuality m) (currentQuality m)) with false
    by (symmetry; apply str_neq_false; reflexivity).
  reflexivity.
Qed.

Lemma update_high t m :
  constructed m -> currentQuality m = "high" ->
  Forall fast (samples m) -> fast (fps_of (t - lastTime m)) ->
  update t m = (measure t m, None) /\
  Forall fast (samples (measure t m)).
Proof.
  intros Hc Hq Hs Hx.
  assert (Hs' : Forall fast (samples (measure t m)))
    by (apply Forall_push_sample; assumption).
  split; [|exact Hs'].
  apply checkQuality_high; [exact Hc|exact Hq|].
  change (avgFps (measure t m)) with (mean (samples (measure t m))).
  destruct (samples (measure t m)) as [|y l] eqn:E; [right; reflexivity|].
  left. apply mean_fast; [discriminate|exact Hs'].
Qed.

Lemma feed_high ds : forall m,
  constructed m -> currentQuality m = "high" ->
  Forall fast (samples m) -> Forall (fun d => fast (fps_of d)) ds ->
  snd (feed ds m) = [] /\ currentQuality (fst (feed ds m)) = "high".
Proof.
  induction ds as [|d ds IH]; intros m Hc Hq Hs Hds.
  - split; [reflexivity|exact Hq].
  - apply Forall_cons in Hds. destruct Hds as (Hd & Hds).
    rewrite feed_cons_fst, feed_cons_snd.
    destruct (update_high (lastTime m + d)%Q m Hc Hq Hs) as (U & Us).
    { rewrite (fps_of_proper _ d) by ring. exact Hd. }
    rewrite U. cbn [fst snd app].
    apply IH; [exact Hc|exact Hq|exact Us|exact Hds].
Qed.

(** Without a callback from the monitor the manager only stores the new
    monitor. *)
Lemma qm_feed_quiet ds : forall qm,
  snd (feed ds (fpsMonitor qm)) = [] ->
  qm_feed ds qm = with_fpsMonitor (fst (feed ds (fpsMonitor qm))) qm.
Proof.
  induction ds as [|d ds IH]; intros qm H.
  - destruct qm; reflexivity.
  - rewrite feed_cons_snd in H. apply app_eq_nil in H. destruct H as (H1 & H2).
    rewrite feed_cons_fst. cbn [qm_feed]. unfold qm_update.
    destruct (update (lastTime (fpsMonitor qm) + d)%Q (fpsMonitor qm))
      as [m1 ev]. cbn [fst snd] in *.
    destruct ev; [discriminate|].
    rewrite IH by exact H2. reflexivity.
Qed.

Lemma presets_low :
  presets !! "low" = Some (mkPreset 0.5%Q false 0%Q 32).
Proof. reflexivity. Qed.

(** X5. A manual preset is out of step with the monitor.  [setQuality]
    changes the manager's preset but not the monitor's level; so when the
    monitor is at level high and low is chosen by hand, then, for as long
    as the frames stay in the high band (at least 55 frames per second),
    the monitor sees no change of level, makes no callback, and the
    manager stays at low, also after [enableAutoQuality]: automatic
    quality does not bring the level back to the measured one. *)
Theorem manual_low_not_raised (qm : QualityManager) (ds : list Q) :
  constructed (fpsMonitor qm) ->
  currentQuality (fpsMonitor qm) = "high" ->
  Forall fast (samples (fpsMonitor qm)) ->
  Forall (fun d => fast (fps_of d)) ds ->
  let qm1 := qm_feed ds (setQuality "low" qm) in
  let qm2 := qm_feed ds (enableAutoQuality (setQuality "low" qm)) in
  currentPreset qm1 = "low" /\ currentPreset qm2 = "low" /\
  autoQuality qm2 = true /\
  currentQuality (fpsMonitor qm1) = "high" /\
  currentQuality (fpsMonitor qm2) = "high" /\
  console qm1 = console qm ++ ["low"] /\
  console qm2 = console qm ++ ["low"] /\
  (engine_qualityScale qm2 == 0.5)%Q.
Proof.
  intros Hc Hq Hs Hds. cbn zeta.
  destruct (feed_high ds (fpsMonitor qm) Hc Hq Hs Hds) as (Hev & Hlev).
  rewrite !qm_feed_quiet by exact Hev.
  cbn [with_fpsMonitor enableAutoQuality with_autoQuality
       fpsMonitor currentPreset autoQuality console engine_qualityScale].
  assert (E : fpsMonitor (setQuality "low" qm) = fpsMonitor qm).
  { unfold setQuality, applyQuality. rewrite presets_low. reflexivity. }
  rewrite E, Hlev.
  unfold setQuality, applyQuality. rewrite presets_low.
  cbn [with_autoQuality fpsMonitor currentPreset autoQuality console
       engine_qualityScale resolutionScale].
  repeat split.
Qed.

(** A new manager after 60 frames of 10 ms, set to low by hand, automatic
    quality enabled again, then 200 more frames of 10 ms (100 frames per
    second): still low. *)
Lemma manual_low_not_raised_witness :
  let qm := qm_feed (repeat 10%Q 60)
              (new_QualityManager (Some new_PostProcessing) 0) in
  currentPreset qm = "high" /\
  currentPreset
    (qm_feed (repeat 10%Q 200) (enableAutoQuality (setQuality "low" qm)))
  = "low".
Proof.
  intros qm. split; [vm_compute; reflexivity|].
  refine (proj1 (proj2 (manual_low_not_raised qm (repeat 10%Q 200) _ _ _ _))).
  - vm_compute. repeat split.
  - vm_compute. reflexivity.
  - vm_compute. repeat constructor.
  - apply Forall_forall. intros d Hd.
    apply list_elem_of_In, repeat_spec in Hd. subst d.
    vm_compute. reflexivity.
Defined.

End QualityRunFacts.

(* ===================================================================== *)
(** * More on the perturbation effect *)
(* ===================================================================== *)

Section PerturbationRunFacts.
Import Geometry Perturbation.
Local Open Scope R_scope.

(** X6. What the uniforms of an effect show, for every effect obtained
    from [new PerturbationEffect()] by method calls: the speed uniform is
    the stored mouse speed, and the strength uniform is the stored
    strength or, on a disabled effect, 0.  A disabled effect need not show
    0: a new effect is disabled and shows 0.02, and [setStrength(s)] on a
    disabled effect makes it show [s]. *)
Theorem reachable_uniforms (e : PerturbationEffect) (s : R) :
  reachable e ->
  uMouseSpeed e = mouseSpeed e /\
  (uPerturbStrength e = strength e \/
   (enabled e = false /\ uPerturbStrength e = 0)) /\
  (enabled new_PerturbationEffect = false /\
   uPerturbStrength new_PerturbationEffect = 0.02) /\
  reachable (setStrength s (setEnabled false e)) /\
  enabled (setStrength s (setEnabled false e)) = false /\
  uPerturbStrength (setStrength s (setEnabled false e)) = s.
Proof.
  intros Hr.
  assert (H : uMouseSpeed e = mouseSpeed e /\
              (uPerturbStrength e = strength e \/
               (enabled e = false /\ uPerturbStrength e = 0))).
  { induction Hr as [|c e Hr (IH1 & IH2)].
    - split; [reflexivity|left; reflexivity].
    - destruct c as [p sp|st|en|t]; cbn; split;
        try exact IH1; try exact IH2; try reflexivity.
      + left. reflexivity.
      + destruct en; [left; reflexivity|right; split; reflexivity]. }
  destruct H as (H1 & H2).
  split; [exact H1|]. split; [exact H2|].
  split; [split; reflexivity|].
  split; [|split; reflexivity].
  apply (reach_call (CSetStrength s)), (reach_call (CSetEnabled false)), Hr.
Qed.

(** A new effect, disabled and given the strength 0.3, shows 0.3. *)
Lemma reachable_uniforms_witness :
  let e := setStrength 0.3 (setEnabled false new_PerturbationEffect) in
  reachable e /\ enabled e = false /\ uPerturbStrength e = 0.3.
Proof.
  intros e.
  exact (proj2 (proj2 (proj2 (reachable_uniforms new_PerturbationEffect 0.3
                                reach_new)))).
Defined.

End PerturbationRunFacts.

(* ===================================================================== *)
(** * Runs of the interaction *)
(* ===================================================================== *)

Section InteractionRunFacts.
Import Geometry Interaction MouseView InteractionRuns.
Local Open Scope R_scope.

Local Arguments calculateFocusDistance : simpl never.
Local Arguments v3_normalize : simpl never.

Ltac run_methods :=
  unfold focusOnBody, returnToGlobal, cam_focusOnBody, cam_returnToOverview,
    killAllTweens, setTimeout, call_setPerturbation, gsap_to, deref,
    when, bind, modify, gets, ret, throw; cbn.

(** ** The state and the selection *)

Lemma fits_transition w :
  state (ic w) = TRANSITION -> selection_fits_state w.
Proof. intros H. split; rewrite H; discriminate. Qed.

Lemma focusOnBody_state body w :
  state (ic (fst (focusOnBody body w))) = TRANSITION.
Proof.
  destruct body as [r|]; [|reflexivity].
  destruct (bodies w !! r) as [b|] eqn:Hb.
  - destruct (focusOnBody_Some w r b Hb) as (w' & E & _ & Hic & _).
    rewrite E. cbn [fst]. rewrite Hic. reflexivity.
  - run_methods. rewrite Hb. reflexivity.
Qed.

Lemma returnToGlobal_state w :
  fst (returnToGlobal w) = w \/
  state (ic (fst (returnToGlobal w))) = TRANSITION.
Proof.
  destruct (selectedBody (ic w)) as [r|] eqn:Es.
  - destruct (bodies w !! r) as [b|] eqn:Hb.
    + destruct (returnToGlobal_spec w) as (w' & E & _ & Hic & _).
      { intros r' Hr'. rewrite Es in Hr'. injection Hr' as <-.
        rewrite Hb. eexists. reflexivity. }
      right. rewrite E. cbn [fst]. rewrite Hic. reflexivity.
    + left. run_methods. rewrite Es. cbn. rewrite Hb. reflexivity.
  - destruct (returnToGlobal_spec w) as (w' & E & _ & Hic & _).
    { intros r' Hr'. rewrite Es in Hr'. discriminate. }
    right. rewrite E. cbn [fst]. rewrite Hic. reflexivity.
Qed.

Lemma fire_timer_fits cb w :
  selection_fits_state w -> selection_fits_state (fire_timer cb w).
Proof.
  intros H. destruct cb as [B|].
  - unfold fire_timer.
    destruct (decide (selectedBody (ic w) = Some B)) as [Hs|Hs]; [|exact H].
    destruct (focus_timer_commits w B Hs) as (C1 & C2 & _).
    unfold fire_timer in C1, C2. rewrite decide_True in C1, C2 by exact Hs.
    split; rewrite C1, C2; [discriminate|intros _; eexists; reflexivity].
  - unfold fire_timer, notify_StateChange.
    destruct (onStateChange (ic (upd_ic (set_state_selected GLOBAL None) w)));
      split; cbn; try reflexivity; discriminate.
Qed.

Lemma fire_all_fits l : forall w,
  selection_fits_state w -> selection_fits_state (fire_all l w).
Proof.
  induction l as [|tm l IH]; intros w H; [exact H|].
  rewrite fire_all_cons. apply IH, fire_timer_fits, H.
Qed.

Lemma advance_fits dt w :
  selection_fits_state w -> selection_fits_state (advance dt w).
Proof.
  intros H. destruct (advance_fires dt w) as (w3 & I3 & _ & Ea).
  rewrite Ea. apply fire_all_fits.
  unfold selection_fits_state. rewrite I3. exact H.
Qed.

Lemma handle_fits e w :
  selection_fits_state w -> selection_fits_state (handle e w).
Proof.
  intros H.
  assert (HR : selection_fits_state (fst (returnToGlobal w))).
  { destruct (returnToGlobal_state w) as [E|E];
      [rewrite E; exact H|apply fits_transition, E]. }
  destruct e as [hits| |key|body| |dt]; cbn [handle].
  - unfold onClick, bind, gets, ret.
    destruct (state_eqb (state (ic w)) GLOBAL); [|exact H].
    destruct hits as [|[[r|]] hits]; try exact H.
    apply fits_transition, focusOnBody_state.
  - unfold onContextMenu, bind, gets, ret.
    destruct (state_eqb (state (ic w)) FOCUS); [exact HR|exact H].
  - unfold onKeyDown, bind, gets, ret.
    destruct (String.eqb key "Escape"); [|exact H].
    destruct (state_eqb (state (ic w)) FOCUS
              || state_eqb (state (ic w)) TRANSITION); [exact HR|exact H].
  - apply fits_transition, focusOnBody_state.
  - exact HR.
  - apply advance_fits, H.
Qed.

Lemma run_fits es : forall w,
  selection_fits_state w -> selection_fits_state (run_events es w).
Proof.
  induction es as [|e es IH]; intros w H; [exact H|].
  cbn [run_events fold_left]. apply IH, handle_fits, H.
Qed.

(** X7. The state and the selection fit together in every run: whatever
    clicks, right-clicks, keys, direct calls of [focusOnBody] (also with
    no body) and [returnToGlobal] and passages of time follow the
    construction, in the state [GLOBAL] no body is selected and in the
    state [FOCUS] one is. *)
Theorem selection_fits_state_in_runs
  (es : list Event) (h : gmap nat Body) (camera_fov : R) (sc bs bh : bool) :
  let w := run_events es (install_callbacks sc bs bh (new_World h camera_fov)) in
  (state (ic w) = GLOBAL -> selectedBody (ic w) = None) /\
  (state (ic w) = FOCUS -> is_Some (selectedBody (ic w))).
Proof.
  cbn zeta. apply run_fits. split; [reflexivity|discriminate].
Qed.

(** X8. The pending timers keep the order of their due times in every
    run in which time does not run backwards, and none is due later than
    1.2 s from now: the callbacks of [setTimeout] fire in the order in
    which [focusOnBody] and [returnToGlobal] registered them. *)
Theorem timers_in_order_in_runs
  (es : list Event) (h : gmap nat Body) (camera_fov : R) (sc bs bh : bool) :
  Forall forward es ->
  let w := run_events es (install_callbacks sc bs bh (new_World h camera_fov)) in
  StronglySorted due_le (timers w) /\
  Forall (fun tm => (fst tm <= now w + 1200)%Z) (timers w).
Proof.
  intros Hf. cbn zeta. apply run_timers_in_order; [exact Hf|].
  split; constructor.
Qed.

(** A click on body 7, 500 ms, Escape, 100 ms: the focus completion is
    due before the return completion. *)
Lemma timers_in_order_in_runs_witness :
  let b := mkBody "Mars" 2 (mkVec3 65 0 0) (Some (mkPlanetFx 0.1 0.1)) in
  let es := [Click [mkHit (Some 7%nat)]; Elapse 500; KeyDown "Escape";
             Elapse 100] in
  let w := run_events es
             (install_callbacks true true true
                (new_World (<[7%nat := b]> ∅) 60)) in
  StronglySorted due_le (timers w).
Proof.
  intros b es w.
  refine (proj1 (timers_in_order_in_runs es (<[7%nat := b]> ∅) 60
                   true true true _)).
  repeat constructor; cbn; lia.
Defined.

(** ** The flags of the camera engine *)

Lemma Forall_filter_keeps {A} (P : A -> Prop) f (l : list A) :
  Forall P l -> Forall P (List.filter f l).
Proof.
  intros H. apply List.Forall_forall. intros x Hx.
  apply filter_In in Hx. destruct Hx as (Hx & _).
  rewrite List.Forall_forall in H. apply H, Hx.
Qed.

Lemma kill_list_on_camera ids : forall g,
  Forall (fun t => on_camera t = true) (tweens g) ->
  Forall (fun t => on_camera t = true)
    (tweens (fold_left (fun g id => tween_kill id g) ids g)).
Proof.
  induction ids as [|i ids IH]; intros g H; [exact H|].
  cbn [fold_left]. apply IH. unfold tween_kill. cbn [tweens].
  apply Forall_filter_keeps, H.
Qed.

Lemma killTweensOf_both l :
  Forall (fun t => on_camera t = true) l ->
  List.filter (fun t => negb (target_eqb (tw_target t) ControlsTarget))
    (List.filter (fun t => negb (target_eqb (tw_target t) CameraPosition)) l)
  = [].
Proof.
  induction 1 as [|t l Ht Hl IH]; [reflexivity|].
  cbn [List.filter]. unfold on_camera in Ht.
  destruct (tw_target t) eqn:E; cbn [target_eqb negb orb List.filter] in *;
    try exact IH; [|discriminate].
  rewrite E. cbn [target_eqb negb]. exact IH.
Qed.

(** The engine's [focusOnBody] when every running tween is on the
    camera: the two new tweens are the only ones left. *)
Lemma cam_focusOnBody_tweens w r b d :
  bodies w !! r = Some b ->
  Forall (fun t => on_camera t = true) (tweens (gsap w)) ->
  exists c' g',
    cam_focusOnBody (Some r) d w = (set_gsap g' (set_cam c' w), Returned tt) /\
    tweens g'
    = [mkTween (next_id (gsap w)) CameraPosition (focusPosition c')
         (now w + d) None;
       mkTween (S (next_id (gsap w))) ControlsTarget (worldPosition b)
         (now w + d) (Some (FocusComplete r))] /\
    isTransitioning c' = true /\ focusedBody c' = Some r /\
    mouseViewEnabled c' = false /\ ctl_enabled (controls c') = false.
Proof.
  intros H Hall. run_methods. rewrite H. cbn.
  eexists. eexists. split; [reflexivity|]. cbn.
  rewrite killTweensOf_both by (apply kill_list_on_camera, Hall).
  rewrite kill_list_next_id. cbn. repeat split.
Qed.

Lemma cam_returnToOverview_tweens w d :
  Forall (fun t => on_camera t = true) (tweens (gsap w)) ->
  exists c' g',
    cam_returnToOverview d w = (set_gsap g' (set_cam c' w), Returned tt) /\
    tweens g'
    = [mkTween (next_id (gsap w)) CameraPosition (defaultPosition (cam w))
         (now w + d) None;
       mkTween (S (next_id (gsap w))) ControlsTarget (defaultTarget (cam w))
         (now w + d) (Some OverviewComplete)] /\
    isTransitioning c' = true /\ focusedBody c' = None /\
    mouseViewEnabled c' = false /\ ctl_enabled (controls c') = false.
Proof.
  intros Hall. run_methods.
  eexists. eexists. split; [reflexivity|]. cbn.
  rewrite killTweensOf_both by (apply kill_list_on_camera, Hall).
  rewrite kill_list_next_id. cbn. repeat split.
Qed.

Lemma camera_flags_fit_ext w w' :
  cam w' = cam w -> gsap w' = gsap w ->
  camera_flags_fit w -> camera_flags_fit w'.
Proof. unfold camera_flags_fit. intros -> ->. exact (fun H => H). Qed.

Lemma camera_flags_on_camera w :
  camera_flags_fit w -> Forall (fun t => on_camera t = true) (tweens (gsap w)).
Proof.
  intros (_ & H). eapply List.Forall_impl; [|exact H].
  intros t (Ht & _). exact Ht.
Qed.

Lemma focusOnBody_flags body w :
  camera_flags_fit w -> camera_flags_fit (fst (focusOnBody body w)).
Proof.
  intros H. destruct body as [r|];
    [|apply (camera_flags_fit_ext w); [reflexivity|reflexivity|exact H]].
  destruct (bodies w !! r) as [b|] eqn:Hb.
  - destruct (focusOnBody_Some w r b Hb)
      as (w' & E & _ & _ & _ & _ & _ & Hcam & Hg).
    destruct (cam_focusOnBody_tweens w r b 1200 Hb (camera_flags_on_camera w H))
      as (c' & g' & Ec & Ht & F1 & F2 & F3 & F4).
    rewrite E. cbn [fst]. rewrite Ec in Hcam, Hg. cbn in Hcam, Hg.
    unfold camera_flags_fit, flags_fit, tween_fits. rewrite Hcam, Hg, Ht.
    split; [split|].
    + rewrite F1, F4. reflexivity.
    + rewrite F3. discriminate.
    + repeat constructor; cbn; intros b' [=]. subst b'. exact F2.
  - apply (camera_flags_fit_ext w); [| |exact H];
      run_methods; rewrite Hb; reflexivity.
Qed.

Lemma returnToGlobal_flags w :
  camera_flags_fit w -> camera_flags_fit (fst (returnToGlobal w)).
Proof.
  intros H.
  assert (Hgood : (forall r, selectedBody (ic w) = Some r ->
                             is_Some (bodies w !! r)) ->
                  camera_flags_fit (fst (returnToGlobal w))).
  { intros Hsel.
    destruct (returnToGlobal_spec w Hsel)
      as (w' & E & _ & _ & _ & _ & _ & _ & Hcam & Hg).
    destruct (cam_returnToOverview_tweens w 1200 (camera_flags_on_camera w H))
      as (c' & g' & Ec & Ht & F1 & F2 & F3 & F4).
    rewrite E. cbn [fst]. rewrite Ec in Hcam, Hg. cbn in Hcam, Hg.
    unfold camera_flags_fit, flags_fit, tween_fits. rewrite Hcam, Hg, Ht.
    split; [split|].
    - rewrite F1, F4. reflexivity.
    - rewrite F3. discriminate.
    - repeat constructor; cbn; intros b' [=]. }
  destruct (selectedBody (ic w)) as [r|] eqn:Es.
  - destruct (bodies w !! r) as [b|] eqn:Hb.
    + apply Hgood. intros r' [= <-]. rewrite Hb. eexists. reflexivity.
    + apply (camera_flags_fit_ext w); [| |exact H];
        run_methods; rewrite Es; cbn; rewrite Hb; reflexivity.
  - apply Hgood. intros r' [=].
Qed.

Lemma tween_fits_ext c c' tw :
  focusedBody c' = focusedBody c -> tween_fits c tw -> tween_fits c' tw.
Proof. unfold tween_fits. intros ->. exact (fun H => H). Qed.

(** A completing tween of the latest transition keeps the flags
    together and the focused body. *)
Lemma complete_tween_flags tw w :
  flags_fit (cam w) -> tween_fits (cam w) tw ->
  flags_fit (cam (complete_tween tw w)) /\
  focusedBody (cam (complete_tween tw w)) = focusedBody (cam w).
Proof.
  intros (F1 & F2) (_ & Hfoc).
  unfold complete_tween, run_completion, flags_fit.
  destruct (tw_onComplete tw) as [[body|]|].
  - specialize (Hfoc body eq_refl).
    destruct (tw_target tw); cbn;
      (destruct (bodies w !! body); cbn;
       [split; [split; [reflexivity|]|reflexivity];
        intros _; split; [reflexivity|];
        rewrite Hfoc; eexists; reflexivity
       |split; [split; assumption|reflexivity]]).
  - destruct (tw_target tw); cbn;
      (split; [split; [reflexivity|]|reflexivity]);
      intros Hm; split; [reflexivity|apply F2, Hm| reflexivity|apply F2, Hm
                        | reflexivity|apply F2, Hm].
  - destruct (tw_target tw); cbn; (split; [split; assumption|reflexivity]).
Qed.

Lemma complete_all_flags l : forall w,
  flags_fit (cam w) -> Forall (tween_fits (cam w)) l ->
  flags_fit (cam (complete_all l w)) /\
  focusedBody (cam (complete_all l w)) = focusedBody (cam w).
Proof.
  induction l as [|tw l IH]; intros w Hf Hl; [split; [exact Hf|reflexivity]|].
  apply Forall_cons in Hl. destruct Hl as (Htw & Hl).
  destruct (complete_tween_flags tw w Hf Htw) as (C1 & C2).
  change (complete_all (tw :: l) w) with (complete_all l (complete_tween tw w)).
  destruct (IH (complete_tween tw w) C1) as (I1 & I2).
  { eapply List.Forall_impl; [|exact Hl].
    intros t Ht. apply (tween_fits_ext (cam w)); [exact C2|exact Ht]. }
  split; [exact I1|congruence].
Qed.

Lemma advance_flags dt w :
  camera_flags_fit w -> camera_flags_fit (advance dt w).
Proof.
  intros (Hf & Htw). unfold advance.
  match goal with
  | |- context [complete_all ?l ?w1] =>
      destruct (complete_tweens_frame l w1) as (_ & _ & C3 & _);
      destruct (complete_all_flags l w1) as (A1 & A2);
      [exact Hf|apply Forall_filter_keeps; exact Htw|];
      set (w2 := complete_all l w1) in *
  end.
  match goal with
  | |- context [fire_all ?l ?w3] =>
      destruct (fire_timers_frame l w3) as (_ & _ & F3 & F4 & _)
  end.
  unfold camera_flags_fit. rewrite F3, F4. cbn [cam gsap set_timers].
  split; [exact A1|].
  rewrite C3. cbn [gsap set_gsap tweens].
  apply Forall_filter_keeps.
  eapply List.Forall_impl; [|exact Htw].
  intros t Ht. apply (tween_fits_ext (cam w)); [exact A2|exact Ht].
Qed.

Lemma handle_flags e w :
  camera_flags_fit w -> camera_flags_fit (handle e w).
Proof.
  intros H.
  pose proof (returnToGlobal_flags w H) as HR.
  destruct e as [hits| |key|body| |dt]; cbn [handle].
  - unfold onClick, bind, gets, ret.
    destruct (state_eqb (state (ic w)) GLOBAL); [|exact H].
    destruct hits as [|[[r|]] hits]; try exact H.
    apply focusOnBody_flags, H.
  - unfold onContextMenu, bind, gets, ret.
    destruct (state_eqb (state (ic w)) FOCUS); [exact HR|exact H].
  - unfold onKeyDown, bind, gets, ret.
    destruct (String.eqb key "Escape"); [|exact H].
    destruct (state_eqb (state (ic w)) FOCUS
              || state_eqb (state (ic w)) TRANSITION); [exact HR|exact H].
  - apply focusOnBody_flags, H.
  - exact HR.
  - apply advance_flags, H.
Qed.

Lemma run_flags es : forall w,
  camera_flags_fit w -> camera_flags_fit (run_events es w).
Proof.
  induction es as [|e es IH]; intros w H; [exact H|].
  cbn [run_events fold_left]. apply IH, handle_flags, H.
Qed.

(** X9. The flags of the camera transition engine fit together in every
    run: the orbit controls are disabled exactly while a transition is
    running; the mouse-driven view is enabled only outside a transition
    and with a focused body, so the three-part condition of [update()],
    [mouseViewEnabled && focusedBody && !isTransitioning], always has the
    value of [mouseViewEnabled] alone; and every running tween animates
    the camera position or the controls target, a focus completion among
    them being that of the focused body. *)
Theorem camera_flags_fit_in_runs
  (es : list Event) (h : gmap nat Body) (camera_fov : R) (sc bs bh : bool) :
  let w := run_events es (install_callbacks sc bs bh (new_World h camera_fov)) in
  isTransitioning (cam w) = negb (ctl_enabled (controls (cam w))) /\
  (mouseViewEnabled (cam w) = true ->
   isTransitioning (cam w) = false /\ is_Some (focusedBody (cam w))) /\
  view_active (cam w) = mouseViewEnabled (cam w) /\
  Forall (tween_fits (cam w)) (tweens (gsap w)).
Proof.
  cbn zeta.
  set (w := run_events es (install_callbacks sc bs bh (new_World h camera_fov))).
  assert (H : camera_flags_fit w).
  { apply run_flags. split; [split|constructor].
    - reflexivity.
    - cbn. discriminate. }
  destruct H as ((F1 & F2) & F3).
  split; [exact F1|]. split; [exact F2|]. split; [|exact F3].
  unfold view_active. destruct (mouseViewEnabled (cam w)); [|reflexivity].
  destruct (F2 eq_refl) as (-> & Hs).
  rewrite bool_decide_eq_true_2 by exact Hs. reflexivity.
Qed.

(** ** Escape during a focus transition *)

Lemma complete_tween_focusedBody tw w :
  focusedBody (cam (complete_tween tw w)) = focusedBody (cam w).
Proof.
  unfold complete_tween, run_completion.
  destruct (tw_onComplete tw) as [[body|]|]; destruct (tw_target tw); cbn;
    try destruct (bodies w !! body); reflexivity.
Qed.

Lemma complete_all_focusedBody l : forall w,
  focusedBody (cam (complete_all l w)) = focusedBody (cam w).
Proof.
  induction l as [|tw l IH]; intros w; [reflexivity|].
  change (complete_all (tw :: l) w) with (complete_all l (complete_tween tw w)).
  rewrite IH. apply complete_tween_focusedBody.
Qed.

Lemma advance_focusedBody dt w :
  focusedBody (cam (advance dt w)) = focusedBody (cam w).
Proof.
  unfold advance. cbv zeta.
  match goal with
  | |- context [fire_all ?l ?w3] =>
      destruct (fire_timers_frame l w3) as (_ & _ & _ & F4 & _); rewrite F4
  end.
  cbn [cam set_timers]. rewrite complete_all_focusedBody. reflexivity.
Qed.

(** Time passing while no timer falls due leaves the interaction
    controller and the notifications alone. *)
Lemma advance_no_timer dt w :
  List.filter (timer_due (now w + dt)) (timers w) = [] ->
  ic (advance dt w) = ic w /\ notifications (advance dt w) = notifications w.
Proof.
  intros H. destruct (advance_fires dt w) as (w3 & I3 & N3 & Ea).
  rewrite Ea, H. cbn. split; assumption.
Qed.

(** The run of a focus request answered by Escape, step by step. *)
Lemma escape_scenario (w : World) (B : nat) (b : Body) (dt1 : Z) :
  bodies w !! B = Some b -> timers w = [] -> (0 < dt1 < 1200)%Z ->
  let w1 := advance dt1 (fst (focusOnBody (Some B) w)) in
  let w2 := fst (onKeyDown "Escape" w1) in
  let w3 := advance (1200 - dt1) w2 in
  let w4 := advance dt1 w3 in
  state (ic w2) = TRANSITION /\ selectedBody (ic w2) = Some B /\
  focusedBody (cam w2) = None /\
  state (ic w3) = FOCUS /\ selectedBody (ic w3) = Some B /\
  focusedBody (cam w3) = None /\
  (exists b3, bodies w3 !! B = Some b3 /\
     forall fx, planet b3 = Some fx ->
       perturbStrength fx = 0 /\ fx_uPerturbStrength fx = 0) /\
  notifications w3
  = notifications w
    ++ (if onStateChange (ic w)
        then [StateChange TRANSITION (Some B); StateChange TRANSITION None;
              StateChange FOCUS (Some B)]
        else [])
    ++ (if onBodySelect (ic w) then [BodySelect B] else []) /\
  state (ic w4) = GLOBAL /\ selectedBody (ic w4) = None /\
  now w3 = (now w + 1200)%Z /\
  timers w3 = [((now w + dt1 + 1200)%Z, ReturnDone)] /\
  onStateChange (ic w3) = onStateChange (ic w).
Proof.
  intros Hb Ht Hdt. cbn zeta.
  (* the focus request *)
  destruct (focusOnBody_Some w B b Hb)
    as (wf & Ef & Hnowf & Hicf & Hbf & Htf & Hnf & _).
  rewrite Ef. cbn [fst]. rewrite Ht in Htf. cbn [app] in Htf.
  (* dt1 later *)
  destruct (advance_frame dt1 wf) as (Hnow1 & Hb1 & _ & Ht1).
  destruct (advance_no_timer dt1 wf) as (Hic1 & Hn1).
  { rewrite Htf, Hnowf. cbn [List.filter]. unfold timer_due. cbn [fst].
    rewrite (proj2 (Z.leb_gt _ _)) by lia. reflexivity. }
  set (w1 := advance dt1 wf) in *.
  rewrite Htf, Hnowf in Ht1. cbn [List.filter] in Ht1. unfold timer_due in Ht1. cbn [fst] in Ht1.
  rewrite (proj2 (Z.leb_gt _ _)) in Ht1 by lia. cbn [negb] in Ht1.
  assert (Hs1 : state (ic w1) = TRANSITION) by (rewrite Hic1, Hicf; reflexivity).
  assert (Hsel1 : selectedBody (ic w1) = Some B)
    by (rewrite Hic1, Hicf; reflexivity).
  assert (Hb1' : exists b1, bodies w1 !! B = Some b1).
  { rewrite Hb1, Hbf. destruct (has_setPerturbation b);
      [rewrite lookup_alter_eq, Hb|rewrite Hb]; eexists; reflexivity. }
  destruct Hb1' as (b1 & Hb1').
  (* Escape *)
  assert (Ek : onKeyDown "Escape" w1 = returnToGlobal w1).
  { unfold onKeyDown, bind, gets. cbn. rewrite Hs1. reflexivity. }
  rewrite Ek.
  destruct (returnToGlobal_spec w1)
    as (w2 & E2 & Hnow2 & Hic2 & Hb2 & _ & Ht2 & Hn2 & Hcam2 & _).
  { intros r Hr. rewrite Hsel1 in Hr. injection Hr as <-.
    rewrite Hb1'. eexists. reflexivity. }
  rewrite E2. cbn [fst].
  specialize (Hb2 B b1 Hsel1 Hb1').
  assert (Hfoc2 : focusedBody (cam w2) = None).
  { destruct (cam_returnToOverview_spec w1 1200)
      as (c' & g' & Ec & _ & _ & _ & Hf & _).
    rewrite Hcam2, Ec. exact Hf. }
  assert (Hs2 : state (ic w2) = TRANSITION) by (rewrite Hic2; reflexivity).
  assert (Hsel2 : selectedBody (ic w2) = Some B)
    by (rewrite Hic2; exact Hsel1).
  split; [exact Hs2|]. split; [exact Hsel2|]. split; [exact Hfoc2|].
  (* 1.2 s after the focus request *)
  rewrite Ht1, Hnow1, Hnowf in Ht2. cbn [app] in Ht2.
  destruct (advance_frame (1200 - dt1) w2) as (Hnow3 & Hb3 & _ & Ht3).
  destruct (advance_fires (1200 - dt1) w2) as (u3 & Iu & Nu & Ea3).
  set (w3 := advance (1200 - dt1) w2) in *.
  rewrite Hnow2, Hnow1, Hnowf in Hnow3, Ht3, Ea3.
  rewrite Ht2 in Ht3, Ea3.
  cbn [List.filter] in Ht3, Ea3. unfold timer_due in Ht3, Ea3.
  cbn [fst] in Ht3, Ea3.
  rewrite (proj2 (Z.leb_le _ _)) in Ht3, Ea3 by lia.
  rewrite (proj2 (Z.leb_gt _ _)) in Ht3, Ea3 by lia.
  cbn [negb] in Ht3. cbn [fire_all fold_left snd] in Ea3.
  assert (Hselu : selectedBody (ic u3) = Some B) by (rewrite Iu; exact Hsel2).
  destruct (focus_timer_commits u3 B Hselu) as (C1 & C2 & C3).
  rewrite <- Ea3 in C1, C2, C3.
  split; [exact C1|]. split; [exact C2|].
  split; [unfold w3; rewrite advance_focusedBody; exact Hfoc2|].
  split.
  { exists (body_setPerturbation false default_perturbation_strength b1).
    split; [rewrite Hb3; exact Hb2|].
    cbn. destruct (planet b1); cbn; intros fx [= <-]. split; reflexivity. }
  split.
  { rewrite C3, Nu, Hn2, Hn1, Hnf, Iu, Hic2, Hic1, Hicf. cbn.
    destruct (onStateChange (ic w)); destruct (onBodySelect (ic w));
      cbn; rewrite <- ?app_assoc; cbn; rewrite ?app_nil_r; reflexivity. }
  (* 1.2 s after Escape *)
  destruct (advance_return_step w3 (now w + dt1 + 1200)%Z dt1) as (S1 & _).
  { right. rewrite Ht3. left. reflexivity. }
  destruct S1 as (I1 & I2 & _); [right; lia|].
  split; [exact I1|]. split; [exact I2|].
  split; [rewrite Hnow3; lia|]. split; [exact Ht3|].
  rewrite Ea3.
  destruct (fire_timer_flags (FocusDone B) u3) as (Fl & _).
  rewrite Fl, Iu, Hic2, Hic1, Hicf. reflexivity.
Qed.

(** X10. Escape during a focus transition does not cancel the pending
    focus completion.  [focusOnBody(B)], then, before its 1.2 s have
    passed, Escape: [returnToGlobal] switches the perturbation of [B]
    off and starts the camera's return, but leaves [B] selected; so 1.2 s
    after the focus request its completion still finds [B] selected and
    commits: the state is [FOCUS], the state change to [FOCUS] and the
    selection of [B] are notified, while the camera engine has no focused
    body and the perturbation of [B] is 0.  Only when the return
    completes, 1.2 s after Escape, does the state become [GLOBAL]. *)
Theorem escape_keeps_focus_commit (w : World) (B : nat) (b : Body) (dt1 : Z) :
  bodies w !! B = Some b -> timers w = [] -> (0 < dt1 < 1200)%Z ->
  let w1 := advance dt1 (fst (focusOnBody (Some B) w)) in
  let w2 := fst (onKeyDown "Escape" w1) in
  let w3 := advance (1200 - dt1) w2 in
  let w4 := advance dt1 w3 in
  state (ic w2) = TRANSITION /\ selectedBody (ic w2) = Some B /\
  focusedBody (cam w2) = None /\
  state (ic w3) = FOCUS /\ selectedBody (ic w3) = Some B /\
  focusedBody (cam w3) = None /\
  (exists b3, bodies w3 !! B = Some b3 /\
     forall fx, planet b3 = Some fx ->
       perturbStrength fx = 0 /\ fx_uPerturbStrength fx = 0) /\
  notifications w3
  = notifications w
    ++ (if onStateChange (ic w)
        then [StateChange TRANSITION (Some B); StateChange TRANSITION None;
              StateChange FOCUS (Some B)]
        else [])
    ++ (if onBodySelect (ic w) then [BodySelect B] else []) /\
  state (ic w4) = GLOBAL /\ selectedBody (ic w4) = None.
Proof.
  intros Hb Ht Hdt. cbn zeta.
  destruct (escape_scenario w B b dt1 Hb Ht Hdt)
    as (H1 & H2 & H3 & H4 & H5 & H6 & H7 & H8 & H9 & H10 & _).
  split; [exact H1|]. split; [exact H2|]. split; [exact H3|].
  split; [exact H4|]. split; [exact H5|]. split; [exact H6|].
  split; [exact H7|]. split; [exact H8|]. split; [exact H9|exact H10].
Qed.

(** Jupiter is clicked, Escape is pressed 400 ms later: 1.2 s after the
    click the state is [FOCUS]. *)
Lemma escape_keeps_focus_commit_witness :
  let b := mkBody "Jupiter" 6 (mkVec3 95 0 0) (Some (mkPlanetFx 0.1 0.1)) in
  let w := install_callbacks true false true
             (new_World (<[7%nat := b]> ∅) 60) in
  let w1 := advance 400 (fst (focusOnBody (Some 7%nat) w)) in
  let w3 := advance 800 (fst (onKeyDown "Escape" w1)) in
  state (ic w3) = FOCUS /\ focusedBody (cam w3) = None.
Proof.
  intros b w w1 w3.
  destruct (escape_keeps_focus_commit w 7%nat b 400)
    as (_ & _ & _ & H1 & _ & H2 & _).
  - apply lookup_insert_eq.
  - reflexivity.
  - lia.
  - split; [exact H1|exact H2].
Defined.

End InteractionRunFacts.

(* ===================================================================== *)
(** * Properties of pointer moves *)
(* ===================================================================== *)

Section PointerMoveFacts.
Import Geometry Interaction MouseView Pointer.
Local Open Scope R_scope.

(** [onMouseMove] state by state. *)
Lemma onMouseMove_cases e s :
  let s1 := upd_world (upd_ic (track e)) s in
  let i := ic (world s1) in
  onMouseMove e s
  = match state (ic (world s)) with
    | GLOBAL => updateHover (hover_hits e) s1
    | TRANSITION => s1
    | FOCUS =>
        updatePerturbation (body_hits e)
          (upd_world
             (upd_cam (updateMouseView (v2x (mouseNormalized i))
                                       (v2y (mouseNormalized i)))) s1)
    end.
Proof.
  cbn zeta. unfold onMouseMove.
  set (s1 := upd_world (upd_ic (track e)) s).
  assert (H1 : state (ic (world s1)) = state (ic (world s))) by reflexivity.
  rewrite H1.
  destruct (state (ic (world s))) eqn:E; cbn [state_eqb].
  - rewrite H1. reflexivity.
  - rewrite H1. reflexivity.
  - match goal with
    | |- (if state_eqb (state (ic (world ?x))) GLOBAL then _ else _) = _ =>
        assert (Hs : state (ic (world x)) = FOCUS)
    end.
    { unfold updatePerturbation.
      repeat match goal with
             | |- context [match ?x with _ => _ end] => destruct x
             end; cbn; exact E. }
    rewrite Hs. reflexivity.
Qed.

(** The pointer fields after a move are those that [track] writes. *)
Lemma onMouseMove_pointer e s :
  let i := ic (world s) in
  let i' := ic (world (onMouseMove e s)) in
  mouse i' = mouse (track e i) /\
  mousePosition i' = mousePosition (track e i) /\
  mouseVelocity i' = mouseVelocity (track e i) /\
  prevMousePosition i' = prevMousePosition (track e i) /\
  mouseNormalized i' = mouseNormalized (track e i) /\
  mouseSpeed i' = mouseSpeed (track e i).
Proof.
  cbn zeta. rewrite onMouseMove_cases. cbn zeta.
  destruct (state (ic (world s))).
  - unfold updateHover. cbn.
    destruct (negb _ && onBodyHover (ic (world s))); repeat split.
  - repeat split.
  - unfold updatePerturbation. cbn.
    destruct (selectedBody (ic (world s))) as [r|]; [|repeat split].
    destruct (body_hits e) as [|[[v|]] hits]; cbn; [repeat split| |];
      (destruct (bodies (world s) !! r) as [b|]; [|repeat split]);
      destruct (has_setPerturbation b); repeat split.
Qed.

Lemma v2_length_zero : v2_length (mkVec2 0 0) = 0.
Proof.
  unfold v2_length. cbn. replace (0 * 0 + 0 * 0) with 0 by ring.
  apply sqrt_0.
Qed.

(** X11. What a pointer move records.  For an event inside a window of
    positive size: the pointer position is the event position relative
    to the window, in [0, 1] on both axes; the ray-caster coordinates are
    in [-1, 1], [2 x - 1] across and [1 - 2 y] upwards (the vertical axis
    is flipped), and the coordinates for the mouse-driven view are the
    same; the previous position is the position before the event, the
    velocity is the difference of the two and the speed is ten times its
    length, however much time has passed between the two events.  A
    second event at the same place therefore sets the speed to 0 at
    once. *)
Theorem pointer_tracking (e : MouseMove) (s : Stage) :
  inside e ->
  let i := ic (world s) in
  let i' := ic (world (onMouseMove e s)) in
  mousePosition i'
  = mkVec2 (clientX e / innerWidth e) (clientY e / innerHeight e) /\
  0 <= v2x (mousePosition i') <= 1 /\ 0 <= v2y (mousePosition i') <= 1 /\
  v2x (mouse i') = 2 * v2x (mousePosition i') - 1 /\
  v2y (mouse i') = 1 - 2 * v2y (mousePosition i') /\
  -1 <= v2x (mouse i') <= 1 /\ -1 <= v2y (mouse i') <= 1 /\
  mouseNormalized i' = mouse i' /\
  prevMousePosition i' = mousePosition i /\
  mouseVelocity i' = v2_sub (mousePosition i') (mousePosition i) /\
  mouseSpeed i' = 10 * v2_length (mouseVelocity i') /\
  0 <= mouseSpeed i' /\
  mouseSpeed (ic (world (onMouseMove e (onMouseMove e s)))) = 0.
Proof.
  intros (HW & HH & (Hx0 & Hx1) & (Hy0 & Hy1)). cbn zeta.
  destruct (onMouseMove_pointer e s) as (P1 & P2 & P3 & P4 & P5 & P6).
  destruct (onMouseMove_pointer e (onMouseMove e s)) as (_ & _ & _ & _ & _ & Q6).
  rewrite P1, P2, P3, P4, P5, P6, Q6.
  assert (Hpx : 0 <= clientX e / innerWidth e <= 1).
  { split; [apply Rle_mult_inv_pos; assumption|].
    apply (Rmult_le_reg_r (innerWidth e)); [exact HW|].
    unfold Rdiv. rewrite Rmult_assoc, Rinv_l by lra. lra. }
  assert (Hpy : 0 <= clientY e / innerHeight e <= 1).
  { split; [apply Rle_mult_inv_pos; assumption|].
    apply (Rmult_le_reg_r (innerHeight e)); [exact HH|].
    unfold Rdiv. rewrite Rmult_assoc, Rinv_l by lra. lra. }
  cbn [track mouse mousePosition mouseVelocity prevMousePosition
       mouseNormalized mouseSpeed v2x v2y].
  split; [reflexivity|].
  split; [exact Hpx|]. split; [exact Hpy|].
  split; [unfold Rdiv; ring|]. split; [unfold Rdiv; ring|].
  split; [lra|]. split; [lra|].
  split; [reflexivity|]. split; [reflexivity|]. split; [reflexivity|].
  split; [ring|].
  split; [apply Rmult_le_pos; [apply sqrt_pos|lra]|].
  rewrite P2. cbn [track mousePosition v2x v2y].
  replace (clientX e / innerWidth e - clientX e / innerWidth e) with 0 by ring.
  replace (clientY e / innerHeight e - clientY e / innerHeight e) with 0
    by ring.
  rewrite v2_length_zero. ring.
Qed.

(** An event at (480, 270) in a window of 1920 by 1080: the position is
    (0.25, 0.25), the ray-caster coordinates are (-0.5, 0.5). *)
Lemma pointer_tracking_witness :
  let e := mkMouseMove 480 270 1920 1080 [] [] in
  let i' := ic (world (onMouseMove e
                         (new_Stage (new_World ∅ 60)))) in
  v2x (mouse i') = 2 * v2x (mousePosition i') - 1 /\
  v2y (mouse i') = 1 - 2 * v2y (mousePosition i') /\
  mousePosition i' = mkVec2 (480 / 1920) (270 / 1080).
Proof.
  intros e i'.
  assert (H : inside e) by (unfold inside; cbn; lra).
  destruct (pointer_tracking e (new_Stage (new_World ∅ 60)) H)
    as (H1 & _ & _ & H4 & H5 & _).
  split; [exact H4|]. split; [exact H5|exact H1].
Defined.

(** ** Hovering *)

Local Arguments calculateFocusDistance : simpl never.
Local Arguments v3_normalize : simpl never.

Ltac run_handlers :=
  unfold focusOnBody, returnToGlobal, cam_focusOnBody, cam_returnToOverview,
    killAllTweens, setTimeout, call_setPerturbation, gsap_to, deref,
    when, bind, modify, gets, ret, throw; cbn.

Lemma focusOnBody_hover body w :
  hoveredBody (ic (fst (focusOnBody body w))) = hoveredBody (ic w) /\
  onBodyHover (ic (fst (focusOnBody body w))) = onBodyHover (ic w).
Proof.
  destruct body as [r|]; [|split; reflexivity].
  destruct (bodies w !! r) as [b|] eqn:Hb.
  - destruct (focusOnBody_Some w r b Hb) as (w' & E & _ & Hic & _).
    rewrite E. cbn [fst]. rewrite Hic. split; reflexivity.
  - run_handlers. rewrite Hb. split; reflexivity.
Qed.

Lemma returnToGlobal_hover w :
  hoveredBody (ic (fst (returnToGlobal w))) = hoveredBody (ic w) /\
  onBodyHover (ic (fst (returnToGlobal w))) = onBodyHover (ic w).
Proof.
  assert (Hgood : (forall r, selectedBody (ic w) = Some r ->
                             is_Some (bodies w !! r)) ->
    hoveredBody (ic (fst (returnToGlobal w))) = hoveredBody (ic w) /\
    onBodyHover (ic (fst (returnToGlobal w))) = onBodyHover (ic w)).
  { intros Hsel.
    destruct (returnToGlobal_spec w Hsel) as (w' & E & _ & Hic & _).
    rewrite E. cbn [fst]. rewrite Hic. split; reflexivity. }
  destruct (selectedBody (ic w)) as [r|] eqn:Es.
  - destruct (bodies w !! r) as [b|] eqn:Hb.
    + apply Hgood. intros r' [= <-]. rewrite Hb. eexists. reflexivity.
    + run_handlers. rewrite Es. cbn. rewrite Hb. split; reflexivity.
  - apply Hgood. intros r' [=].
Qed.

Lemma fire_timer_hover cb w :
  hoveredBody (ic (fire_timer cb w)) = hoveredBody (ic w) /\
  onBodyHover (ic (fire_timer cb w)) = onBodyHover (ic w).
Proof.
  unfold fire_timer, notify_BodySelect, notify_StateChange.
  destruct cb as [body|]; cbn.
  - destruct (decide (selectedBody (ic w) = Some body)); [|split; reflexivity].
    cbn. destruct (onStateChange (ic w)); cbn;
      destruct (onBodySelect (ic w)); cbn; split; reflexivity.
  - destruct (onStateChange (ic w)); cbn; split; reflexivity.
Qed.

Lemma fire_all_hover l : forall w,
  hoveredBody (ic (fire_all l w)) = hoveredBody (ic w) /\
  onBodyHover (ic (fire_all l w)) = onBodyHover (ic w).
Proof.
  induction l as [|tm l IH]; intros w; [split; reflexivity|].
  rewrite fire_all_cons. destruct (IH (fire_timer (snd tm) w)) as (I1 & I2).
  destruct (fire_timer_hover (snd tm) w) as (F1 & F2).
  split; congruence.
Qed.

Lemma handle_hover e w :
  hoveredBody (ic (handle e w)) = hoveredBody (ic w) /\
  onBodyHover (ic (handle e w)) = onBodyHover (ic w).
Proof.
  pose proof (returnToGlobal_hover w) as HR.
  destruct e as [hits| |key|body| |dt]; cbn [handle].
  - unfold onClick, bind, gets, ret.
    destruct (state_eqb (state (ic w)) GLOBAL); [|split; reflexivity].
    destruct hits as [|[[r|]] hits]; try (split; reflexivity).
    apply focusOnBody_hover.
  - unfold onContextMenu, bind, gets, ret.
    destruct (state_eqb (state (ic w)) FOCUS); [exact HR|split; reflexivity].
  - unfold onKeyDown, bind, gets, ret.
    destruct (String.eqb key "Escape"); [|split; reflexivity].
    destruct (state_eqb (state (ic w)) FOCUS
              || state_eqb (state (ic w)) TRANSITION);
      [exact HR|split; reflexivity].
  - apply focusOnBody_hover.
  - exact HR.
  - destruct (advance_fires dt w) as (w3 & I3 & _ & Ea).
    rewrite Ea.
    destruct (fire_all_hover
                (List.filter (timer_due (now w + dt)) (timers w)) w3)
      as (F1 & F2).
    rewrite F1, F2, I3. split; reflexivity.
Qed.

Lemma run_hover es : forall w,
  hoveredBody (ic (run_events es w)) = hoveredBody (ic w) /\
  onBodyHover (ic (run_events es w)) = onBodyHover (ic w).
Proof.
  induction es as [|e es IH]; intros w; [split; reflexivity|].
  cbn [run_events fold_left].
  change (fold_left (fun w' e0 => handle e0 w') es (handle e w))
    with (run_events es (handle e w)).
  destruct (IH (handle e w)) as (I1 & I2).
  destruct (handle_hover e w) as (H1 & H2).
  split; congruence.
Qed.

(** A move in the overview over the body [r]. *)
Lemma hover_on s e r hits :
  state (ic (world s)) = GLOBAL ->
  hover_hits e = mkHit (Some r) :: hits ->
  let s' := onMouseMove e s in
  hoveredBody (ic (world s')) = Some r /\
  cursor s' = "pointer" /\
  notifications (world s')
  = notifications (world s)
    ++ (if onBodyHover (ic (world s))
           && negb (bool_decide (hoveredBody (ic (world s)) = Some r))
        then [BodyHover (Some r)] else []).
Proof.
  intros Hs Hh. cbn zeta. rewrite onMouseMove_cases. cbn zeta.
  rewrite Hs, Hh. unfold updateHover. cbn.
  destruct (bool_decide (hoveredBody (ic (world s)) = Some r)); cbn;
    destruct (onBodyHover (ic (world s))); cbn;
    rewrite ?app_nil_r; repeat split.
Qed.

(** X12. Hover notifications report changes of the hovered body, and the
    hovered body outlives a visit.  In the overview a pointer move over
    the body [r] makes [r] the hovered body, sets the cursor to
    [pointer], and calls [onBodyHover(r)] exactly when a callback is
    installed and [r] was not the hovered body before.  No click, key,
    call or passage of time ever changes the hovered body; so when,
    after any such run (focusing [r] and returning, say), the overview
    is reached again with the pointer still over [r], the next move over
    [r] makes no hover notification. *)
Theorem hover_reports_changes
  (s : Stage) (es : list Event) (e e' : MouseMove) (r : nat)
  (hits hits' : list Hit) :
  state (ic (world s)) = GLOBAL ->
  hover_hits e = mkHit (Some r) :: hits ->
  hover_hits e' = mkHit (Some r) :: hits' ->
  state (ic (run_events es (world (onMouseMove e s)))) = GLOBAL ->
  let s1 := onMouseMove e s in
  let s2 := upd_world (run_events es) s1 in
  let s3 := onMouseMove e' s2 in
  hoveredBody (ic (world s1)) = Some r /\ cursor s1 = "pointer" /\
  notifications (world s1)
  = notifications (world s)
    ++ (if onBodyHover (ic (world s))
           && negb (bool_decide (hoveredBody (ic (world s)) = Some r))
        then [BodyHover (Some r)] else []) /\
  hoveredBody (ic (world s2)) = Some r /\
  hoveredBody (ic (world s3)) = Some r /\
  notifications (world s3) = notifications (world s2).
Proof.
  intros Hs Hh Hh' Hs2. cbn zeta.
  destruct (hover_on s e r hits Hs Hh) as (H1 & H2 & H3).
  split; [exact H1|]. split; [exact H2|]. split; [exact H3|].
  destruct (run_hover es (world (onMouseMove e s))) as (R1 & R2).
  assert (H4 : hoveredBody
                 (ic (world (upd_world (run_events es) (onMouseMove e s))))
               = Some r) by (cbn [world upd_world]; rewrite R1; exact H1).
  split; [exact H4|].
  destruct (hover_on (upd_world (run_events es) (onMouseMove e s)) e' r hits')
    as (G1 & _ & G3); [exact Hs2|exact Hh'|].
  split; [exact G1|].
  rewrite G3, H4.
  rewrite bool_decide_eq_true_2 by reflexivity.
  rewrite andb_false_r. apply app_nil_r.
Qed.

(** The pointer comes to rest over Mars; Mars is clicked, focused,
    left with Escape, and the overview is back: the next move over Mars
    makes no hover notification. *)
Lemma hover_reports_changes_witness :
  let b := mkBody "Mars" 2 (mkVec3 65 0 0) (Some (mkPlanetFx 0.1 0.1)) in
  let s := new_Stage (install_callbacks true true true
                        (new_World (<[7%nat := b]> ∅) 60)) in
  let e := mkMouseMove 480 270 1920 1080 [mkHit (Some 7%nat)] [] in
  let es := [Click [mkHit (Some 7%nat)]; Elapse 1200; KeyDown "Escape";
             Elapse 1200] in
  let s2 := upd_world (run_events es) (onMouseMove e s) in
  notifications (world (onMouseMove e s)) = [BodyHover (Some 7%nat)] /\
  notifications (world (onMouseMove e s2)) = notifications (world s2).
Proof.
  intros b s e es s2.
  destruct (hover_reports_changes s es e e 7%nat [] [])
    as (_ & _ & H3 & _ & _ & H6).
  - reflexivity.
  - reflexivity.
  - reflexivity.
  - vm_compute. reflexivity.
  - split; [exact H3|exact H6].
Defined.

(** ** What a move leaves alone *)

Lemma updateHover_frame hits s :
  let w := world s in
  let w' := world (updateHover hits s) in
  now w' = now w /\ timers w' = timers w /\ gsap w' = gsap w /\
  bodies w' = bodies w /\ cam w' = cam w /\
  planetMouse (updateHover hits s) = planetMouse s /\
  state (ic w') = state (ic w) /\ selectedBody (ic w') = selectedBody (ic w).
Proof.
  cbn zeta. unfold updateHover. cbn.
  destruct (negb _ && onBodyHover (ic (world s))); repeat split.
Qed.

Lemma updatePerturbation_frame hits s :
  let w := world s in
  let s' := updatePerturbation hits s in
  let w' := world s' in
  now w' = now w /\ timers w' = timers w /\ gsap w' = gsap w /\
  cam w' = cam w /\ notifications w' = notifications w /\
  cursor s' = cursor s /\ hoveredBody (ic w') = hoveredBody (ic w) /\
  state (ic w') = state (ic w) /\ selectedBody (ic w') = selectedBody (ic w) /\
  (forall r, selectedBody (ic w) <> Some r \/ hits = [] ->
     bodies w' !! r = bodies w !! r /\
     planetMouse s' !! r = planetMouse s !! r).
Proof.
  cbn zeta. unfold updatePerturbation.
  destruct (selectedBody (ic (world s))) as [r0|] eqn:Es;
    [|rewrite Es; repeat split].
  destruct hits as [|[u] hits]; [rewrite Es; repeat split|].
  assert (Hb : bodies (world match u with
                             | Some v => upd_world (upd_ic (set_lastHitUV v)) s
                             | None => s
                             end) = bodies (world s))
    by (destruct u; reflexivity).
  cbn [uv]. rewrite Hb.
  destruct (bodies (world s) !! r0) as [b|];
    [destruct (has_setPerturbation b)|];
    destruct u as [v|]; cbn; rewrite ?Es;
    repeat split;
    try (match goal with
         | H : _ \/ _ |- _ => destruct H as [H|H]; [|discriminate]
         end;
         rewrite ?lookup_alter_ne, ?lookup_insert_ne by congruence;
         reflexivity).
Qed.

(** X13. What a pointer move leaves alone.  It never changes the clock,
    the timers, the tweens, the state or the selection.  Outside the
    focus state it changes no body and nothing of the camera engine; in
    the focus state it changes only the selected body, and that only
    when the ray hits its mesh, and of the camera engine only the target
    of the mouse influence, and that only when the mouse-driven view is
    active.  During a transition it changes nothing but the pointer
    fields. *)
Theorem mouse_move_frame (e : MouseMove) (s : Stage) (r : nat) :
  let w := world s in
  let s' := onMouseMove e s in
  let w' := world s' in
  now w' = now w /\ timers w' = timers w /\ gsap w' = gsap w /\
  state (ic w') = state (ic w) /\ selectedBody (ic w') = selectedBody (ic w) /\
  (state (ic w) <> FOCUS \/ selectedBody (ic w) <> Some r \/ body_hits e = [] ->
   bodies w' !! r = bodies w !! r /\
   planetMouse s' !! r = planetMouse s !! r) /\
  (state (ic w) <> FOCUS \/ view_active (cam w) = false -> cam w' = cam w) /\
  (state (ic w) = FOCUS -> view_active (cam w) = true ->
   targetMouseInfluence (cam w') = mouse (ic w') /\
   mouseInfluence (cam w') = mouseInfluence (cam w) /\
   camera (cam w') = camera (cam w) /\
   controls (cam w') = controls (cam w)) /\
  (state (ic w) = TRANSITION -> s' = upd_world (upd_ic (track e)) s).
Proof.
  cbn zeta. rewrite onMouseMove_cases. cbn zeta.
  destruct (state (ic (world s))) eqn:Es.
  - destruct (updateHover_frame (hover_hits e)
                (upd_world (upd_ic (track e)) s))
      as (H1 & H2 & H3 & H4 & H5 & H6 & H7 & H8).
    cbn [world upd_world upd_ic set_ic now timers gsap bodies cam
         planetMouse] in *.
    rewrite H1, H2, H3, H4, H5, H6, H7, H8. cbn [ic state selectedBody track].
    split; [reflexivity|]. split; [reflexivity|]. split; [reflexivity|].
    split; [exact Es|]. split; [reflexivity|].
    split; [intros _; split; reflexivity|].
    split; [intros _; reflexivity|].
    split; [discriminate|discriminate].
  - cbn. repeat split; try discriminate; try exact Es.
  - match goal with
    | |- context [updatePerturbation ?h ?x] =>
        destruct (updatePerturbation_frame h x)
          as (H1 & H2 & H3 & H4 & H5 & H6 & H7 & H8 & H9 & H10);
        set (s' := updatePerturbation h x) in *
    end.
    cbn [world upd_world upd_ic upd_cam set_ic set_cam now timers gsap bodies
         cam ic planetMouse state selectedBody track] in *.
    split; [exact H1|]. split; [exact H2|]. split; [exact H3|].
    split; [rewrite H8; exact Es|]. split; [exact H9|].
    split.
    { intros [H|[H|H]]; [congruence| |];
        apply H10; [left; exact H|right; exact H]. }
    assert (Hp : mouse (ic (world s')) = mouse (track e (ic (world s)))).
    { destruct (onMouseMove_pointer e s) as (P1 & _).
      rewrite onMouseMove_cases in P1. cbn zeta in P1. rewrite Es in P1.
      exact P1. }
    split.
    { intros [H|H]; [congruence|]. rewrite H4. unfold updateMouseView.
      unfold view_active in H.
      destruct (mouseViewEnabled (cam (world s))); cbn in *; [|reflexivity].
      destruct (bool_decide (is_Some (focusedBody (cam (world s)))));
        cbn in *; [|reflexivity].
      destruct (isTransitioning (cam (world s))); cbn in *;
        [reflexivity|discriminate]. }
    split; [|discriminate].
    intros _ Hv. rewrite H4, Hp. unfold updateMouseView.
    unfold view_active in Hv.
    destruct (mouseViewEnabled (cam (world s))); cbn in *; [|discriminate].
    destruct (bool_decide (is_Some (focusedBody (cam (world s)))));
      cbn in *; [|discriminate].
    destruct (isTransitioning (cam (world s))); cbn in *; [discriminate|].
    repeat split.
Qed.

(** ** A move in the focus state *)

(** A move in the focus state while the ray hits the mesh of the
    selected planet. *)
Lemma focus_move_perturbs s B b fx e h hits :
  state (ic (world s)) = FOCUS -> selectedBody (ic (world s)) = Some B ->
  bodies (world s) !! B = Some b -> planet b = Some fx ->
  body_hits e = h :: hits ->
  let s1 := onMouseMove e s in
  bodies (world s1) !! B
  = Some (mkBody (name b) (radius b) (worldPosition b)
            (Some (mkPlanetFx 0.15 0.15))) /\
  mouse_of s1 B
  = mkPlanetMouse (lastHitUV (ic (world s1))) (mouseSpeed (ic (world s1)))
      (mouseSpeed (ic (world s1))) /\
  lastHitUV (ic (world s1))
  = match uv h with Some v => v | None => lastHitUV (ic (world s)) end.
Proof.
  intros Hs Hsel Hb Hp Hh. cbn zeta. rewrite onMouseMove_cases. cbn zeta.
  rewrite Hs, Hh. unfold updatePerturbation. cbn. rewrite Hsel.
  destruct h as [[v|]]; cbn; rewrite Hb; unfold has_setPerturbation;
    rewrite Hp; cbn; unfold mouse_of; cbn;
    rewrite lookup_alter_eq, lookup_insert_eq, Hb; cbn;
    unfold body_setPerturbation; rewrite Hp; repeat split.
Qed.

(** X14. The perturbation can be left on in the overview.  Whenever the
    state is [FOCUS] while a return completion is pending, as it is after
    Escape during a focus transition, a pointer move over the selected
    planet sets its perturbation to 0.15 again and hands it the hit and
    the pointer speed; the return completion then clears the selection
    and enters [GLOBAL] without touching the planet, which stays
    perturbed in the overview. *)
Theorem perturbation_left_on
  (s : Stage) (B : nat) (b : Body) (fx : PlanetFx) (e : MouseMove)
  (h : SurfaceHit) (hits : list SurfaceHit) (t dt : Z) :
  state (ic (world s)) = FOCUS -> selectedBody (ic (world s)) = Some B ->
  bodies (world s) !! B = Some b -> planet b = Some fx ->
  timers (world s) = [(t, ReturnDone)] -> (t <= now (world s) + dt)%Z ->
  body_hits e = h :: hits ->
  let s1 := onMouseMove e s in
  let w2 := advance dt (world s1) in
  let b' := mkBody (name b) (radius b) (worldPosition b)
              (Some (mkPlanetFx 0.15 0.15)) in
  bodies (world s1) !! B = Some b' /\
  mouse_of s1 B
  = mkPlanetMouse (lastHitUV (ic (world s1))) (mouseSpeed (ic (world s1)))
      (mouseSpeed (ic (world s1))) /\
  state (ic w2) = GLOBAL /\ selectedBody (ic w2) = None /\
  bodies w2 !! B = Some b'.
Proof.
  intros Hs Hsel Hb Hp Ht Hdt Hh. cbn zeta.
  destruct (focus_move_perturbs s B b fx e h hits Hs Hsel Hb Hp Hh)
    as (F1 & F2 & _).
  split; [exact F1|]. split; [exact F2|].
  assert (Hfr : now (world (onMouseMove e s)) = now (world s) /\
                timers (world (onMouseMove e s)) = timers (world s)).
  { rewrite onMouseMove_cases. cbn zeta. rewrite Hs.
    match goal with
    | |- context [updatePerturbation ?hs ?x] =>
        destruct (updatePerturbation_frame hs x) as (H1 & H2 & _)
    end.
    split; [exact H1|exact H2]. }
  destruct Hfr as (Hnow & Htm).
  destruct (advance_return_step (world (onMouseMove e s)) t dt) as (S1 & _).
  { right. rewrite Htm, Ht. left. reflexivity. }
  destruct S1 as (I1 & I2 & _); [right; rewrite Hnow; exact Hdt|].
  split; [exact I1|]. split; [exact I2|].
  destruct (advance_frame dt (world (onMouseMove e s))) as (_ & Hbod & _).
  rewrite Hbod. exact F1.
Qed.

(** Jupiter is clicked and Escape is pressed 400 ms later; 1.2 s after
    the click the state is [FOCUS] with the return pending; the pointer
    then moves over Jupiter, and when the return completes Jupiter is
    perturbed at 0.15 in the overview. *)
Lemma perturbation_left_on_witness :
  let b := mkBody "Jupiter" 6 (mkVec3 95 0 0) (Some (mkPlanetFx 0.1 0.1)) in
  let w := install_callbacks true false true
             (new_World (<[7%nat := b]> ∅) 60) in
  let w1 := advance 400 (fst (focusOnBody (Some 7%nat) w)) in
  let w3 := advance 800 (fst (onKeyDown "Escape" w1)) in
  let e := mkMouseMove 960 540 1920 1080 []
             [mkSurfaceHit (Some (mkVec2 0.3 0.6))] in
  let w5 := advance 400 (world (onMouseMove e (new_Stage w3))) in
  state (ic w5) = GLOBAL /\
  bodies w5 !! 7%nat
  = Some (mkBody "Jupiter" 6 (mkVec3 95 0 0) (Some (mkPlanetFx 0.15 0.15))).
Proof.
  intros b w w1 w3 e w5.
  destruct (perturbation_left_on (new_Stage w3) 7%nat
              (mkBody "Jupiter" 6 (mkVec3 95 0 0) (Some (mkPlanetFx 0 0)))
              (mkPlanetFx 0 0) e
              (mkSurfaceHit (Some (mkVec2 0.3 0.6))) [] 1600 400)
    as (_ & _ & H3 & _ & H5).
  - vm_compute. reflexivity.
  - vm_compute. reflexivity.
  - vm_compute. reflexivity.
  - reflexivity.
  - vm_compute. reflexivity.
  - vm_compute. discriminate.
  - reflexivity.
  - split; [exact H3|exact H5].
Defined.

End PointerMoveFacts.

(* ===================================================================== *)
(** * Properties of the mouse-driven view *)
(* ===================================================================== *)

Section MouseViewFacts.
Import Geometry Interaction MouseView.
Local Open Scope R_scope.

Local Arguments v3_normalize : simpl never.

(** ** The mouse influence *)

Lemma next_influence_step c :
  v2_sub (next_influence c) (targetMouseInfluence c)
  = v2_multiplyScalar 0.95
      (v2_sub (mouseInfluence c) (targetMouseInfluence c)).
Proof.
  unfold next_influence, v2_lerp, v2_sub, v2_multiplyScalar. cbn.
  f_equal; lra.
Qed.

Lemma mouse_view_keeps q p c :
  let c' := mouse_view q p c in
  mouseInfluence c' = next_influence c /\
  targetMouseInfluence c' = targetMouseInfluence c /\
  view_active c' = view_active c /\
  focusedBody c' = focusedBody c /\
  focusBaseDistance c' = focusBaseDistance c.
Proof. repeat split. Qed.

(** One frame while the mouse-driven view is active. *)
Lemma cam_update_active orbit q w r b :
  view_active (cam w) = true ->
  focusedBody (cam w) = Some r -> bodies w !! r = Some b ->
  let w' := cam_update orbit q w in
  bodies w' = bodies w /\
  mouseInfluence (cam w') = next_influence (cam w) /\
  targetMouseInfluence (cam w') = targetMouseInfluence (cam w) /\
  view_active (cam w') = true /\
  focusedBody (cam w') = Some r.
Proof.
  intros Hv Hf Hb. cbn zeta. unfold cam_update.
  set (c1 := if ctl_enabled (controls (cam w)) && negb (isTransitioning (cam w))
             then set_position (orbit (camera (cam w)) (controls (cam w)))
                    (cam w)
             else cam w).
  assert (H1 : view_active c1 = true /\ focusedBody c1 = Some r /\
               mouseInfluence c1 = mouseInfluence (cam w) /\
               targetMouseInfluence c1 = targetMouseInfluence (cam w)).
  { unfold c1.
    destruct (ctl_enabled (controls (cam w)) && negb (isTransitioning (cam w)));
      repeat split; assumption. }
  destruct H1 as (V1 & F1 & M1 & T1).
  rewrite V1, F1, Hb. cbn [cam set_cam bodies].
  destruct (mouse_view_keeps q (worldPosition b) c1) as (K1 & K2 & K3 & K4 & _).
  rewrite K1, K2, K3, K4. unfold next_influence. rewrite M1, T1.
  repeat split; assumption.
Qed.

(** X15. The mouse influence converges to the pointer.  While the
    mouse-driven view is active and the pointer rests, every frame moves
    the mouse influence one twentieth of the way to its target: after [n]
    frames the remaining difference is [0.95 ^ n] times the initial one,
    wherever the orbit controls put the camera and however it is
    oriented, and the view stays active. *)
Theorem mouse_influence_converges
  (orbit : PerspectiveCamera -> OrbitControls -> Vec3)
  (qs : list Quaternion) (w : World) (r : nat) (b : Body) :
  view_active (cam w) = true ->
  focusedBody (cam w) = Some r -> bodies w !! r = Some b ->
  let w' := cam_updates orbit qs w in
  targetMouseInfluence (cam w') = targetMouseInfluence (cam w) /\
  v2_sub (mouseInfluence (cam w')) (targetMouseInfluence (cam w))
  = v2_multiplyScalar (0.95 ^ length qs)
      (v2_sub (mouseInfluence (cam w)) (targetMouseInfluence (cam w))) /\
  view_active (cam w') = true.
Proof.
  revert w. induction qs as [|q qs IH]; intros w Hv Hf Hb.
  - cbn. repeat split; [|exact Hv].
    unfold v2_multiplyScalar, v2_sub. cbn. f_equal; ring.
  - cbn zeta. cbn [cam_updates fold_left length].
    destruct (cam_update_active orbit q w r b Hv Hf Hb)
      as (U1 & U2 & U3 & U4 & U5).
    assert (Hb' : bodies (cam_update orbit q w) !! r = Some b)
      by (rewrite U1; exact Hb).
    destruct (IH (cam_update orbit q w) U4 U5 Hb') as (I1 & I2 & I3).
    unfold cam_updates in I1, I2, I3.
    split; [rewrite I1; exact U3|]. split; [|exact I3].
    rewrite U3 in I2. rewrite I2, U2, next_influence_step.
    unfold v2_multiplyScalar, v2_sub. cbn [v2x v2y pow]. f_equal; ring.
Qed.

(** Mars has been focused, the pointer has moved to the right edge:
    three frames later the influence is [0.95 ^ 3] short of it. *)
Lemma mouse_influence_converges_witness :
  let b := mkBody "Mars" 2 (mkVec3 65 0 0) (Some (mkPlanetFx 0.1 0.1)) in
  let w0 := advance 1200
              (fst (focusOnBody (Some 7%nat) (new_World (<[7%nat := b]> ∅) 60))) in
  let w := upd_cam (updateMouseView 1 0) w0 in
  let q := mkQuaternion 0 0 0 1 in
  let w' := cam_updates (fun c _ => position c) [q; q; q] w in
  v2_sub (mouseInfluence (cam w')) (targetMouseInfluence (cam w))
  = v2_multiplyScalar (0.95 ^ 3)
      (v2_sub (mouseInfluence (cam w)) (targetMouseInfluence (cam w))).
Proof.
  intros b w0 w q w'.
  refine (proj1 (proj2 (mouse_influence_converges (fun c _ => position c)
                          [q; q; q] w 7%nat
                          (mkBody "Mars" 2 (mkVec3 65 0 0)
                             (Some (mkPlanetFx 0.15 0.15))) _ _ _))).
  - vm_compute. reflexivity.
  - vm_compute. reflexivity.
  - vm_compute. reflexivity.
Defined.

(** ** The offset of the controls target *)

(** X16. The offset of the controls target does not tell left from
    right.  [update()] scales [cameraRight] and [cameraUp] in place when
    it offsets the camera position, and scales the same vectors again for
    the offset of the controls target; the target is therefore moved
    towards the body position plus [0.2 sx^2] times the camera's right
    vector plus [0.2 sy^2] times its up vector, where [sx] and [sy] are
    the screen offsets: the squares make the offset the same for a pointer
    on the left and on the right, above and below. *)
Theorem target_offset_ignores_side
  (q : Quaternion) (bodyPos : Vec3) (c : CameraController) :
  let mi := next_influence c in
  let sx := v2x mi * focusBaseDistance c * 0.4 in
  let sy := v2y mi * focusBaseDistance c * 0.3 in
  let right := applyQuaternion q (mkVec3 1 0 0) in
  let up := applyQuaternion q (mkVec3 0 1 0) in
  target (controls (mouse_view q bodyPos c))
  = v3_lerp (target (controls c))
      (v3_add bodyPos
         (v3_add (v3_multiplyScalar (0.2 * (sx * sx)) right)
                 (v3_multiplyScalar (0.2 * (sy * sy)) up))) 0.1 /\
  target (controls (mouse_view q bodyPos (mirrored c)))
  = target (controls (mouse_view q bodyPos c)).
Proof.
  cbn zeta. split.
  - unfold mouse_view. cbn [target controls].
    unfold v3_lerp, v3_add, v3_multiplyScalar. cbn [v3x v3y v3z].
    f_equal; ring.
  - unfold mouse_view, mirrored, next_influence. cbn [target controls
      mouseInfluence targetMouseInfluence focusBaseDistance].
    unfold v3_lerp, v3_add, v3_multiplyScalar, v2_lerp, v2_multiplyScalar.
    cbn [v3x v3y v3z v2x v2y].
    f_equal; ring.
Qed.

(** ** The aim of the camera *)

Lemma v3_length_normalize v :
  v3_length v <> 0 -> v3_length (v3_normalize v) = 1.
Proof.
  intros H. unfold v3_normalize.
  destruct (Req_dec_T (v3_length v) 0) as [E|_]; [contradiction|].
  unfold v3_length in *. cbn [v3_multiplyScalar v3x v3y v3z].
  set (S := v3x v * v3x v + v3y v * v3y v + v3z v * v3z v) in *.
  assert (HS : 0 <= S) by (unfold S; nra).
  assert (Hl : sqrt S * sqrt S = S) by (apply sqrt_sqrt, HS).
  replace (v3x v * (1 / sqrt S) * (v3x v * (1 / sqrt S)) +
           v3y v * (1 / sqrt S) * (v3y v * (1 / sqrt S)) +
           v3z v * (1 / sqrt S) * (v3z v * (1 / sqrt S)))
    with (S / (sqrt S * sqrt S)) by (unfold S; field; exact H).
  rewrite Hl. unfold Rdiv. rewrite Rinv_r; [apply sqrt_1|].
  intros E. rewrite E, sqrt_0 in H. apply H. reflexivity.
Qed.

Lemma base_direction_length :
  v3_length (v3_normalize (mkVec3 0.5 0.3 1)) = 1.
Proof.
  apply v3_length_normalize. unfold v3_length. cbn [v3x v3y v3z].
  intros E.
  assert (H : 0 < sqrt (0.5 * 0.5 + 0.3 * 0.3 + 1 * 1))
    by (apply sqrt_lt_R0; lra).
  lra.
Qed.

Lemma rotation_algebra s c x z :
  s * s + c * c = 1 ->
  (x * (1 - 2 * s * s) + 2 * c * s * z) * (x * (1 - 2 * s * s) + 2 * c * s * z)
  + (z * (1 - 2 * s * s) - 2 * c * s * x) * (z * (1 - 2 * s * s) - 2 * c * s * x)
  = x * x + z * z.
Proof.
  intros H.
  replace ((x * (1 - 2 * s * s) + 2 * c * s * z)
           * (x * (1 - 2 * s * s) + 2 * c * s * z)
           + (z * (1 - 2 * s * s) - 2 * c * s * x)
             * (z * (1 - 2 * s * s) - 2 * c * s * x))
    with ((x * x + z * z)
          * ((1 - 2 * s * s) * (1 - 2 * s * s) + 4 * (c * c) * (s * s)))
    by ring.
  replace (c * c) with (1 - s * s) by lra. ring.
Qed.

Lemma sin_cos_half a : sin (a / 2) * sin (a / 2) + cos (a / 2) * cos (a / 2) = 1.
Proof. pose proof (sin2_cos2 (a / 2)) as H. unfold Rsqr in H. exact H. Qed.

(** A rotation about the vertical axis keeps the length. *)
Lemma applyAxisAngle_Y_length a v :
  v3_length (applyAxisAngle (mkVec3 0 1 0) a v) = v3_length v.
Proof.
  unfold applyAxisAngle, setFromAxisAngle, applyQuaternion, v3_length.
  cbn [qx qy qz qw v3x v3y v3z].
  set (s := sin (a / 2)). set (c := cos (a / 2)).
  pose proof (rotation_algebra s c (v3x v) (v3z v) (sin_cos_half a)) as H.
  fold s c in H. f_equal.
  replace (v3x v * v3x v + v3y v * v3y v + v3z v * v3z v)
    with (v3x v * v3x v + v3z v * v3z v + v3y v * v3y v) by ring.
  rewrite <- H. ring.
Qed.

(** A rotation about the first axis keeps the length. *)
Lemma applyAxisAngle_X_length a v :
  v3_length (applyAxisAngle (mkVec3 1 0 0) a v) = v3_length v.
Proof.
  unfold applyAxisAngle, setFromAxisAngle, applyQuaternion, v3_length.
  cbn [qx qy qz qw v3x v3y v3z].
  set (s := sin (a / 2)). set (c := cos (a / 2)).
  pose proof (rotation_algebra s c (v3z v) (v3y v) (sin_cos_half a)) as H.
  fold s c in H. f_equal.
  replace (v3x v * v3x v + v3y v * v3y v + v3z v * v3z v)
    with (v3z v * v3z v + v3y v * v3y v + v3x v * v3x v) by ring.
  rewrite <- H. ring.
Qed.

Lemma applyAxisAngle_zero axis v : applyAxisAngle axis 0 v = v.
Proof.
  unfold applyAxisAngle, setFromAxisAngle, applyQuaternion.
  cbn [qx qy qz qw].
  replace (0 / 2) with 0 by lra. rewrite sin_0, cos_0.
  destruct v as [x y z]. cbn [v3x v3y v3z]. f_equal; ring.
Qed.

Lemma v3_length_scale d v :
  v3_length (v3_multiplyScalar d v) = Rabs d * v3_length v.
Proof.
  unfold v3_length, v3_multiplyScalar. cbn [v3x v3y v3z].
  replace (v3x v * d * (v3x v * d) + v3y v * d * (v3y v * d)
           + v3z v * d * (v3z v * d))
    with (d * d * (v3x v * v3x v + v3y v * v3y v + v3z v * v3z v)) by ring.
  rewrite sqrt_mult_alt by nra.
  f_equal. fold (Rsqr d). apply sqrt_Rsqr_abs.
Qed.

Lemma viewDirection_length mi : v3_length (viewDirection mi) = 1.
Proof.
  unfold viewDirection.
  rewrite applyAxisAngle_X_length, applyAxisAngle_Y_length.
  apply base_direction_length.
Qed.

Lemma viewDirection_rest :
  viewDirection (mkVec2 0 0) = v3_normalize (mkVec3 0.5 0.3 1).
Proof.
  unfold viewDirection. cbn [v2x v2y].
  replace (0 * 0.5) with 0 by lra. replace (0 * 0.4) with 0 by lra.
  rewrite !applyAxisAngle_zero. reflexivity.
Qed.

Lemma distanceMultiplier_rest c :
  distanceMultiplier c (mkVec2 0 0) = minDistanceMultiplier c.
Proof.
  unfold distanceMultiplier, lerp. cbn [v2x v2y].
  replace (0 * 0 + 0 * 0) with 0 by ring. rewrite sqrt_0.
  rewrite Rmin_left by lra. ring.
Qed.

(** X17. Where the mouse-driven view aims.  The camera is drawn towards a
    point in the rotated base direction, a unit vector, at the focus
    distance times a multiplier between [minDistanceMultiplier] and
    [maxDistanceMultiplier] (0.7 and 1.5) from the body, plus the screen
    offsets.  With the pointer at rest in the centre the multiplier is the
    minimum and nothing is rotated or offset: each frame moves the camera
    8% of the way to the point at 0.7 times the focus distance in the
    base direction, that is closer to the body than where the focus
    transition ended, and the controls target 10% of the way to the
    body. *)
Theorem view_aim (c : CameraController) (mi : Vec2) (q : Quaternion) (p : Vec3) :
  minDistanceMultiplier c <= maxDistanceMultiplier c ->
  minDistanceMultiplier c <= distanceMultiplier c mi
                          <= maxDistanceMultiplier c /\
  v3_length (viewDirection mi) = 1 /\
  v3_length (v3_multiplyScalar
               (focusBaseDistance c * distanceMultiplier c mi)
               (viewDirection mi))
  = Rabs (focusBaseDistance c) * Rabs (distanceMultiplier c mi) /\
  (mouseInfluence c = mkVec2 0 0 -> targetMouseInfluence c = mkVec2 0 0 ->
   mouseInfluence (mouse_view q p c) = mkVec2 0 0 /\
   position (camera (mouse_view q p c))
   = v3_lerp (position (camera c))
       (v3_add p
          (v3_multiplyScalar (focusBaseDistance c * minDistanceMultiplier c)
             (v3_normalize (mkVec3 0.5 0.3 1)))) 0.08 /\
   target (controls (mouse_view q p c)) = v3_lerp (target (controls c)) p 0.1).
Proof.
  intros Hmm.
  split.
  { unfold distanceMultiplier, lerp.
    set (t := Rmin _ 1).
    assert (Ht : 0 <= t <= 1).
    { unfold t. split; [|apply Rmin_r].
      apply Rmin_glb; [apply sqrt_pos|lra]. }
    nra. }
  split; [apply viewDirection_length|].
  split.
  { rewrite v3_length_scale, viewDirection_length, Rabs_mult. ring. }
  intros Hm Ht.
  assert (Hn : next_influence c = mkVec2 0 0).
  { unfold next_influence, v2_lerp. rewrite Hm, Ht. cbn [v2x v2y].
    f_equal; ring. }
  unfold mouse_view. cbn [mouseInfluence position camera target controls].
  rewrite Hn, distanceMultiplier_rest, viewDirection_rest. cbn [v2x v2y].
  split; [reflexivity|].
  unfold v3_lerp, v3_add, v3_multiplyScalar. cbn [v3x v3y v3z].
  split; f_equal; ring.
Qed.

(** The camera controller as constructed, its focus distance set to 8:
    for the influence (0.6, 0.8) the direction is a unit vector and the
    multiplier lies between 0.7 and 1.5. *)
Lemma view_aim_witness :
  let c := store_focus 8 (mkVec3 0 0 0) (mkVec3 0 0 0)
             (new_CameraController (mkPerspectiveCamera (mkVec3 0 50 150) 60)) in
  v3_length (viewDirection (mkVec2 0.6 0.8)) = 1 /\
  0.7 <= distanceMultiplier c (mkVec2 0.6 0.8) <= 1.5.
Proof.
  intros c.
  destruct (view_aim c (mkVec2 0.6 0.8) (mkQuaternion 0 0 0 1) (mkVec3 0 0 0))
    as (H1 & H2 & _).
  - cbn. lra.
  - split; [exact H2|exact H1].
Defined.

End MouseViewFacts.

(* ===================================================================== *)
(** * Properties of the HDR environment *)
(* ===================================================================== *)

Section EnvironmentFacts.
Import Interaction Environment.
Local Open Scope Z_scope.

Lemma shown_in_range h z e :
  shown h z e -> 0 <= z < Z.of_nat (length (environments h)).
Proof.
  intros (_ & H0 & Hn & _). split; [exact H0|].
  assert (H : (Z.to_nat z < length (environments h))%nat)
    by (apply List.nth_error_Some; rewrite Hn; discriminate).
  lia.
Qed.

(** Two states with the same environments that show the same position
    are the same state. *)
Lemma shown_unique h h' z e e' :
  environments h' = environments h -> shown h z e -> shown h' z e' -> h' = h.
Proof.
  intros He (H1 & _ & H3 & H4 & H5 & H6) (G1 & _ & G3 & G4 & G5 & G6).
  rewrite He in G3. rewrite H3 in G3. injection G3 as <-.
  destruct h, h'. cbn in *. congruence.
Qed.

Lemma setEnvironment_in_range h z :
  0 <= z < Z.of_nat (length (environments h)) ->
  exists e,
    snd (setEnvironment (Int z) h) = Returned tt /\
    environments (fst (setEnvironment (Int z) h)) = environments h /\
    shown (fst (setEnvironment (Int z) h)) z e.
Proof.
  intros Hz. unfold setEnvironment.
  rewrite (proj2 (Z.ltb_ge _ _)) by lia.
  rewrite (proj2 (Z.leb_gt _ _)) by lia. cbn [orb].
  destruct (nth_error (environments h) (Z.to_nat z)) as [e|] eqn:E.
  - exists e. cbn. repeat split; [lia|exact E].
  - apply nth_error_None in E. lia.
Qed.

Lemma next_shown h z e :
  shown h z e ->
  exists e',
    snd (next h) = Returned (getCurrentName (fst (next h))) /\
    environments (fst (next h)) = environments h /\
    shown (fst (next h))
      ((z + 1) mod Z.of_nat (length (environments h))) e'.
Proof.
  intros Hs. pose proof (shown_in_range h z e Hs) as Hr.
  destruct Hs as (H1 & _). unfold next. rewrite H1. cbn [index_add index_rem].
  destruct (length (environments h)) as [|n] eqn:El; [cbn in Hr; lia|].
  cbn [Nat.eqb]. rewrite Z.rem_mod_nonneg by lia.
  rewrite <- El in *.
  destruct (setEnvironment_in_range h
              ((z + 1) mod Z.of_nat (length (environments h))))
    as (e' & S1 & S2 & S3).
  { apply Z.mod_pos_bound. lia. }
  exists e'.
  destruct (setEnvironment _ h) as [h' [[]|x]]; cbn in *;
    [|discriminate].
  split; [reflexivity|]. split; assumption.
Qed.

Lemma previous_shown h z e :
  shown h z e ->
  exists e',
    snd (previous h) = Returned (getCurrentName (fst (previous h))) /\
    environments (fst (previous h)) = environments h /\
    shown (fst (previous h))
      ((z - 1) mod Z.of_nat (length (environments h))) e'.
Proof.
  intros Hs. pose proof (shown_in_range h z e Hs) as Hr.
  destruct Hs as (H1 & _). unfold previous. rewrite H1.
  cbn [index_add index_rem].
  destruct (length (environments h)) as [|n] eqn:El; [cbn in Hr; lia|].
  cbn [Nat.eqb]. rewrite Z.rem_mod_nonneg by lia.
  rewrite <- El in *.
  replace ((z + -1 + Z.of_nat (length (environments h)))
           mod Z.of_nat (length (environments h)))
    with ((z - 1) mod Z.of_nat (length (environments h))).
  2:{ replace (z + -1 + Z.of_nat (length (environments h)))
        with (z - 1 + 1 * Z.of_nat (length (environments h))) by lia.
      rewrite Z.mod_add by lia. reflexivity. }
  destruct (setEnvironment_in_range h
              ((z - 1) mod Z.of_nat (length (environments h))))
    as (e' & S1 & S2 & S3).
  { apply Z.mod_pos_bound. lia. }
  exists e'.
  destruct (setEnvironment _ h) as [h' [[]|x]]; cbn in *;
    [|discriminate].
  split; [reflexivity|]. split; assumption.
Qed.

Lemma nexts_shown k : forall h z e,
  shown h z e ->
  exists e',
    environments (nexts k h) = environments h /\
    shown (nexts k h)
      ((z + Z.of_nat k) mod Z.of_nat (length (environments h))) e'.
Proof.
  induction k as [|k IH]; intros h z e Hs.
  - exists e. split; [reflexivity|]. cbn [nexts].
    rewrite Z.add_0_r, Z.mod_small by (apply (shown_in_range h z e Hs)).
    exact Hs.
  - cbn [nexts]. destruct (next_shown h z e Hs) as (e1 & _ & N2 & N3).
    destruct (IH _ _ _ N3) as (e' & I1 & I2).
    exists e'. rewrite N2 in I1, I2. split; [exact I1|].
    replace ((z + Z.of_nat (S k)) mod Z.of_nat (length (environments h)))
      with (((z + 1) mod Z.of_nat (length (environments h)) + Z.of_nat k)
            mod Z.of_nat (length (environments h))); [exact I2|].
    pose proof (shown_in_range h z e Hs).
    rewrite Zplus_mod_idemp_l. f_equal. lia.
Qed.

(** X18. Cycling through the environments.  When an environment is
    shown (its position is the current index and its map is the current
    map, the scene's environment and its background), [next()] and
    [previous()] return the display name and show the environment one
    position further or back, wrapping around; each undoes the other, and
    as many calls of [next()] as there are environments lead back to the
    same state. *)
Theorem environment_cycle (h : HDREnvironment) (z : Z) (e : Env) :
  shown h z e ->
  let n := Z.of_nat (length (environments h)) in
  (exists e', shown (fst (next h)) ((z + 1) mod n) e') /\
  (exists e', shown (fst (previous h)) ((z - 1) mod n) e') /\
  snd (next h) = Returned (getCurrentName (fst (next h))) /\
  snd (previous h) = Returned (getCurrentName (fst (previous h))) /\
  fst (previous (fst (next h))) = h /\
  fst (next (fst (previous h))) = h /\
  nexts (length (environments h)) h = h.
Proof.
  intros Hs. cbn zeta. pose proof (shown_in_range h z e Hs) as Hr.
  destruct (next_shown h z e Hs) as (e1 & N1 & N2 & N3).
  destruct (previous_shown h z e Hs) as (e2 & P1 & P2 & P3).
  split; [exists e1; exact N3|]. split; [exists e2; exact P3|].
  split; [exact N1|]. split; [exact P1|].
  split; [|split].
  - destruct (previous_shown _ _ _ N3) as (e3 & _ & Q2 & Q3).
    rewrite N2 in Q2, Q3.
    assert (Ez : ((z + 1) mod Z.of_nat (length (environments h)) - 1)
                 mod Z.of_nat (length (environments h)) = z).
    { rewrite Zminus_mod_idemp_l.
      replace (z + 1 - 1) with z by lia. apply Z.mod_small, Hr. }
    rewrite Ez in Q3.
    apply (shown_unique h _ z e e3); [congruence|exact Hs|exact Q3].
  - destruct (next_shown _ _ _ P3) as (e3 & _ & Q2 & Q3).
    rewrite P2 in Q2, Q3.
    assert (Ez : ((z - 1) mod Z.of_nat (length (environments h)) + 1)
                 mod Z.of_nat (length (environments h)) = z).
    { rewrite Zplus_mod_idemp_l.
      replace (z - 1 + 1) with z by lia. apply Z.mod_small, Hr. }
    rewrite Ez in Q3.
    apply (shown_unique h _ z e e3); [congruence|exact Hs|exact Q3].
  - destruct (nexts_shown (length (environments h)) h z e Hs)
      as (e3 & Q2 & Q3).
    assert (Ez : (z + Z.of_nat (length (environments h)))
                 mod Z.of_nat (length (environments h)) = z).
    { replace (z + Z.of_nat (length (environments h)))
        with (z + 1 * Z.of_nat (length (environments h))) by lia.
      rewrite Z.mod_add by lia. apply Z.mod_small, Hr. }
    rewrite Ez in Q3.
    apply (shown_unique h _ z e e3); [exact Q2|exact Hs|exact Q3].
Qed.

(** All three nebulae loaded: three calls of [next()] lead back to the
    first. *)
Lemma environment_cycle_witness :
  let getHDR := fun name : string =>
                  if String.eqb name "nebula_blue" then Some (mkHdr 1 2)
                  else if String.eqb name "nebula_multi" then Some (mkHdr 3 4)
                  else Some (mkHdr 5 6) in
  let h := fst (init getHDR new_HDREnvironment) in
  currentEnvMap (fst (next h)) = Some 4%nat /\
  nexts 3 h = h.
Proof.
  intros getHDR h.
  destruct (environment_cycle h 0 (mkEnv "nebula_blue" 2 1))
    as (_ & _ & _ & _ & _ & _ & H).
  - vm_compute. repeat split. discriminate.
  - split; [vm_compute; reflexivity|exact H].
Defined.

(** X19. With no environment loaded, switching throws.  When none of
    the three HDR textures has loaded, [init()] leaves the list empty and
    sets nothing, while the display name is still that of the first
    nebula; [next()] and [previous()] then compute the index [x % 0], not
    a number, which passes the range check of [setEnvironment], is stored
    as the current index, and reading the map of the missing entry throws
    a [TypeError]; the display name is then Unknown, and every later
    [next()] throws again. *)
Theorem no_environment_next_throws
  (getHDR : string -> option Hdr) (k : nat) :
  (forall name, In name hdrNames -> getHDR name = None) ->
  let h := fst (init getHDR new_HDREnvironment) in
  snd (init getHDR new_HDREnvironment) = Returned tt /\
  environments h = [] /\ currentEnvMap h = None /\
  scene_background h = None /\
  getCurrentName h = "Blue Nebula" /\
  snd (next h) = Threw TypeError /\ snd (previous h) = Threw TypeError /\
  currentIndex (fst (next h)) = NaNIndex /\
  currentIndex (fst (previous h)) = NaNIndex /\
  getCurrentName (fst (next h)) = "Unknown" /\
  snd (next (nexts k (fst (next h)))) = Threw TypeError.
Proof.
  intros H. cbn zeta.
  assert (Ei : init getHDR new_HDREnvironment
               = (new_HDREnvironment, Returned tt)).
  { unfold init, hdrNames. cbn [flat_map].
    rewrite !H by (cbn; auto). reflexivity. }
  rewrite Ei. cbn [fst snd].
  repeat split.
  induction k as [|k IH]; [reflexivity|exact IH].
Qed.

Lemma no_environment_next_throws_witness :
  snd (next (fst (init (fun _ => None) new_HDREnvironment))) = Threw TypeError.
Proof.
  refine (proj1 (proj2 (proj2 (proj2 (proj2 (proj2
            (no_environment_next_throws (fun _ => None) 0 _))))))).
  intros name _. reflexivity.
Defined.

(** X20. Display names go by position.  [init()] keeps the
    environments that loaded, in the order of the three nebulae, and shows
    the first of them; the display name is looked up by the current index
    in the full list of three names.  When all three have loaded the
    names fit; when the first has not, the second nebula is shown under
    the name of the first. *)
Theorem environment_names_positional
  (getHDR : string -> option Hdr) (a b c : Hdr) :
  getHDR "nebula_multi" = Some b -> getHDR "nebula_gold" = Some c ->
  let h := fst (init getHDR new_HDREnvironment) in
  (getHDR "nebula_blue" = Some a ->
   environments h
   = [mkEnv "nebula_blue" (hdr_envMap a) (hdr_original a);
      mkEnv "nebula_multi" (hdr_envMap b) (hdr_original b);
      mkEnv "nebula_gold" (hdr_envMap c) (hdr_original c)] /\
   shown h 0 (mkEnv "nebula_blue" (hdr_envMap a) (hdr_original a)) /\
   getCurrentName h = "Blue Nebula" /\
   getCurrentName (fst (next h)) = "Multi-Color Nebula" /\
   getCurrentName (fst (previous h)) = "Silver & Gold Nebula") /\
  (getHDR "nebula_blue" = None ->
   environments h
   = [mkEnv "nebula_multi" (hdr_envMap b) (hdr_original b);
      mkEnv "nebula_gold" (hdr_envMap c) (hdr_original c)] /\
   shown h 0 (mkEnv "nebula_multi" (hdr_envMap b) (hdr_original b)) /\
   getCurrentName h = "Blue Nebula" /\
   shown (fst (next h)) 1
     (mkEnv "nebula_gold" (hdr_envMap c) (hdr_original c)) /\
   getCurrentName (fst (next h)) = "Multi-Color Nebula").
Proof.
  intros Hb Hc. cbn zeta. split; intros Ha.
  - unfold init, hdrNames. cbn [flat_map]. rewrite Ha, Hb, Hc. cbn.
    repeat split; discriminate.
  - unfold init, hdrNames. cbn [flat_map]. rewrite Ha, Hb, Hc. cbn.
    repeat split; discriminate.
Qed.

(** The blue nebula failed to load. *)
Lemma environment_names_positional_witness :
  let getHDR := fun name : string =>
                  if String.eqb name "nebula_blue" then None
                  else if String.eqb name "nebula_multi" then Some (mkHdr 3 4)
                  else Some (mkHdr 5 6) in
  let h := fst (init getHDR new_HDREnvironment) in
  currentEnvMap h = Some 4%nat /\ getCurrentName h = "Blue Nebula".
Proof.
  intros getHDR h.
  destruct (environment_names_positional getHDR (mkHdr 1 2) (mkHdr 3 4)
              (mkHdr 5 6) eq_refl eq_refl) as (_ & H).
  destruct (H eq_refl) as (_ & (_ & _ & _ & H4 & _) & H3 & _).
  split; [exact H4|exact H3].
Defined.

End EnvironmentFacts.

(* ===================================================================== *)
(** * Properties of the orbits *)
(* ===================================================================== *)

Section OrbitFacts.
Import Geometry Orbit.
Local Open Scope R_scope.

Lemma orbiting_spec b :
  orbiting b = true <-> 0 < orbitRadius b /\ orbitSpeed b <> 0.
Proof.
  unfold orbiting.
  destruct (Rlt_dec 0 (orbitRadius b)); destruct (Req_dec_T (orbitSpeed b) 0);
    cbn; split; try discriminate; try tauto; intros _; tauto.
Qed.

Lemma updateOrbit_orbiting dt b :
  orbiting (updateOrbit dt b) = orbiting b.
Proof.
  unfold updateOrbit. destruct (orbiting b) eqn:E; [|exact E].
  rewrite <- E. reflexivity.
Qed.

(** X21. One step along the orbit.  For a body with a positive orbit
    radius and a speed other than zero, [updateOrbit] advances the angle
    by speed times elapsed time and puts the body, and its group, on the
    ellipse around the orbit centre with the half axes [a] and
    [a (1 - e)] (a circle when the eccentricity is 0), at a height within
    a tenth of the orbit radius of the centre.  A body with no orbit, or
    with speed 0, is left as it is. *)
Theorem orbit_step (b : CelestialBody) (dt : R) :
  let b' := updateOrbit dt b in
  (orbiting b = true ->
   orbitAngle b' = orbitAngle b + orbitSpeed b * dt /\
   on_orbit b (body_position b') /\
   group_position b' = body_position b' /\
   getWorldPosition b' = body_position b' /\
   Rabs (v3y (body_position b') - v3y (orbitCenter b))
   <= 0.1 * orbitRadius b /\
   (orbitEccentricity b = 0 ->
    (v3x (body_position b') - v3x (orbitCenter b))
    * (v3x (body_position b') - v3x (orbitCenter b))
    + (v3z (body_position b') - v3z (orbitCenter b))
      * (v3z (body_position b') - v3z (orbitCenter b))
    = orbitRadius b * orbitRadius b)) /\
  (orbiting b = false -> b' = b).
Proof.
  cbn zeta. split; intros Ho; unfold updateOrbit; rewrite Ho;
    [|reflexivity].
  apply orbiting_spec in Ho. destruct Ho as (Hr & Hs).
  cbn [setPosition set_orbitAngle orbitAngle body_position group_position
       getWorldPosition v3x v3y v3z].
  set (th := orbitAngle b + orbitSpeed b * dt).
  pose proof (sin2_cos2 th) as Hsc. unfold Rsqr in Hsc.
  split; [reflexivity|]. split.
  { unfold on_orbit. cbn [v3x v3z].
    replace ((v3x (orbitCenter b) + orbitRadius b * cos th
              - v3x (orbitCenter b))
             * (v3x (orbitCenter b) + orbitRadius b * cos th
                - v3x (orbitCenter b))
             * ((1 - orbitEccentricity b) * (1 - orbitEccentricity b))
             + (v3z (orbitCenter b)
                + orbitRadius b * (1 - orbitEccentricity b) * sin th
                - v3z (orbitCenter b))
               * (v3z (orbitCenter b)
                  + orbitRadius b * (1 - orbitEccentricity b) * sin th
                  - v3z (orbitCenter b)))
      with (orbitRadius b * orbitRadius b
            * ((1 - orbitEccentricity b) * (1 - orbitEccentricity b))
            * (sin th * sin th + cos th * cos th)) by ring.
    rewrite Hsc. ring. }
  split; [reflexivity|]. split; [reflexivity|]. split.
  { pose proof (SIN_bound th) as (B1 & B2).
    pose proof (SIN_bound (orbitInclination b)) as (B3 & B4).
    set (s1 := sin th) in *. set (s2 := sin (orbitInclination b)) in *.
    assert (Hp : -1 <= s1 * s2 <= 1) by nra.
    apply Rabs_le. split; nra. }
  intros He. rewrite He.
  replace ((v3x (orbitCenter b) + orbitRadius b * cos th
            - v3x (orbitCenter b))
           * (v3x (orbitCenter b) + orbitRadius b * cos th
              - v3x (orbitCenter b))
           + (v3z (orbitCenter b) + orbitRadius b * (1 - 0) * sin th
              - v3z (orbitCenter b))
             * (v3z (orbitCenter b) + orbitRadius b * (1 - 0) * sin th
                - v3z (orbitCenter b)))
    with (orbitRadius b * orbitRadius b
          * (sin th * sin th + cos th * cos th)) by ring.
  rewrite Hsc. ring.
Qed.

(** X22. Steps along the orbit add up.  Where a body is after
    [updateOrbit] depends on the angle alone: two steps are one step of
    the sum of the two times, whatever the frame rate, and a step of a
    full period, [2 pi] over the speed, longer leads to the same
    position. *)
Theorem orbit_steps_add (b : CelestialBody) (dt1 dt2 : R) :
  orbiting b = true ->
  updateOrbit dt2 (updateOrbit dt1 b) = updateOrbit (dt1 + dt2) b /\
  body_position (updateOrbit (dt1 + 2 * PI / orbitSpeed b) b)
  = body_position (updateOrbit dt1 b).
Proof.
  intros Ho. split.
  - unfold updateOrbit at 1. rewrite updateOrbit_orbiting, Ho.
    unfold updateOrbit. rewrite Ho.
    cbn [setPosition set_orbitAngle orbitAngle orbitSpeed orbitRadius
         orbitCenter orbitInclination orbitEccentricity body_name
         rotationSpeed mesh_rotation_y body_uTime isMoon parentBody].
    replace (orbitAngle b + orbitSpeed b * dt1 + orbitSpeed b * dt2)
      with (orbitAngle b + orbitSpeed b * (dt1 + dt2)) by ring.
    reflexivity.
  - unfold updateOrbit. rewrite Ho.
    apply orbiting_spec in Ho. destruct Ho as (_ & Hs).
    cbn [setPosition body_position].
    replace (orbitAngle b + orbitSpeed b * (dt1 + 2 * PI / orbitSpeed b))
      with (orbitAngle b + orbitSpeed b * dt1 + 2 * INR 1 * PI)
      by (cbn [INR]; field; exact Hs).
    rewrite cos_period, sin_period. reflexivity.
Qed.

(** Mercury's orbit from the origin: a quarter of a second and three
    quarters are one second. *)
Lemma orbit_steps_add_witness :
  let b := mkCelestialBody "Mercury" (mkVec3 25 0 0) (mkVec3 25 0 0) 0.005
             25 0.15 0 (mkVec3 0 0 0) 0.12 0 (Some 0) (Some 0) false None in
  updateOrbit 0.75 (updateOrbit 0.25 b) = updateOrbit (0.25 + 0.75) b.
Proof.
  intros b. refine (proj1 (orbit_steps_add b 0.25 0.75 _)).
  apply orbiting_spec. cbn. lra.
Defined.

(** ** Display sizes *)

(** X23. Display sizes.  For a radius above [-1] the display radius is
    twice the logarithm of the radius plus one, clamped to the range from
    [minDisplaySize] to [maxDisplaySize] (1.2 to 8): it lies in the range,
    it is the logarithmic value where that lies in the range, it never
    decreases when the radius grows, and every radius up to [e^0.6 - 1]
    is displayed at the minimum size. *)
Theorem normalizeSize_clamped (s : SolarSystem) (r r' : R) :
  minDisplaySize s <= maxDisplaySize s -> -1 < r -> r <= r' ->
  minDisplaySize s <= normalizeSize s r <= maxDisplaySize s /\
  (minDisplaySize s <= 2 * ln (r + 1) <= maxDisplaySize s ->
   normalizeSize s r = 2 * ln (r + 1)) /\
  normalizeSize s r <= normalizeSize s r' /\
  (r + 1 <= exp (minDisplaySize s / 2) ->
   normalizeSize s r = minDisplaySize s).
Proof.
  intros Hmm Hr Hrr. unfold normalizeSize.
  assert (Hln : ln (r + 1) <= ln (r' + 1)).
  { destruct (Req_dec r r') as [->|Hne]; [lra|].
    left. apply ln_increasing; lra. }
  split.
  { split; [apply Rmax_l|]. apply Rmax_lub; [exact Hmm|apply Rmin_l]. }
  split.
  { intros (H1 & H2). rewrite Rmin_right by lra. rewrite Rmax_right by lra.
    ring. }
  split.
  { apply Rle_max_compat_l, Rle_min_compat_l. lra. }
  intros He.
  assert (Hl : ln (r + 1) <= minDisplaySize s / 2).
  { rewrite <- (ln_exp (minDisplaySize s / 2)).
    destruct (Req_dec (r + 1) (exp (minDisplaySize s / 2))) as [->|Hne];
      [lra|].
    left. apply ln_increasing; lra. }
  apply Rmax_left.
  eapply Rle_trans; [apply Rmin_r|]. lra.
Qed.

(** The solar system as constructed: a radius of 0 is displayed at 1.2. *)
Lemma normalizeSize_clamped_witness :
  normalizeSize new_SolarSystem 0 = 1.2.
Proof.
  refine (proj2 (proj2 (proj2 (normalizeSize_clamped new_SolarSystem 0 1
                                 _ _ _))) _).
  - cbn. lra.
  - lra.
  - lra.
  - cbn [minDisplaySize new_SolarSystem].
    pose proof (exp_ineq1 (1.2 / 2)) as H. lra.
Defined.

(** ** The Moon *)

Lemma updateOrbit_on_orbit b dt :
  orbiting b = true -> on_orbit b (body_position (updateOrbit dt b)).
Proof.
  intros Ho. unfold updateOrbit. rewrite Ho.
  cbn [setPosition body_position]. unfold on_orbit. cbn [v3x v3z].
  set (th := orbitAngle b + orbitSpeed b * dt).
  pose proof (sin2_cos2 th) as Hsc. unfold Rsqr in Hsc.
  replace ((v3x (orbitCenter b) + orbitRadius b * cos th
            - v3x (orbitCenter b))
           * (v3x (orbitCenter b) + orbitRadius b * cos th
              - v3x (orbitCenter b))
           * ((1 - orbitEccentricity b) * (1 - orbitEccentricity b))
           + (v3z (orbitCenter b)
              + orbitRadius b * (1 - orbitEccentricity b) * sin th
              - v3z (orbitCenter b))
             * (v3z (orbitCenter b)
                + orbitRadius b * (1 - orbitEccentricity b) * sin th
                - v3z (orbitCenter b)))
    with (orbitRadius b * orbitRadius b
          * ((1 - orbitEccentricity b) * (1 - orbitEccentricity b))
          * (sin th * sin th + cos th * cos th)) by ring.
  rewrite Hsc. ring.
Qed.

(** What [update] keeps of a body, and where it leaves it. *)
Lemma update_keeps dt el b :
  let b' := update dt el b in
  orbitCenter b' = orbitCenter b /\ orbitRadius b' = orbitRadius b /\
  orbitEccentricity b' = orbitEccentricity b /\
  body_position b' = body_position (updateOrbit dt b) /\
  group_position b' = group_position (updateOrbit dt b).
Proof.
  cbn zeta. unfold update, updateOrbit.
  destruct (orbiting b); repeat split.
Qed.

Lemma update_body_other dt el o r k :
  r <> k -> update_body dt el o r !! k = o !! k.
Proof.
  intros H. unfold update_body. destruct (o !! r); [|reflexivity].
  apply lookup_insert_ne. exact H.
Qed.

Lemma update_bodies_other dt el l : forall o k,
  ~ In k (map snd l) ->
  fold_left (fun o' (kv : string * nat) => update_body dt el o' (snd kv)) l o
  !! k = o !! k.
Proof.
  induction l as [|[n r] l IH]; intros o k Hk; [reflexivity|].
  cbn [fold_left snd]. rewrite IH.
  - apply update_body_other. intros ->. apply Hk. left. reflexivity.
  - intros Hin. apply Hk. right. exact Hin.
Qed.

(** X24. The Moon follows the Earth.  [SolarSystem.update] visits the
    bodies in the order in which they were added, and a moon first takes
    the world position of its parent as its orbit centre.  When the
    parent comes before the moon in that order, as the Earth does, the
    moon ends the frame on its orbit around the place where the parent is
    after the same frame; were the moon to come first, its orbit would be
    centred on the place where the parent was before the frame. *)
Theorem moon_follows_parent
  (s : SolarSystem) (dt el : R) (l1 l2 l3 : list (string * nat))
  (ne nm : string) (e m : nat) (E M : CelestialBody) :
  NoDup (map snd (bodies s)) ->
  objects s !! e = Some E -> objects s !! m = Some M ->
  isMoon E = false -> isMoon M = true -> parentBody M = Some e ->
  orbiting M = true ->
  bodies s = l1 ++ (ne, e) :: l2 ++ (nm, m) :: l3 \/
  bodies s = l1 ++ (nm, m) :: l2 ++ (ne, e) :: l3 ->
  let s' := ss_update dt el s in
  exists M',
    objects s' !! e = Some (update dt el E) /\
    objects s' !! m = Some M' /\
    on_orbit M' (body_position M') /\
    getWorldPosition M' = body_position M' /\
    (bodies s = l1 ++ (ne, e) :: l2 ++ (nm, m) :: l3 ->
     orbitCenter M' = getWorldPosition (update dt el E)) /\
    (bodies s = l1 ++ (nm, m) :: l2 ++ (ne, e) :: l3 ->
     orbitCenter M' = getWorldPosition E).
Proof.
  intros Hnd He Hm HE HM Hp Ho Hord. cbn zeta.
  assert (Hem : e <> m) by (intros ->; congruence).
  set (f := fun o' (kv : string * nat) => update_body dt el o' (snd kv)).
  assert (Hmoon : forall c,
    let M' := update dt el (set_orbitCenter c M) in
    on_orbit M' (body_position M') /\
    getWorldPosition M' = body_position M' /\ orbitCenter M' = c).
  { intros c. cbn zeta.
    assert (Ho' : orbiting (set_orbitCenter c M) = true) by exact Ho.
    destruct (update_keeps dt el (set_orbitCenter c M))
      as (K1 & K2 & K3 & K4 & K5).
    pose proof (updateOrbit_on_orbit (set_orbitCenter c M) dt Ho') as Hon.
    split; [|split].
    - unfold on_orbit in *. rewrite K1, K2, K3, K4. exact Hon.
    - unfold getWorldPosition. rewrite K4, K5.
      unfold updateOrbit. rewrite Ho'. reflexivity.
    - rewrite K1. reflexivity. }
  unfold ss_update. cbn [objects]. fold f.
  destruct Hord as [Hord|Hord]; rewrite Hord in Hnd |- *;
    rewrite map_app in Hnd; cbn [map snd] in Hnd;
    rewrite map_app in Hnd; cbn [map snd] in Hnd;
    apply NoDup_ListNoDup in Hnd;
    pose proof (List.NoDup_remove_2 _ _ _ Hnd) as Hn1;
    apply List.NoDup_remove_1 in Hnd;
    rewrite app_assoc in Hnd;
    pose proof (List.NoDup_remove_2 _ _ _ Hnd) as Hn2;
    rewrite !fold_left_app; cbn [fold_left]; rewrite fold_left_app;
    cbn [fold_left]; unfold f at 2 4; cbn [snd];
    set (o1 := fold_left f l1 (objects s)).
  - (* the parent first *)
    assert (E1 : o1 !! e = Some E).
    { unfold o1, f. rewrite update_bodies_other; [exact He|].
      intros Hin. apply Hn1. apply in_or_app. left. exact Hin. }
    assert (M1 : o1 !! m = Some M).
    { unfold o1, f. rewrite update_bodies_other; [exact Hm|].
      intros Hin. apply Hn2. apply in_or_app. left.
      apply in_or_app. left. exact Hin. }
    set (o2 := update_body dt el o1 e).
    assert (E2 : o2 !! e = Some (update dt el E)).
    { unfold o2, update_body. rewrite E1, HE. apply lookup_insert_eq. }
    assert (M2 : o2 !! m = Some M)
      by (unfold o2; rewrite update_body_other by exact Hem; exact M1).
    set (o3 := fold_left f l2 o2).
    assert (E3 : o3 !! e = Some (update dt el E)).
    { unfold o3, f. rewrite update_bodies_other; [exact E2|].
      intros Hin. apply Hn1. apply in_or_app. right.
      apply in_or_app. left. exact Hin. }
    assert (M3 : o3 !! m = Some M).
    { unfold o3, f. rewrite update_bodies_other; [exact M2|].
      intros Hin. apply Hn2. apply in_or_app. left.
      apply in_or_app. right. exact Hin. }
    set (M' := update dt el
                 (set_orbitCenter (getWorldPosition (update dt el E)) M)).
    set (o4 := update_body dt el o3 m).
    assert (M4 : o4 !! m = Some M').
    { unfold o4, update_body. rewrite M3, HM, Hp, E3.
      apply lookup_insert_eq. }
    assert (E4 : o4 !! e = Some (update dt el E)).
    { unfold o4. rewrite update_body_other by congruence. exact E3. }
    exists M'.
    destruct (Hmoon (getWorldPosition (update dt el E))) as (G1 & G2 & G3).
    split; [|split; [|split; [exact G1|split; [exact G2|split]]]].
    + unfold f. rewrite update_bodies_other; [exact E4|].
      intros Hin. apply Hn1. apply in_or_app. right.
      apply in_or_app. right. right. exact Hin.
    + unfold f. rewrite update_bodies_other; [exact M4|].
      intros Hin. apply Hn2. apply in_or_app. right. exact Hin.
    + intros _. exact G3.
    + intros Heq. exfalso. apply (f_equal (map snd)) in Heq.
      rewrite !map_app in Heq. cbn [map snd] in Heq.
      apply app_inv_head in Heq. injection Heq as Heq _. congruence.
  - (* the moon first *)
    assert (E1 : o1 !! e = Some E).
    { unfold o1, f. rewrite update_bodies_other; [exact He|].
      intros Hin. apply Hn2. apply in_or_app. left.
      apply in_or_app. left. exact Hin. }
    assert (M1 : o1 !! m = Some M).
    { unfold o1, f. rewrite update_bodies_other; [exact Hm|].
      intros Hin. apply Hn1. apply in_or_app. left. exact Hin. }
    set (M' := update dt el (set_orbitCenter (getWorldPosition E) M)).
    set (o2 := update_body dt el o1 m).
    assert (M2 : o2 !! m = Some M').
    { unfold o2, update_body. rewrite M1, HM, Hp, E1.
      apply lookup_insert_eq. }
    assert (E2 : o2 !! e = Some E)
      by (unfold o2; rewrite update_body_other by congruence; exact E1).
    set (o3 := fold_left f l2 o2).
    assert (E3 : o3 !! e = Some E).
    { unfold o3, f. rewrite update_bodies_other; [exact E2|].
      intros Hin. apply Hn2. apply in_or_app. left.
      apply in_or_app. right. exact Hin. }
    assert (M3 : o3 !! m = Some M').
    { unfold o3, f. rewrite update_bodies_other; [exact M2|].
      intros Hin. apply Hn1. apply in_or_app. right.
      apply in_or_app. left. exact Hin. }
    set (o4 := update_body dt el o3 e).
    assert (E4 : o4 !! e = Some (update dt el E)).
    { unfold o4, update_body. rewrite E3, HE. apply lookup_insert_eq. }
    assert (M4 : o4 !! m = Some M')
      by (unfold o4; rewrite update_body_other by exact Hem; exact M3).
    exists M'.
    destruct (Hmoon (getWorldPosition E)) as (G1 & G2 & G3).
    split; [|split; [|split; [exact G1|split; [exact G2|split]]]].
    + unfold f. rewrite update_bodies_other; [exact E4|].
      intros Hin. apply Hn2. apply in_or_app. right. exact Hin.
    + unfold f. rewrite update_bodies_other; [exact M4|].
      intros Hin. apply Hn1. apply in_or_app. right.
      apply in_or_app. right. right. exact Hin.
    + intros Heq. exfalso. apply (f_equal (map snd)) in Heq.
      rewrite !map_app in Heq. cbn [map snd] in Heq.
      apply app_inv_head in Heq. injection Heq as Heq _. congruence.
    + intros _. exact G3.
Qed.

(** The Earth at (50, 0, 0) and the Moon, added in this order: after a
    frame the Moon's orbit is centred on the Earth's new position. *)
Lemma moon_follows_parent_witness :
  let E := mkCelestialBody "Earth" (mkVec3 50 0 0) (mkVec3 50 0 0) 0.01
             50 0.1 0 (mkVec3 0 0 0) 0.04 0 (Some 0) (Some 0) false None in
  let M := mkCelestialBody "Moon" (mkVec3 0 0 0) (mkVec3 0 0 0) 0.005
             5 0.3 0 (mkVec3 50 0 0) 0 0 (Some 0) (Some 0) true (Some 0%nat) in
  let s := addBody 1 M (addBody 0 E new_SolarSystem) in
  exists M',
    objects (ss_update 1 1 s) !! 1%nat = Some M' /\
    orbitCenter M' = getWorldPosition (update 1 1 E).
Proof.
  intros E M s.
  destruct (moon_follows_parent s 1 1 [] [] [] "Earth" "Moon" 0%nat 1%nat E M)
    as (M' & _ & H2 & _ & _ & H5 & _).
  - apply NoDup_ListNoDup. cbn. repeat constructor; cbn; intuition lia.
  - reflexivity.
  - reflexivity.
  - reflexivity.
  - reflexivity.
  - reflexivity.
  - apply orbiting_spec. cbn. lra.
  - left. reflexivity.
  - exists M'. split; [exact H2|]. apply H5. reflexivity.
Defined.

End OrbitFacts.

(* ===================================================================== *)
(** * Properties of the render loop *)
(* ===================================================================== *)

Section LoopFacts.
Import Loop.

Lemma times_add a b l : times (a + b) l = times a l ++ times b l.
Proof.
  induction a as [|a IH]; [reflexivity|].
  cbn [Nat.add times]. rewrite IH, app_assoc. reflexivity.
Qed.

Lemma times_one l : times 1 l = l.
Proof. cbn. apply app_nil_r. Qed.

Lemma times_snoc k l : times k l ++ l = times (S k) l.
Proof.
  induction k as [|k IH]; [cbn; rewrite app_nil_r; reflexivity|].
  cbn [times] in *. rewrite <- app_assoc, IH. reflexivity.
Qed.

Lemma iter_animate_running k e :
  isRunning e = true ->
  Nat.iter k animate e
  = mkEngine true (updateCallbacks e) (k + requested e)
      (called e ++ times k (updateCallbacks e)) (k + rendered e).
Proof.
  intros H. induction k as [|k IH].
  - cbn. rewrite app_nil_r. destruct e; cbn in *; subst; reflexivity.
  - change (Nat.iter (S k) animate e) with (animate (Nat.iter k animate e)).
    rewrite IH. unfold animate.
    cbn [isRunning updateCallbacks requested called rendered].
    rewrite <- app_assoc, times_snoc. reflexivity.
Qed.

Lemma iter_animate_stopped k e :
  isRunning e = false -> Nat.iter k animate e = e.
Proof.
  intros H. induction k as [|k IH]; [reflexivity|].
  change (Nat.iter (S k) animate e) with (animate (Nat.iter k animate e)).
  rewrite IH. unfold animate. rewrite H. reflexivity.
Qed.

Lemma frame_running e :
  isRunning e = true ->
  frame e
  = mkEngine true (updateCallbacks e) (requested e)
      (called e ++ times (requested e) (updateCallbacks e))
      (requested e + rendered e).
Proof.
  intros H. unfold frame. rewrite iter_animate_running by exact H.
  cbn. rewrite Nat.add_0_r. reflexivity.
Qed.

Lemma frames_running k : forall e,
  isRunning e = true ->
  frames k e
  = mkEngine true (updateCallbacks e) (requested e)
      (called e ++ times (k * requested e) (updateCallbacks e))
      (k * requested e + rendered e).
Proof.
  induction k as [|k IH]; intros e H.
  - cbn. rewrite app_nil_r. destruct e; cbn in *; subst; reflexivity.
  - cbn [frames]. rewrite IH by (rewrite frame_running by exact H; reflexivity).
    rewrite frame_running by exact H. cbn.
    rewrite <- app_assoc, <- times_add.
    replace (requested e + k * requested e + rendered e)%nat
      with (k * requested e + (requested e + rendered e))%nat by lia.
    reflexivity.
Qed.

Lemma frames_stopped k : forall e,
  isRunning e = false -> called (frames k e) = called e /\
                         rendered (frames k e) = rendered e.
Proof.
  induction k as [|k IH]; intros e H; [split; reflexivity|].
  cbn [frames]. unfold frame. rewrite iter_animate_stopped by exact H.
  apply (IH (mkEngine (isRunning e) (updateCallbacks e) 0 (called e)
               (rendered e))). exact H.
Qed.

(** X25. How often a frame runs the callbacks.  While the engine runs,
    every animation frame keeps the number of scheduled calls of
    [animate] and runs the update callbacks, in the order of their
    registration, and the renderer, once for each of them: after [k]
    frames each has run [k] times that number.  [start()] on a running
    engine does nothing; from a stopped engine with nothing scheduled it
    schedules one call, so the callbacks run once per frame.  But
    [stop()] leaves the scheduled call in place: [start()] right after
    [stop()], before the next frame, schedules one more, and from then on
    every frame runs the callbacks once more than before.  A stopped
    engine runs no callback, and after one frame nothing is scheduled any
    more. *)
Theorem callbacks_per_frame (e : Engine) (k : nat) :
  isRunning e = true ->
  let e' := frames k e in
  isRunning e' = true /\ requested e' = requested e /\
  called e' = called e ++ times (k * requested e) (updateCallbacks e) /\
  rendered e' = (k * requested e + rendered e)%nat /\
  start e = e /\
  requested (start (stop e)) = S (requested e) /\
  called (frame (start (stop e)))
  = called (start (stop e))
    ++ times (S (requested e)) (updateCallbacks e) /\
  called (frames k (stop e)) = called e /\
  requested (frame (stop e)) = 0%nat /\
  requested (start (frame (stop e))) = 1%nat.
Proof.
  intros H. cbn zeta.
  assert (Hs : isRunning (start (stop e)) = true /\
               requested (start (stop e)) = S (requested e) /\
               updateCallbacks (start (stop e)) = updateCallbacks e)
    by (repeat split).
  destruct Hs as (S1 & S2 & S3).
  rewrite frames_running by exact H.
  cbn [isRunning requested called rendered].
  split; [reflexivity|]. split; [reflexivity|]. split; [reflexivity|].
  split; [reflexivity|].
  split; [unfold start; rewrite H; reflexivity|].
  split; [exact S2|].
  split; [rewrite (frame_running _ S1); cbn [called]; rewrite S2, S3;
          reflexivity|].
  split; [apply (frames_stopped k (stop e)); reflexivity|].
  assert (Hf : frame (stop e)
               = mkEngine false (updateCallbacks e) 0 (called e) (rendered e))
    by (unfold frame; rewrite iter_animate_stopped by reflexivity;
        reflexivity).
  rewrite Hf. split; reflexivity.
Qed.

(** An engine with one callback, started, stopped and started again at
    once: every frame runs the callback twice. *)
Lemma callbacks_per_frame_witness :
  let e := start (stop (start (onUpdate 7 new_Engine))) in
  requested e = 2%nat /\
  called (frames 3 e) = called e ++ [7; 7; 7; 7; 7; 7]%nat.
Proof.
  intros e. split; [reflexivity|].
  exact (proj1 (proj2 (proj2 (callbacks_per_frame e 3 eq_refl)))).
Defined.





End LoopFacts.

(* ===================================================================== *)
(** * Properties of the loading progress *)
(* ===================================================================== *)

Section ResourceFacts.
Import JsNum Resources.

Lemma settle_counts l ok r :
  loadedItems (settle l ok r) = S (loadedItems r) /\
  totalItems (settle l ok r) = totalItems r /\
  loadingProgress (settle l ok r)
  = div (of_nat (S (loadedItems r))) (of_nat (totalItems r)) /\
  onProgressCallback (settle l ok r) = onProgressCallback r /\
  (forall n, n ∈ textures (settle l ok r)
             <-> n ∈ textures r \/ (l, ok) = ((Texture, n), true)) /\
  (forall n, n ∈ hdrTextures (settle l ok r)
             <-> n ∈ hdrTextures r \/ (l, ok) = ((HDR, n), true)).
Proof.
  destruct l as [[|] name]; destruct ok; cbn;
    repeat split; try (intros H; left; exact H);
    try (intros [H|H]; [exact H|discriminate]);
    try (intros H; apply elem_of_union in H; destruct H as [H|H];
         [apply elem_of_singleton in H; subst; right; reflexivity
         |left; exact H]);
    try (intros [H|H]; [apply elem_of_union; right; exact H|];
         injection H as <-; apply elem_of_union; left;
         apply elem_of_singleton; reflexivity).
Qed.

Lemma settle_all_counts evs : forall r,
  loadedItems (settle_all evs r) = (loadedItems r + length evs)%nat /\
  totalItems (settle_all evs r) = totalItems r /\
  (evs <> [] ->
   loadingProgress (settle_all evs r)
   = div (of_nat (loadedItems r + length evs)) (of_nat (totalItems r))) /\
  (forall n, n ∈ textures (settle_all evs r)
             <-> n ∈ textures r \/ In ((Texture, n), true) evs) /\
  (forall n, n ∈ hdrTextures (settle_all evs r)
             <-> n ∈ hdrTextures r \/ In ((HDR, n), true) evs).
Proof.
  induction evs as [|[l ok] evs IH]; intros r.
  - cbn. rewrite Nat.add_0_r. repeat split; try tauto; congruence.
  - change (settle_all ((l, ok) :: evs) r)
      with (settle_all evs (settle l ok r)).
    destruct (settle_counts l ok r) as (S1 & S2 & S3 & _ & S5 & S6).
    destruct (IH (settle l ok r)) as (I1 & I2 & I3 & I4 & I5).
    rewrite S1, S2 in *. cbn [length].
    split; [rewrite I1; lia|]. split; [exact I2|]. split.
    { intros _. destruct evs as [|ev evs].
      - change (settle_all [] (settle l ok r)) with (settle l ok r).
        rewrite S3. cbn [length]. f_equal. f_equal. lia.
      - rewrite I3 by discriminate. f_equal. f_equal. cbn [length]. lia. }
    split.
    + intros n. rewrite I4, S5. cbn [In]. split.
      * intros [[H|H]|H]; [left; exact H|right; left; exact H
                          |right; right; exact H].
      * intros [H|[H|H]]; [left; left; exact H|left; right; exact H
                          |right; exact H].
    + intros n. rewrite I5, S6. cbn [In]. split.
      * intros [[H|H]|H]; [left; exact H|right; left; exact H
                          |right; right; exact H].
      * intros [H|[H|H]]; [left; left; exact H|left; right; exact H
                          |right; exact H].
Qed.

Lemma preload_new_pending :
  length (snd (preloadAll new_ResourceManager)) = 20%nat.
Proof. vm_compute. reflexivity. Qed.

Lemma full_progress : div (of_nat 20) (of_nat 20) = Fin 1.
Proof. vm_compute. reflexivity. Qed.

Lemma partial_progress k :
  (0 < k < 20)%nat -> ltb (div (of_nat k) (of_nat 20)) (Fin 1) = true.
Proof.
  intros Hk. unfold of_nat, div, ltb.
  replace (Qsgn (inject_Z (Z.of_nat 20))) with Gt by reflexivity.
  apply negb_true_iff. apply not_true_is_false. intros Hle.
  apply Qle_bool_iff in Hle. rewrite Qred_correct in Hle.
  apply (Qmult_le_compat_r _ _ (inject_Z (Z.of_nat 20))) in Hle;
    [|discriminate].
  assert (E : (inject_Z (Z.of_nat k) / inject_Z (Z.of_nat 20)
               * inject_Z (Z.of_nat 20) == inject_Z (Z.of_nat k))%Q)
    by (field; discriminate).
  rewrite E, Qmult_1_l in Hle. rewrite <- Zle_Qle in Hle. lia.
Qed.

Lemma preload_start r :
  loadedItems (fst (preloadAll r)) = 0%nat /\
  totalItems (fst (preloadAll r)) = 20%nat /\
  textures (fst (preloadAll r)) = textures r /\
  hdrTextures (fst (preloadAll r)) = hdrTextures r.
Proof. repeat split. Qed.

(** X27. Loading progress counts settled loads, not loaded items.
    [preloadAll] sets the total to 20 and starts a load for every item
    that is not in its cache; when all these loads have settled, in any
    order, however many of them have failed, the count of loaded items is
    the number of loads that were started and the progress is that number
    over 20; the caches hold what they held plus the items whose load
    succeeded.  From a new manager the progress therefore ends at exactly
    1, even if every load fails; when some items were cached before, it
    ends below 1. *)
Theorem progress_counts_settled_loads
  (r : ResourceManager) (evs : list (load * bool)) :
  map fst evs ≡ₚ snd (preloadAll r) ->
  let pending := snd (preloadAll r) in
  let r' := settle_all evs (fst (preloadAll r)) in
  totalItems r' = 20%nat /\
  loadedItems r' = length pending /\
  (pending <> [] ->
   loadingProgress r' = div (of_nat (length pending)) (of_nat 20)) /\
  (forall n, n ∈ textures r'
             <-> n ∈ textures r \/ In ((Texture, n), true) evs) /\
  (forall n, n ∈ hdrTextures r'
             <-> n ∈ hdrTextures r \/ In ((HDR, n), true) evs) /\
  (r = new_ResourceManager ->
   loadedItems r' = 20%nat /\ loadingProgress r' = Fin 1) /\
  ((length pending < 20)%nat -> pending <> [] ->
   ltb (loadingProgress r') (Fin 1) = true).
Proof.
  intros Hp. cbn zeta.
  assert (Hlen : length evs = length (snd (preloadAll r)))
    by (rewrite <- (Permutation_length Hp), length_map; reflexivity).
  destruct (settle_all_counts evs (fst (preloadAll r)))
    as (C1 & C2 & C3 & C4 & C5).
  destruct (preload_start r) as (P1 & P2 & P3 & P4).
  rewrite P1 in C1, C3. rewrite P2 in C2, C3. rewrite P3 in C4.
  rewrite P4 in C5.
  rewrite Nat.add_0_l in C1, C3. rewrite Hlen in C1, C3.
  assert (Hne : snd (preloadAll r) <> [] -> evs <> []).
  { intros H1 H2. apply H1. subst evs.
    apply List.length_zero_iff_nil. symmetry. exact Hlen. }
  split; [exact C2|]. split; [exact C1|].
  split; [intros H; apply C3, Hne, H|].
  split; [exact C4|]. split; [exact C5|]. split.
  - intros Hr.
    assert (Hl : length (snd (preloadAll r)) = 20%nat)
      by (rewrite Hr; exact preload_new_pending).
    split; [rewrite C1; exact Hl|].
    rewrite C3 by (apply Hne; intros E; rewrite E in Hl; discriminate).
    rewrite Hl. exact full_progress.
  - intros Hlt Hpn. rewrite C3 by (apply Hne, Hpn).
    apply partial_progress. split; [|exact Hlt].
    destruct (snd (preloadAll r)); [congruence|cbn [length]; lia].
Qed.

(** A new manager: the seventeen textures fail to load and the three
    nebulae load; the progress ends at 1 with no texture in the cache. *)
Lemma progress_counts_settled_loads_witness :
  let evs := map (fun n => ((Texture, n), false)) planetTextures
             ++ map (fun n => ((HDR, n), true)) hdrs in
  let r' := settle_all evs (fst (preloadAll new_ResourceManager)) in
  loadingProgress r' = Fin 1 /\ loadedItems r' = 20%nat.
Proof.
  intros evs r'.
  destruct (progress_counts_settled_loads new_ResourceManager evs)
    as (_ & _ & _ & _ & _ & H & _).
  - vm_compute. reflexivity.
  - destruct (H eq_refl) as (H1 & H2). split; [exact H2|exact H1].
Defined.

End ResourceFacts.
